(** * Coordinate calculator: a shallow embedding of the geodesic engine

    The calculator module of the repository (the file that opens with
    "COORDINATE CALCULATOR MODULE") is a JavaScript library of pure functions
    on IEEE-754 binary64 numbers.  It is embedded here in two layers,
    both on binary64.

    - Everything that branches on numbers, rounds them or inspects NaN
      ([dmsToDecimal], [decimalToDMS], [validateInput], [validateDMS],
      [calculateTarget]) is written over Rocq's primitive [float], which is
      the very same binary64 arithmetic, so the definitions compute bit for
      bit what the JavaScript computes.

    - The branch-free trigonometric formulas ([calculateTargetCoordinate],
      [calculateDistance], [calculateBearing], [estimateError]) are written
      over a record [Arith num] of the operations they use, instantiated at
      binary64 by [Binary64]: the arithmetic and the square root are those
      of the format, and the transcendental functions of the host's [Math]
      object are parameters ([HostMath]), since ECMAScript only specifies
      them up to an implementation-defined approximation.  What a theorem
      needs of the host is a hypothesis of that theorem. *)

From Stdlib Require Import Floats.
From Stdlib Require Import ZArith QArith Reals Lra Lia String List Bool.
Import ListNotations.

Set Warnings "-inexact-float".

(** ** The arithmetic the formulas are written in *)

Record Arith (num : Type) : Type := {
  lit : Q -> num;                     (* a numeric literal of the source *)
  Math_PI : num;
  nadd : num -> num -> num;
  nsub : num -> num -> num;
  nmul : num -> num -> num;
  ndiv : num -> num -> num;
  nrem : num -> num -> num;           (* the % operator *)
  Math_sin : num -> num;
  Math_cos : num -> num;
  Math_asin : num -> num;
  Math_sqrt : num -> num;
  Math_atan2 : num -> num -> num;
  Math_pow : num -> num -> num
}.

Arguments lit {num} _ _.
Arguments Math_PI {num} _.
Arguments nadd {num} _ _ _.
Arguments nsub {num} _ _ _.
Arguments nmul {num} _ _ _.
Arguments ndiv {num} _ _ _.
Arguments nrem {num} _ _ _.
Arguments Math_sin {num} _ _.
Arguments Math_cos {num} _ _.
Arguments Math_asin {num} _ _.
Arguments Math_sqrt {num} _ _.
Arguments Math_atan2 {num} _ _ _.
Arguments Math_pow {num} _ _ _.

Record LatLon (num : Type) : Type := { lat : num; lon : num }.
Arguments lat {num} _.
Arguments lon {num} _.

Declare Scope num_scope.
Delimit Scope num_scope with num.

(** ** GEODESIC CALCULATIONS and ERROR ESTIMATION, as written in the source *)

Section Geodesy.
Context {num : Type} (A : Arith num).

Local Notation "x + y" := (nadd A x y) : num_scope.
Local Notation "x - y" := (nsub A x y) : num_scope.
Local Notation "x * y" := (nmul A x y) : num_scope.
Local Notation "x / y" := (ndiv A x y) : num_scope.
Local Notation "x 'mod' y" := (nrem A x y) : num_scope.
Local Notation "# q" := (lit A q%Q) (at level 1, format "# q") : num_scope.
Local Open Scope num_scope.

Definition EARTH_RADIUS_KM : num := #6371.0.
Definition DEG_TO_RAD : num := Math_PI A / #180.
Definition RAD_TO_DEG : num := #180 / Math_PI A.

Definition calculateTargetCoordinate (lat lon azimuthDeg distanceKm : num)
  : LatLon num :=
  let lat1 := lat * DEG_TO_RAD in
  let lon1 := lon * DEG_TO_RAD in
  let bearing := azimuthDeg * DEG_TO_RAD in
  let delta := distanceKm / EARTH_RADIUS_KM in
  let lat2 := Math_asin A
    (Math_sin A lat1 * Math_cos A delta +
     Math_cos A lat1 * Math_sin A delta * Math_cos A bearing) in
  let lon2 := lon1 + Math_atan2 A
    (Math_sin A bearing * Math_sin A delta * Math_cos A lat1)
    (Math_cos A delta - Math_sin A lat1 * Math_sin A lat2) in
  let targetLat := lat2 * RAD_TO_DEG in
  let targetLon := lon2 * RAD_TO_DEG in
  let targetLon := ((targetLon + #540) mod #360) - #180 in
  {| lat := targetLat; lon := targetLon |}.

Definition calculateDistance (lat1 lon1 lat2 lon2 : num) : num :=
  let phi1 := lat1 * DEG_TO_RAD in
  let phi2 := lat2 * DEG_TO_RAD in
  let dphi := (lat2 - lat1) * DEG_TO_RAD in
  let dlambda := (lon2 - lon1) * DEG_TO_RAD in
  let a :=
    Math_sin A (dphi / #2) * Math_sin A (dphi / #2) +
    Math_cos A phi1 * Math_cos A phi2 *
    Math_sin A (dlambda / #2) * Math_sin A (dlambda / #2) in
  let c := #2 * Math_atan2 A (Math_sqrt A a) (Math_sqrt A (#1 - a)) in
  let distance := EARTH_RADIUS_KM * c in
  distance.

Definition calculateBearing (lat1 lon1 lat2 lon2 : num) : num :=
  let phi1 := lat1 * DEG_TO_RAD in
  let phi2 := lat2 * DEG_TO_RAD in
  let dlambda := (lon2 - lon1) * DEG_TO_RAD in
  let y := Math_sin A dlambda * Math_cos A phi2 in
  let x := Math_cos A phi1 * Math_sin A phi2 -
           Math_sin A phi1 * Math_cos A phi2 * Math_cos A dlambda in
  let theta := Math_atan2 A y x in
  let bearing := (theta * RAD_TO_DEG + #360) mod #360 in
  bearing.

(** [estimateError(distanceKm, gpsError = 10, azimuthError = 0.5,
    distanceError = 0.5)]: an omitted argument is [None]. *)
Definition estimateError (distanceKm : num)
    (gpsError azimuthError distanceError : option num) : num :=
  let gpsError := match gpsError with Some v => v | None => #10 end in
  let azimuthError := match azimuthError with Some v => v | None => #0.5 end in
  let distanceError := match distanceError with Some v => v | None => #0.5 end in
  let azimuthErrorRad := azimuthError * DEG_TO_RAD in
  let azimuthErrorMeters := distanceKm * #1000 * Math_sin A azimuthErrorRad in
  let totalError := Math_sqrt A
    (Math_pow A gpsError #2 +
     Math_pow A azimuthErrorMeters #2 +
     Math_pow A distanceError #2) in
  totalError.
End Geodesy.

(** ** binary64: the parts of JavaScript's Number the module relies on *)

Module JS.
Local Open Scope float_scope.

(** The double nearest to the rational [n / d] (round to nearest, ties to
    even): how a decimal literal or a decimal string is read. *)
Definition sf_of_Z (z : Z) : spec_float :=
  match z with
  | Z0 => S754_zero false
  | Zpos p => S754_finite false p 0
  | Zneg p => S754_finite true p 0
  end.

Definition nearest (n : Z) (d : positive) : float :=
  SF2Prim (SFdiv prec emax (sf_of_Z n) (S754_finite false d 0)).

Definition literal (q : Q) : float := nearest (Qnum q) (Qden q).

Definition of_Z (z : Z) : float := nearest z 1.

Definition Math_PI : float := 0x1.921fb54442d18p+1.

Definition isNaN (x : float) : bool := PrimFloat.is_nan x.

(** Neither NaN nor an infinity. *)
Definition sf_finite (x : spec_float) : bool :=
  match x with
  | S754_zero _ | S754_finite _ _ _ => true
  | _ => false
  end.

Definition isFinite (x : float) : bool := sf_finite (Prim2SF x).

(** [Math.floor]: exact, through the integer mantissa and exponent. *)
Definition Math_floor (x : float) : float :=
  match Prim2SF x with
  | S754_finite s m e =>
      if (0 <=? e)%Z then x
      else
        let q := Z.shiftr (Zpos m) (- e) in
        if s then
          (if (Z.shiftl q (- e) =? Zpos m)%Z then x else of_Z (- (q + 1)))
        else of_Z q
  | _ => x
  end.

(** The [%] operator: the exact remainder of the truncated division, with
    the sign of the dividend. *)
Definition rem (x y : float) : float :=
  match Prim2SF x, Prim2SF y with
  | S754_nan, _ | _, S754_nan => nan
  | S754_infinity _, _ => nan
  | _, S754_zero _ => nan
  | S754_zero _, _ => x
  | S754_finite _ _ _, S754_infinity _ => x
  | S754_finite sx mx ex, S754_finite _ my ey =>
      let e := Z.min ex ey in
      let X := Z.shiftl (Zpos mx) (ex - e) in
      let Y := Z.shiftl (Zpos my) (ey - e) in
      let r := Z.modulo X Y in
      SF2Prim (binary_normalize prec emax (if sx then (- r)%Z else r) e sx)
  end.

(** What [Number.prototype.toFixed] returns, as the decimal it spells
    rather than as a string of characters. *)
Inductive numeral : Type :=
| NaNText
| InfinityText (negative : bool)
| Fixed (negative : bool) (n : Z) (digits : nat)   (* [-]n / 10^digits *)
| Shortest (x : float).           (* |x| >= 1e21: the text of x itself *)

(** [x.toFixed(digits)]: the integer [n] for which [n / 10^digits] is
    closest to [|x|], the larger one on a tie. *)
Definition toFixed (x : float) (digits : nat) : numeral :=
  match Prim2SF x with
  | S754_nan => NaNText
  | S754_infinity s => InfinityText s
  | S754_zero _ => Fixed false 0 digits
  | S754_finite s m e =>
      if 1e21 <=? PrimFloat.abs x then Shortest x
      else
        let scaled := (Zpos m * 10 ^ Z.of_nat digits)%Z in
        let n :=
          if (0 <=? e)%Z then Z.shiftl scaled e
          else Z.shiftr (Z.shiftl scaled 1 + Z.shiftl 1 (- e)) (- e + 1) in
        Fixed s n digits
  end.

Definition parseFloat (t : numeral) : float :=
  match t with
  | NaNText => nan
  | InfinityText s => if s then neg_infinity else infinity
  | Fixed s n digits =>
      let v := nearest n (Z.to_pos (10 ^ Z.of_nat digits)) in
      if s then - v else v
  | Shortest x => x
  end.

(** A string in a condition is true exactly when it is not empty. *)
Definition truthy (s : string) : bool := negb (String.eqb s EmptyString).
End JS.

(** ** The arithmetic of the host *)

(** The transcendental functions ECMAScript leaves to the host. *)
Record HostMath : Type := {
  host_sin : float -> float;
  host_cos : float -> float;
  host_asin : float -> float;
  host_atan2 : float -> float -> float;
  host_pow : float -> float -> float
}.

Definition Binary64 (h : HostMath) : Arith float := {|
  lit := JS.literal;
  Math_PI := JS.Math_PI;
  nadd := PrimFloat.add;
  nsub := PrimFloat.sub;
  nmul := PrimFloat.mul;
  ndiv := PrimFloat.div;
  nrem := JS.rem;
  Math_sin := host_sin h;
  Math_cos := host_cos h;
  Math_asin := host_asin h;
  Math_sqrt := PrimFloat.sqrt;
  Math_atan2 := host_atan2 h;
  Math_pow := host_pow h
|}.

(** ** COORDINATE CONVERSION (binary64) *)

Open Scope float_scope.

Record DMS : Type := { degrees : float; minutes : float; seconds : float }.

Definition dmsToDecimal (degrees minutes seconds : float) : float :=
  let sign := if degrees <? 0 then -1 else 1 in
  let absDegrees := PrimFloat.abs degrees in
  let decimal := absDegrees + (minutes / 60) + (seconds / 3600) in
  sign * decimal.

Definition decimalToDMS (decimal : float) : DMS :=
  let sign := if decimal <? 0 then -1 else 1 in
  let absolute := PrimFloat.abs decimal in
  let degrees := JS.Math_floor absolute in
  let minutesFloat := (absolute - degrees) * 60 in
  let minutes := JS.Math_floor minutesFloat in
  let seconds := (minutesFloat - minutes) * 60 in
  {| degrees := sign * degrees;
     minutes := minutes;
     seconds := JS.parseFloat (JS.toFixed seconds 2) |}.

(** ** VALIDATION (binary64) *)

Definition LAT_MIN : float := -90.
Definition LAT_MAX : float := 90.
Definition LON_MIN : float := -180.
Definition LON_MAX : float := 180.
Definition AZIMUTH_MIN : float := 0.
Definition AZIMUTH_MAX : float := 360.

Record ValidationData : Type := {
  data_lat : float;
  data_lon : float;
  data_azimuth : float;
  data_distance : float
}.

(** The diagnostics, with the limits the template strings interpolate. *)
Definition latitudeMessage : string :=
  "Vĩ độ phải trong khoảng -90° đến 90°".
Definition longitudeMessage : string :=
  "Kinh độ phải trong khoảng -180° đến 180°".
Definition azimuthMessage : string :=
  "Góc azimuth phải trong khoảng 0° đến 360°".
Definition distanceMessage : string :=
  "Khoảng cách phải lớn hơn 0 km".
Definition warningMessage : string :=
  "Cảnh báo: Khoảng cách lớn (>100km) có thể làm giảm độ chính xác tính toán trên mô hình cầu".
Definition nanMessage : string :=
  "Dữ liệu đầu vào không hợp lệ. Vui lòng kiểm tra lại các giá trị".

Definition validateInput (data : ValidationData) : string :=
  let lat := data_lat data in
  let lon := data_lon data in
  let azimuth := data_azimuth data in
  let distance := data_distance data in
  if (lat <? LAT_MIN) || (LAT_MAX <? lat) then latitudeMessage
  else if (lon <? LON_MIN) || (LON_MAX <? lon) then longitudeMessage
  else if (azimuth <? AZIMUTH_MIN) || (AZIMUTH_MAX <? azimuth) then azimuthMessage
  else if distance <=? 0 then distanceMessage
  else if 100 <? distance then warningMessage
  else if JS.isNaN lat || JS.isNaN lon || JS.isNaN azimuth || JS.isNaN distance
       then nanMessage
  else EmptyString.

Definition validateDMS (degrees minutes seconds : float) (type : string) : string :=
  if JS.isNaN degrees || JS.isNaN minutes || JS.isNaN seconds
  then "Giá trị DMS không hợp lệ"%string
  else if (minutes <? 0) || (60 <=? minutes)
  then "Phút phải trong khoảng 0-59"%string
  else if (seconds <? 0) || (60 <=? seconds)
  then "Giây phải trong khoảng 0-59.99"%string
  else if String.eqb type "lat" then
    (if 90 <? PrimFloat.abs degrees
     then "Độ vĩ độ phải trong khoảng -90 đến 90"%string else EmptyString)
  else if String.eqb type "lon" then
    (if 180 <? PrimFloat.abs degrees
     then "Độ kinh độ phải trong khoảng -180 đến 180"%string else EmptyString)
  else EmptyString.

(** The rules of the specification's section on validation, in the order it
    lists them; [firstFailing] returns the diagnostic of the first rule that
    fires and the empty string when none does. *)
Definition latitudeOutOfRange (d : ValidationData) : bool :=
  (data_lat d <? -90) || (90 <? data_lat d).
Definition longitudeOutOfRange (d : ValidationData) : bool :=
  (data_lon d <? -180) || (180 <? data_lon d).
Definition bearingOutOfRange (d : ValidationData) : bool :=
  (data_azimuth d <? 0) || (360 <? data_azimuth d).
Definition distanceNotPositive (d : ValidationData) : bool :=
  data_distance d <=? 0.
Definition distanceOver100 (d : ValidationData) : bool :=
  100 <? data_distance d.
Definition anyNotANumber (d : ValidationData) : bool :=
  JS.isNaN (data_lat d) || JS.isNaN (data_lon d) ||
  JS.isNaN (data_azimuth d) || JS.isNaN (data_distance d).

Definition specRules : list ((ValidationData -> bool) * string) :=
  [ (latitudeOutOfRange, latitudeMessage);
    (longitudeOutOfRange, longitudeMessage);
    (bearingOutOfRange, azimuthMessage);
    (distanceNotPositive, distanceMessage);
    (distanceOver100, warningMessage);
    (anyNotANumber, nanMessage) ].

Fixpoint firstFailing (rules : list ((ValidationData -> bool) * string))
    (d : ValidationData) : string :=
  match rules with
  | [] => EmptyString
  | (fires, message) :: rest => if fires d then message else firstFailing rest d
  end.

(** ** MAIN CALCULATION FUNCTION (binary64)

    The result object, without its presentation strings ([latFormatted],
    [azimuthFormatted], ...), which no property below reads.  The numeric
    code cannot throw, so the [catch] branch of the source is unreachable and
    has no counterpart. *)

Record TargetInput : Type := {
  observerLat : float;
  observerLon : float;
  azimuth : float;
  distance : float
}.

Record Position : Type := {
  position : LatLon float;
  dms_lat : DMS;
  dms_lon : DMS
}.

Record Verification : Type := {
  verification_distance : float;
  verification_bearing : float;
  distanceError : float;
  bearingError : float
}.

Record ResultData : Type := {
  observer : Position;
  target : Position;
  measurement_azimuth : float;
  measurement_distance : float;
  verification : Verification;
  estimatedError_meters : float
}.

Inductive Result : Type :=
| Failure (error : string)           (* { success: false, error } *)
| Success (data : ResultData).       (* { success: true, data } *)

Definition success (r : Result) : bool :=
  match r with Failure _ => false | Success _ => true end.

(** The object literal [calculateTarget] hands to [validateInput]. *)
Definition validationData (input : TargetInput) : ValidationData :=
  {| data_lat := observerLat input;
     data_lon := observerLon input;
     data_azimuth := azimuth input;
     data_distance := distance input |}.

Section Calculator.
Variable host : HostMath.

Definition calculateTarget (input : TargetInput) : Result :=
  let validationError := validateInput (validationData input) in
  if JS.truthy validationError then Failure validationError
  else
    let target := calculateTargetCoordinate (Binary64 host)
      (observerLat input) (observerLon input) (azimuth input) (distance input) in
    let verifyDistance := calculateDistance (Binary64 host)
      (observerLat input) (observerLon input) (lat target) (lon target) in
    let verifyBearing := calculateBearing (Binary64 host)
      (observerLat input) (observerLon input) (lat target) (lon target) in
    let estimatedError :=
      estimateError (Binary64 host) (distance input) None None None in
    Success
      {| observer :=
           {| position := {| lat := observerLat input; lon := observerLon input |};
              dms_lat := decimalToDMS (observerLat input);
              dms_lon := decimalToDMS (observerLon input) |};
         target :=
           {| position := target;
              dms_lat := decimalToDMS (lat target);
              dms_lon := decimalToDMS (lon target) |};
         measurement_azimuth := azimuth input;
         measurement_distance := distance input;
         verification :=
           {| verification_distance := verifyDistance;
              verification_bearing := verifyBearing;
              distanceError := PrimFloat.abs (verifyDistance - distance input);
              bearingError := PrimFloat.abs (verifyBearing - azimuth input) |};
         estimatedError_meters := estimatedError |}.
End Calculator.

Close Scope float_scope.


(** A host to run examples with.  At +0 its functions take the values
    ECMAScript prescribes (sin 0 = 0, cos 0 = 1, asin 0 = 0, atan2 (0, 1) = 0),
    its sine is odd and its cosine is bounded by 1. *)
Definition sampleHost : HostMath :=
  {| host_sin := fun x => x;
     host_cos := fun _ => 1%float;
     host_asin := fun x => x;
     host_atan2 := fun y _ => y;
     host_pow := fun x _ => x |}.

(** Evaluates the closed binary64 subterm [a] of the goal. *)
Ltac evaluate a :=
  let v := eval vm_compute in a in
  replace a with v by (vm_compute; reflexivity).

(** ** FORMATTING UTILITIES (binary64)

    A template literal is kept as the list of its pieces: the fixed text and
    the numbers it interpolates, each in the notation the source asks for
    ([JS.toFixed] for [toFixed], [JS.Shortest] for the plain text of a
    number). *)

Open Scope float_scope.

Inductive piece : Type :=
| Text (s : string)
| Number (n : JS.numeral).

Record Direction : Type := { angle : float; short : string; full : string }.

Definition directions : list Direction :=
  [ {| angle := 0; short := "N"; full := "Bắc" |};
    {| angle := 45; short := "NE"; full := "Đông Bắc" |};
    {| angle := 90; short := "E"; full := "Đông" |};
    {| angle := 135; short := "SE"; full := "Đông Nam" |};
    {| angle := 180; short := "S"; full := "Nam" |};
    {| angle := 225; short := "SW"; full := "Tây Nam" |};
    {| angle := 270; short := "W"; full := "Tây" |};
    {| angle := 315; short := "NW"; full := "Tây Bắc" |};
    {| angle := 360; short := "N"; full := "Bắc" |} ].

(** One turn of the loop of [formatAzimuth] on [closestDir] and [minDiff]. *)
Definition closer (azimuth : float) (state : Direction * float)
    (dir : Direction) : Direction * float :=
  let diff := PrimFloat.abs (azimuth - angle dir) in
  if diff <? snd state then (dir, diff) else state.

(** [closestDir] when the loop of [formatAzimuth] ends.  The loop starts from
    [directions[0]]; the list is not empty, so the default of [hd] is never
    read. *)
Definition closestDirection (azimuth : float) : Direction :=
  let first :=
    hd {| angle := nan; short := EmptyString; full := EmptyString |}
       directions in
  let minDiff := PrimFloat.abs (azimuth - angle first) in
  fst (fold_left (closer azimuth) directions (first, minDiff)).

Definition formatAzimuth (azimuth : float) : list piece :=
  let closestDir := closestDirection azimuth in
  [ Number (JS.toFixed azimuth 1); Text "° ("; Text (short closestDir);
    Text " - "; Text (full closestDir); Text ")" ].

Definition formatDistance (distanceKm : float) : list piece :=
  if distanceKm <? 1
  then [ Number (JS.toFixed (distanceKm * 1000) 0); Text " m" ]
  else [ Number (JS.toFixed distanceKm 2); Text " km" ].

Close Scope float_scope.

(** ** The real value of a binary64 number

    [SF2R] reads a number of the format as the real number it denotes (an
    infinity and NaN as 0: the lemmas that use the value ask for a finite
    number).  [representable] says that a real number is one of the format,
    [inbetween m e l v] that the real number [v] lies at the place [l]
    between [m * 2^e] and [(m + 1) * 2^e], which is how the rounding of the
    Standard Library's [SpecFloat] is handed a value, and [rounds_to v r]
    that [r] is a number of the format that no other one is nearer to [v]
    than. *)

Open Scope R_scope.

Definition pow2 (e : Z) : R := powerRZ 2 e.

Definition SF2R (x : spec_float) : R :=
  match x with
  | S754_finite s m e => IZR (cond_Zopp s (Zpos m)) * pow2 e
  | _ => 0
  end.

Definition F2R (x : float) : R := SF2R (Prim2SF x).

Definition representable (u : R) : Prop :=
  exists M E : Z,
    u = IZR M * pow2 E /\ (Z.abs M < 2 ^ 53)%Z /\ (-1074 <= E <= 971)%Z.

Definition inbetween (m e : Z) (l : location) (v : R) : Prop :=
  match l with
  | loc_Exact => v = IZR m * pow2 e
  | loc_Inexact Lt => IZR m * pow2 e < v < (IZR m + / 2) * pow2 e
  | loc_Inexact Eq => v = (IZR m + / 2) * pow2 e
  | loc_Inexact Gt => (IZR m + / 2) * pow2 e < v < (IZR m + 1) * pow2 e
  end.

Definition rounds_to (v r : R) : Prop :=
  representable r /\
  forall g : R, representable g -> Rabs (r - v) <= Rabs (g - v).

Close Scope R_scope.

(** ** Hosts whose inverse functions stay in their ranges *)

Open Scope float_scope.

(** A result of the host that is NaN or of magnitude at most [bound]. *)
Definition within (bound x : float) : bool :=
  JS.isNaN x || (PrimFloat.abs x <=? bound).

(** A host whose functions are constant: its inverse functions stay in their
    ranges trivially. *)
Definition flatHost : HostMath :=
  {| host_sin := fun _ => 0;
     host_cos := fun _ => 1;
     host_asin := fun _ => 0;
     host_atan2 := fun _ _ => 0;
     host_pow := fun x _ => x |}.

(** A host whose [atan2] keeps to the first quadrant: at arguments that are
    not negative, the second not the negative zero, the result is NaN or lies
    within [0, pi/2].  (At [x = -0] the angle of ECMAScript is pi or -pi.) *)
Definition firstQuadrant (h : HostMath) : Prop :=
  forall y x : float,
    (y <? 0) = false -> (x <? 0) = false -> x <> -0 ->
    JS.isNaN (host_atan2 h y x)
    || ((0 <=? host_atan2 h y x) && (host_atan2 h y x <=? JS.Math_PI / 2))
    = true.

Close Scope float_scope.

(** Replaces the value of the literal [c], a number below 2^52 in magnitude,
    by the fraction it denotes. *)
Ltac literal_value c :=
  let sf := eval vm_compute in (Prim2SF c) in
  lazymatch sf with
  | S754_finite ?s ?m (Zneg ?p) =>
      let d := eval vm_compute in (Z.pow 2 (Zpos p)) in
      let n := eval vm_compute in (cond_Zopp s (Zpos m)) in
      let H := fresh "Hvalue" in
      assert (H : F2R c = (IZR n / IZR d)%R);
      [ unfold F2R; replace (Prim2SF c) with sf by (vm_compute; reflexivity);
        unfold SF2R, pow2; cbn [powerRZ];
        rewrite pow_IZR, positive_nat_Z; reflexivity
      | rewrite ?H in * ]
  end.

(** ** What is known of the host's [Math]

    ECMAScript leaves the values of the transcendental functions to the
    implementation, except at the arguments it lists.  [specialCases] collects
    the listed cases the properties below rely on: sin(+0) = +0, cos(+0) = 1,
    asin(+0) = +0, a NaN argument gives NaN, asin is NaN above 1, and
    atan2(+0, x) = +0 for x > 0. *)

Open Scope float_scope.

Definition specialCases (h : HostMath) : Prop :=
  host_sin h 0 = 0 /\
  host_cos h 0 = 1 /\
  host_asin h 0 = 0 /\
  (forall x, JS.isNaN x = true -> JS.isNaN (host_sin h x) = true) /\
  (forall x, JS.isNaN x = true -> JS.isNaN (host_cos h x) = true) /\
  (forall x, (1 <? x) = true -> JS.isNaN (host_asin h x) = true) /\
  (forall y x, JS.isNaN y || JS.isNaN x = true ->
               JS.isNaN (host_atan2 h y x) = true) /\
  (forall x, (0 <? x) = true -> host_atan2 h 0 x = 0).

(** Elsewhere a real host returns, in all but rare cases, the double nearest
    to the exact value.  [nearPoleValues] states that of the sine and cosine
    at the two angles the request (89.9682, 0, 0, 3.536) reaches: the
    observer's latitude 89.9682 degrees in radians, 1.5702413120927623, and
    the angular distance 3.536 / 6371 = 0.0005550149113169047. *)
Definition nearPoleValues (h : HostMath) : Prop :=
  (* sin 1.5702413120927623 = 0.9999998459793442 *)
  host_sin h 0x1.91fb55aa443c3p+0 = 0x1.fffffad4f8ff0p-1 /\
  (* cos 1.5702413120927623 = 0.0005550146736397447 *)
  host_cos h 0x1.91fb55aa443c3p+0 = 0x1.22fccefa068e5p-11 /\
  (* sin 0.0005550149113169047 = 0.000555014882822296 *)
  host_sin h 0x1.22fcd724a7f0cp-11 = 0x1.22fcd62a03c93p-11 /\
  (* cos 0.0005550149113169047 = 0.9999998459792281 *)
  host_cos h 0x1.22fcd724a7f0cp-11 = 0x1.fffffad4f8bdap-1.

(** [sampleValues] states the same of the ten values the sample request of
    the map viewer, (21.028511, 105.804817, 0, 5), reaches: the sine and
    cosine of the observer's latitude 0.36701675374184534 and of the angular
    distance 0.0007848061528802386, the arcsine that gives the target
    latitude 0.3678015598947255, the sine and cosine of that latitude, the
    sine and cosine of the longitude difference -7.440786129085082e-16, and
    the arctangent that gives the bearing back. *)
Definition sampleValues (h : HostMath) : Prop :=
  (* sin 0.36701675374184534 = 0.35883246488161447 *)
  host_sin h 0x1.77d33d699f09fp-2 = 0x1.6f71c715a36eep-2 /\
  (* cos 0.36701675374184534 = 0.9334019831492673 *)
  host_cos h 0x1.77d33d699f09fp-2 = 0x1.dde6dd5f4b984p-1 /\
  (* sin 0.0007848061528802386 = 0.0007848060723171823 *)
  host_sin h 0x1.9b76e61522c1fp-11 = 0x1.9b76e3507ee1ep-11 /\
  (* cos 0.0007848061528802386 = 0.999999692039667 *)
  host_cos h 0x1.9b76e61522c1fp-11 = 0x1.fffff5aaa410ep-1 /\
  (* asin 0.3595648939197375 = 0.3678015598947255 *)
  host_asin h 0x1.7031c790b32e7p-2 = 0x1.78a0f8dca99b4p-2 /\
  (* sin 0.3678015598947255 = 0.3595648939197375 *)
  host_sin h 0x1.78a0f8dca99b4p-2 = 0x1.7031c790b32e7p-2 /\
  (* cos 0.3678015598947255 = 0.9331200818010981 *)
  host_cos h 0x1.78a0f8dca99b4p-2 = 0x1.ddc1ea5527330p-1 /\
  (* sin and cos of -7.440786129085082e-16 *)
  host_sin h (-0x1.acee9f37bebd6p-51) = -0x1.acee9f37bebd6p-51 /\
  host_cos h (-0x1.acee9f37bebd6p-51) = 1 /\
  (* atan2 (-6.943146961436347e-16, 0.0007848060723171235)
     = -8.846958766433662e-13 *)
  host_atan2 h (-0x1.903ec398d8efap-51) 0x1.9b76e3507ec00p-11
  = -0x1.f20a1cd6c9876p-41.

(** A host to run the examples with: it returns the values of
    [nearPoleValues] and of [sampleValues] at their arguments and the sine
    of the default azimuth error, and it follows [specialCases]; elsewhere
    it takes sin x = x, cos x = 1, asin x = x and atan2 (y, x) = y, and of
    the powers it knows the square. *)
Definition tabulated (table : list (float * float)) (otherwise x : float)
  : float :=
  match find (fun entry => fst entry =? x) table with
  | Some entry => snd entry
  | None => otherwise
  end.

Definition sines : list (float * float) :=
  [ (0x1.91fb55aa443c3p+0, 0x1.fffffad4f8ff0p-1);
    (0x1.22fcd724a7f0cp-11, 0x1.22fcd62a03c93p-11);
    (0x1.77d33d699f09fp-2, 0x1.6f71c715a36eep-2);
    (0x1.9b76e61522c1fp-11, 0x1.9b76e3507ee1ep-11);
    (0x1.78a0f8dca99b4p-2, 0x1.7031c790b32e7p-2);
    (0x1.1df46a2529d39p-7, 0x1.1df37c4954c21p-7) ].

Definition cosines : list (float * float) :=
  [ (0x1.91fb55aa443c3p+0, 0x1.22fccefa068e5p-11);
    (0x1.22fcd724a7f0cp-11, 0x1.fffffad4f8bdap-1);
    (0x1.77d33d699f09fp-2, 0x1.dde6dd5f4b984p-1);
    (0x1.9b76e61522c1fp-11, 0x1.fffff5aaa410ep-1);
    (0x1.78a0f8dca99b4p-2, 0x1.ddc1ea5527330p-1) ].

Definition arcsines : list (float * float) :=
  [ (0x1.7031c790b32e7p-2, 0x1.78a0f8dca99b4p-2) ].

Definition tabulatedHost : HostMath :=
  {| host_sin := fun x => if JS.isNaN x then nan else tabulated sines x x;
     host_cos := fun x => if JS.isNaN x then nan else tabulated cosines 1 x;
     host_asin := fun x =>
       if JS.isNaN x || (1 <? x) || (x <? -1) then nan
       else tabulated arcsines x x;
     host_atan2 := fun y x =>
       if JS.isNaN y || JS.isNaN x then nan
       else if (y =? -0x1.903ec398d8efap-51) && (x =? 0x1.9b76e3507ec00p-11)
       then -0x1.f20a1cd6c9876p-41
       else y;
     host_pow := fun x y => if y =? 2 then x * x else nan |}.

(** The two requests the examples are about: an observer 3.54 km from the
    pole looking due north over 3.536 km, and the sample request of the map
    viewer.  [validateInput] accepts both. *)
Definition nearPole : TargetInput :=
  {| observerLat := 89.9682; observerLon := 0; azimuth := 0;
     distance := 3.536 |}.

Definition sampleRequest : TargetInput :=
  {| observerLat := 21.028511; observerLon := 105.804817; azimuth := 0;
     distance := 5 |}.

Close Scope float_scope.

(** Evaluates the closed argument of a call of the host [h]. *)
Ltac host_argument h :=
  match goal with
  | |- context [host_sin h ?a] =>
      lazymatch a with context [h] => fail | _ => progress (evaluate a) end
  | |- context [host_cos h ?a] =>
      lazymatch a with context [h] => fail | _ => progress (evaluate a) end
  | |- context [host_asin h ?a] =>
      lazymatch a with context [h] => fail | _ => progress (evaluate a) end
  | |- context [host_atan2 h ?a _] =>
      lazymatch a with context [h] => fail | _ => progress (evaluate a) end
  | |- context [host_atan2 h _ ?a] =>
      lazymatch a with context [h] => fail | _ => progress (evaluate a) end
  end.

(** * Properties *)

(** ** Validation and the calculation gate (binary64) *)

Section Validation.
Local Open Scope float_scope.

(** A distance above 100 is not caught by the [distance <= 0] check. *)
Lemma above_100_is_positive (x : float) :
  (100 <? x) = true -> (x <=? 0) = false.
Proof.
  rewrite ltb_spec, leb_spec. unfold SFltb, SFleb.
  destruct (Prim2SF x) as [s | s | | s m e]; try destruct s; cbn;
    intros H; solve [ discriminate H | reflexivity ].
Qed.

Lemma validateInput_unfold (d : ValidationData) :
  validateInput d =
    if latitudeOutOfRange d then latitudeMessage
    else if longitudeOutOfRange d then longitudeMessage
    else if bearingOutOfRange d then azimuthMessage
    else if distanceNotPositive d then distanceMessage
    else if distanceOver100 d then warningMessage
    else if anyNotANumber d then nanMessage
    else EmptyString.
Proof. reflexivity. Qed.

Lemma validateInput_warning (d : ValidationData) :
  latitudeOutOfRange d = false ->
  longitudeOutOfRange d = false ->
  bearingOutOfRange d = false ->
  distanceOver100 d = true ->
  validateInput d = warningMessage.
Proof.
  intros Hlat Hlon Haz Hd. rewrite validateInput_unfold, Hlat, Hlon, Haz, Hd.
  unfold distanceNotPositive. now rewrite (above_100_is_positive _ Hd).
Qed.

(** C7.  [validateInput] applies the rules of the specification in the order
    latitude range, longitude range, bearing range, distance <= 0,
    distance > 100, not-a-number, and the first rule that fires decides the
    diagnostic; in particular an input whose latitude and longitude are both
    out of range gets the latitude diagnostic.  (Out of range is what the
    comparisons of the source decide: a NaN is outside no range and is only
    caught by the last rule.) *)
Theorem validateInput_precedence (d : ValidationData) :
  validateInput d = firstFailing specRules d /\
  (latitudeOutOfRange d = true -> longitudeOutOfRange d = true ->
   validateInput d = latitudeMessage).
Proof.
  split.
  - rewrite validateInput_unfold. cbn [firstFailing specRules]. reflexivity.
  - intros Hlat _. now rewrite validateInput_unfold, Hlat.
Qed.

Lemma validateInput_precedence_witness :
  let d := {| data_lat := 95; data_lon := 200;
              data_azimuth := 45; data_distance := 2.5 |} in
  latitudeOutOfRange d = true /\ longitudeOutOfRange d = true /\
  validateInput d = latitudeMessage.
Proof.
  cbv zeta. split; [reflexivity | split; [reflexivity | ]].
  apply (proj2 (validateInput_precedence _)); reflexivity.
Defined.

(** C1.  What the code does with a request that passes the four range checks
    and whose distance exceeds 100 km: validation returns the accuracy
    warning, and because [calculateTarget] treats every non-empty diagnostic
    as an error it returns a failure carrying that warning and computes
    nothing.  The claim that the calculation still succeeds does not hold of
    the code. *)
Theorem calculateTarget_warning_blocks (host : HostMath) (input : TargetInput) :
  latitudeOutOfRange (validationData input) = false ->
  longitudeOutOfRange (validationData input) = false ->
  bearingOutOfRange (validationData input) = false ->
  (100 <? distance input) = true ->
  validateInput (validationData input) = warningMessage /\
  calculateTarget host input = Failure warningMessage /\
  success (calculateTarget host input) = false.
Proof.
  intros Hlat Hlon Haz Hd.
  assert (Hv : validateInput (validationData input) = warningMessage)
    by now apply validateInput_warning.
  assert (Hc : calculateTarget host input = Failure warningMessage).
  { unfold calculateTarget. now rewrite Hv. }
  now rewrite Hc.
Qed.

Lemma calculateTarget_warning_blocks_witness :
  let input := {| observerLat := 10.762622; observerLon := 106.660172;
                  azimuth := 45; distance := 150 |} in
  (latitudeOutOfRange (validationData input) = false /\
   longitudeOutOfRange (validationData input) = false /\
   bearingOutOfRange (validationData input) = false /\
   (100 <? distance input) = true) /\
  validateInput (validationData input) = warningMessage /\
  calculateTarget sampleHost input = Failure warningMessage /\
  success (calculateTarget sampleHost input) = false.
Proof.
  cbv zeta. split.
  - repeat split; reflexivity.
  - apply calculateTarget_warning_blocks; reflexivity.
Defined.

End Validation.

(** ** Degrees, minutes, seconds (binary64) *)

Section Conversion.
Local Open Scope float_scope.

(** C2.  [decimalToDMS] rounds the seconds to two decimals and does not carry:
    at 0.9999999 the seconds are 59.99964, they round to 60.00, and the
    function returns 0 degrees 59 minutes 60 seconds, a triple that the
    module's own [validateDMS] rejects.  The claim that seconds are never
    60.00 does not hold of the code. *)
Theorem decimalToDMS_emits_60_seconds :
  decimalToDMS 0.9999999 = {| degrees := 0; minutes := 59; seconds := 60 |} /\
  validateDMS 0 59 60 "lat" = "Giây phải trong khoảng 0-59.99"%string.
Proof. split; vm_compute; reflexivity. Qed.

(** C5.  The round trip through [dmsToDecimal] and [decimalToDMS] does not
    reproduce 1 degree 1 minute 0 seconds: 1 + 1/60 is rounded below its exact
    value, the minutes come out as 0, the seconds 59.9999999999998 round to
    60.00 and nothing carries, so the triple returned is (1, 0, 60).  The same
    happens to seconds from 59.995 on, as in (0, 59, 59.999). *)
Theorem dms_round_trip_fails :
  decimalToDMS (dmsToDecimal 1 1 0)
    = {| degrees := 1; minutes := 0; seconds := 60 |} /\
  decimalToDMS (dmsToDecimal 0 59 59.999)
    = {| degrees := 0; minutes := 59; seconds := 60 |}.
Proof. split; vm_compute; reflexivity. Qed.

(** The example of the source's documentation: 10.762622 is 10 degrees
    45 minutes 45.44 seconds. *)
Theorem decimalToDMS_documented_example :
  decimalToDMS 10.762622
  = {| degrees := 10; minutes := 45; seconds := 45.44 |}.
Proof. vm_compute. reflexivity. Qed.
End Conversion.

(** ** binary64: signs, zeros and overflow *)

Section FloatSigns.
Local Open Scope float_scope.

(** Rounding to nearest even does not look at the sign. *)
Lemma SFopp_round_aux (s : bool) (m e : Z) (l : location) :
  SFopp (binary_round_aux prec emax s m e l)
  = binary_round_aux prec emax (negb s) m e l.
Proof.
  unfold binary_round_aux.
  destruct (shr_fexp prec emax m e l) as [mrs' e'].
  destruct (shr_fexp prec emax _ e' loc_Exact) as [mrs'' e''].
  destruct (shr_m mrs''); try reflexivity.
  destruct (e'' <=? emax - prec)%Z; reflexivity.
Qed.

Lemma SFopp_round (s : bool) (m : positive) (e : Z) :
  SFopp (binary_round prec emax s m e) = binary_round prec emax (negb s) m e.
Proof.
  unfold binary_round.
  destruct (shl_align m e _) as [mz ez]. apply SFopp_round_aux.
Qed.

Lemma SFopp_normalize (z e : Z) :
  z <> 0%Z ->
  SFopp (binary_normalize prec emax z e false)
  = binary_normalize prec emax (- z) e false.
Proof.
  intros Hz.
  destruct z as [ | p | p]; [contradiction | | ];
    cbn [Z.opp binary_normalize]; apply SFopp_round.
Qed.

Lemma float_mul_comm (x y : float) : x * y = y * x.
Proof.
  apply Prim2SF_inj. rewrite !mul_spec. unfold SF64mul, SFmul.
  destruct (Prim2SF x) as [sx | sx | | sx mx ex];
    destruct (Prim2SF y) as [sy | sy | | sy my ey];
    rewrite ?(xorb_comm sy sx); try reflexivity.
  now rewrite Pos.mul_comm, Z.add_comm.
Qed.

Lemma float_opp_involutive (x : float) : - - x = x.
Proof.
  apply Prim2SF_inj. rewrite !opp_spec.
  destruct (Prim2SF x) as [s | s | | s m e]; cbn; now rewrite ?negb_involutive.
Qed.

Lemma float_mul_opp_l (x y : float) : (- x) * y = - (x * y).
Proof.
  apply Prim2SF_inj. rewrite opp_spec, !mul_spec, opp_spec.
  unfold SF64mul, SFmul.
  destruct (Prim2SF x) as [sx | sx | | sx mx ex];
    destruct (Prim2SF y) as [sy | sy | | sy my ey]; cbn [SFopp];
    rewrite ?SFopp_round_aux, ?negb_xorb_l; reflexivity.
Qed.

Lemma float_mul_opp_r (x y : float) : x * (- y) = - (x * y).
Proof. now rewrite float_mul_comm, float_mul_opp_l, float_mul_comm. Qed.

Lemma float_mul_opp_opp (x y : float) : (- x) * (- y) = x * y.
Proof. now rewrite float_mul_opp_l, float_mul_opp_r, float_opp_involutive. Qed.

Lemma float_div_opp_l (x y : float) : (- x) / y = - (x / y).
Proof.
  apply Prim2SF_inj. rewrite opp_spec, !div_spec, opp_spec.
  unfold SF64div, SFdiv.
  destruct (Prim2SF x) as [sx | sx | | sx mx ex];
    destruct (Prim2SF y) as [sy | sy | | sy my ey]; cbn [SFopp];
    rewrite ?negb_xorb_l; try reflexivity.
  destruct (SFdiv_core_binary prec emax (Z.pos mx) ex (Z.pos my) ey)
    as [[mz ez] lz].
  now rewrite SFopp_round_aux, negb_xorb_l.
Qed.

(** Swapping the operands of a subtraction negates the result, except that
    the difference of two equal numbers is +0 both ways. *)
Lemma float_sub_swap (x y : float) : y - x = - (x - y) \/ y - x = x - y.
Proof.
  assert (H : Prim2SF (y - x) = SFopp (Prim2SF (x - y))
              \/ Prim2SF (y - x) = Prim2SF (x - y)).
  { rewrite !sub_spec. unfold SF64sub, SFsub.
    destruct (Prim2SF x) as [sx | sx | | sx mx ex];
      destruct (Prim2SF y) as [sy | sy | | sy my ey];
      try solve [ repeat match goal with b : bool |- _ => destruct b end;
                  cbn; auto ].
    rewrite (Z.min_comm ey ex).
    set (a := cond_Zopp sx (Z.pos (fst (shl_align mx ex (Z.min ex ey))))).
    set (b := cond_Zopp sy (Z.pos (fst (shl_align my ey (Z.min ex ey))))).
    destruct (Z.eq_dec (a - b) 0) as [E | E].
    - right. replace (b - a)%Z with 0%Z by lia. now rewrite E.
    - left. rewrite SFopp_normalize by assumption. f_equal. lia. }
  destruct H as [H | H]; [left | right]; apply Prim2SF_inj;
    now rewrite ?opp_spec.
Qed.

Lemma float_sub_diag (x : float) : JS.isFinite x = true -> x - x = 0.
Proof.
  unfold JS.isFinite. intros Hx. apply Prim2SF_inj. rewrite sub_spec.
  unfold SF64sub, SFsub.
  destruct (Prim2SF x) as [s | s | | s m e]; try discriminate.
  - now destruct s.
  - now rewrite Z.sub_diag.
Qed.

Lemma float_mul_zero_r (x : float) :
  JS.isFinite x = true -> x * 0 = 0 \/ x * 0 = -0.
Proof.
  unfold JS.isFinite. intros Hx.
  assert (H : Prim2SF (x * 0) = Prim2SF 0 \/ Prim2SF (x * 0) = Prim2SF (-0)).
  { rewrite mul_spec. unfold SF64mul, SFmul.
    destruct (Prim2SF x) as [s | s | | s m e]; try discriminate;
      destruct s; cbn; auto. }
  destruct H as [H | H]; [left | right]; now apply Prim2SF_inj.
Qed.
End FloatSigns.

Section FloatOverflow.
Local Open Scope Z_scope.

Lemma Zdigits2_log2 (m : Z) : 0 < m -> Zdigits2 m = Z.log2 m + 1.
Proof.
  assert (Hsize : forall p, digits2_pos p = Pos.size p)
    by (induction p; cbn; now rewrite ?IHp).
  destruct m as [ | p | p]; try lia. intros _. cbn [Zdigits2].
  destruct p as [p | p | ]; cbn [digits2_pos Z.log2]; try reflexivity;
    rewrite Hsize; lia.
Qed.

Lemma Zdigits2_nonneg (m : Z) : 0 <= Zdigits2 m.
Proof. destruct m; cbn; lia. Qed.

Lemma Zdigits2_mul (a b : positive) :
  Zdigits2 (Zpos (a * b)) <= Zdigits2 (Zpos a) + Zdigits2 (Zpos b).
Proof.
  rewrite !Zdigits2_log2 by lia. rewrite Pos2Z.inj_mul.
  pose proof (Z.log2_mul_above (Zpos a) (Zpos b) ltac:(lia) ltac:(lia)). lia.
Qed.

Lemma Zdigits2_succ (m : Z) : 0 <= m -> Zdigits2 (m + 1) <= Zdigits2 m + 1.
Proof.
  intros Hm. destruct (Z.eq_dec m 0) as [-> | Hn]; [cbn; lia | ].
  rewrite !Zdigits2_log2 by lia.
  pose proof (Z.log2_succ_le m). unfold Z.succ in *. lia.
Qed.

Lemma shr_1_spec (s : shr_record) :
  0 <= shr_m s ->
  0 <= shr_m (shr_1 s) /\
  Zdigits2 (shr_m (shr_1 s)) = Z.max 0 (Zdigits2 (shr_m s) - 1).
Proof.
  destruct s as [m r b]. cbn [shr_m]. intros Hm.
  destruct m as [ | p | p]; [cbn; lia | | lia].
  destruct p; cbn [shr_1 shr_m Zdigits2 digits2_pos orb];
    rewrite ?Pos2Z.inj_succ; lia.
Qed.

Lemma iter_shr_1_spec (p : positive) (s : shr_record) :
  0 <= shr_m s ->
  0 <= shr_m (SpecFloat.iter_pos shr_1 p s) /\
  Zdigits2 (shr_m (SpecFloat.iter_pos shr_1 p s))
  = Z.max 0 (Zdigits2 (shr_m s) - Zpos p).
Proof.
  revert s.
  induction p as [p IH | p IH | ]; intros s Hs; cbn [SpecFloat.iter_pos].
  - destruct (shr_1_spec s Hs) as [H1 D1].
    destruct (IH _ H1) as [H2 D2]. destruct (IH _ H2) as [H3 D3].
    split; [assumption | ]. rewrite D3, D2, D1. lia.
  - destruct (IH _ Hs) as [H2 D2]. destruct (IH _ H2) as [H3 D3].
    split; [assumption | ]. rewrite D3, D2. lia.
  - apply shr_1_spec, Hs.
Qed.

Lemma shr_record_of_loc_m (m : Z) (l : location) :
  shr_m (shr_record_of_loc m l) = m.
Proof. destruct l as [ | []]; reflexivity. Qed.

Lemma shr_fexp_spec (m e : Z) (l : location) :
  0 <= m ->
  let '(mrs, e') := shr_fexp prec emax m e l in
  0 <= shr_m mrs /\
  e' <= Z.max e (Z.max (Zdigits2 m + e - prec) emin) /\
  Zdigits2 (shr_m mrs) + e' <= Z.max (Zdigits2 m + e) emin.
Proof.
  intros Hm. unfold shr_fexp, shr, SpecFloat.fexp.
  change IntDef.Z.max with Z.max. change IntDef.Z.sub with Z.sub.
  change IntDef.Z.add with Z.add.
  pose proof (Zdigits2_nonneg m) as Hd.
  destruct (Z.max (Zdigits2 m + e - prec) emin - e) as [ | p | p] eqn:E.
  - rewrite shr_record_of_loc_m. lia.
  - pose proof (iter_shr_1_spec p (shr_record_of_loc m l)) as H.
    rewrite shr_record_of_loc_m in H. destruct (H Hm) as [H1 H2].
    rewrite H2. unfold prec in *. lia.
  - rewrite shr_record_of_loc_m. lia.
Qed.

Lemma round_nearest_even_spec (m : Z) (l : location) :
  0 <= m ->
  0 <= round_nearest_even m l /\
  Zdigits2 (round_nearest_even m l) <= Zdigits2 m + 1.
Proof.
  intros Hm. pose proof (Zdigits2_succ m Hm).
  destruct l as [ | []]; cbn [round_nearest_even]; try destruct (Z.even m);
    change IntDef.Z.add with Z.add; lia.
Qed.

(** Rounding a non-negative integer mantissa whose value is below 2^900
    never overflows. *)
Lemma binary_round_aux_finite (s : bool) (m e : Z) (l : location) :
  0 <= m -> Zdigits2 m + e <= 900 ->
  JS.sf_finite (binary_round_aux prec emax s m e l) = true.
Proof.
  intros Hm Hb. unfold binary_round_aux.
  pose proof (shr_fexp_spec m e l Hm) as H1.
  destruct (shr_fexp prec emax m e l) as [mrs' e'].
  destruct H1 as [N1 [E1 D1]].
  destruct (round_nearest_even_spec (shr_m mrs') (loc_of_shr_record mrs') N1)
    as [N2 D2].
  pose proof (shr_fexp_spec _ e' loc_Exact N2) as H2.
  destruct (shr_fexp prec emax _ e' loc_Exact) as [mrs'' e''].
  destruct H2 as [N3 [E3 D3]].
  destruct (shr_m mrs'') as [ | q | q]; [reflexivity | | lia].
  pose proof (Zdigits2_nonneg m). pose proof (Zdigits2_nonneg (shr_m mrs')).
  assert (He : e'' <= emax - prec)
    by (unfold SpecFloat.emin, emax, prec in *; lia).
  apply Z.leb_le in He. change IntDef.Z.sub with Z.sub. now rewrite He.
Qed.

Lemma valid_digits (s : bool) (m : positive) (e : Z) :
  valid_binary (S754_finite s m e) = true -> Zpos (digits2_pos m) <= 53.
Proof.
  intros H. apply andb_true_iff in H. destruct H as [H _].
  apply Z.eqb_eq in H. cbv [SpecFloat.fexp prec] in H.
  change IntDef.Z.max with Z.max in H.
  change IntDef.Z.sub with Z.sub in H.
  lia.
Qed.

Lemma le_one_shape (x : float) :
  (PrimFloat.abs x <=? 1)%float = true ->
  match Prim2SF x with
  | S754_zero _ => True
  | S754_finite _ m e => Zpos (digits2_pos m) <= 53 /\ e <= -52
  | _ => False
  end.
Proof.
  rewrite leb_spec, abs_spec. pose proof (Prim2SF_valid x) as Hv.
  replace (Prim2SF 1) with (S754_finite false 4503599627370496 (-52))
    by (vm_compute; reflexivity).
  destruct (Prim2SF x) as [s | s | | s m e]; cbn [SFabs SFleb SFcompare];
    intros H; try discriminate H; [exact I | ].
  split; [exact (valid_digits s m e Hv) | ].
  destruct (Z.compare_spec e (-52)) as [E | E | E];
    solve [lia | discriminate H].
Qed.

(** The product of two numbers of magnitude at most 1 does not overflow. *)
Lemma mul_le_one_finite (x y : float) :
  (PrimFloat.abs x <=? 1)%float = true -> (PrimFloat.abs y <=? 1)%float = true ->
  JS.isFinite (x * y)%float = true.
Proof.
  intros Hx Hy. apply le_one_shape in Hx. apply le_one_shape in Hy.
  unfold JS.isFinite. rewrite mul_spec. unfold SF64mul, SFmul.
  destruct (Prim2SF x) as [sx | sx | | sx mx ex]; try contradiction;
    destruct (Prim2SF y) as [sy | sy | | sy my ey]; try contradiction;
    try reflexivity.
  apply binary_round_aux_finite; [lia | ].
  pose proof (Zdigits2_mul mx my) as Hd. cbn [Zdigits2] in *.
  change IntDef.Z.add with Z.add. lia.
Qed.
End FloatOverflow.

(** ** binary64: the geodesic functions under assumptions on the host *)

Section HostedGeodesy.
Local Open Scope float_scope.
Variable h : HostMath.

Lemma half_sine_opp (u k two : float) :
  (forall x, host_sin h (- x) = - host_sin h x) ->
  host_sin h ((- u) * k / two) = - host_sin h (u * k / two).
Proof. intros Hodd. now rewrite float_mul_opp_l, float_div_opp_l, Hodd. Qed.

Lemma half_sine_square (u v k two : float) :
  (forall x, host_sin h (- x) = - host_sin h x) ->
  v = - u \/ v = u ->
  host_sin h (v * k / two) * host_sin h (v * k / two)
  = host_sin h (u * k / two) * host_sin h (u * k / two).
Proof.
  intros Hodd [-> | ->]; [ | reflexivity].
  now rewrite half_sine_opp, float_mul_opp_opp.
Qed.

Lemma weighted_half_sine_square (P u v k two : float) :
  (forall x, host_sin h (- x) = - host_sin h x) ->
  v = - u \/ v = u ->
  P * host_sin h (v * k / two) * host_sin h (v * k / two)
  = P * host_sin h (u * k / two) * host_sin h (u * k / two).
Proof.
  intros Hodd [-> | ->]; [ | reflexivity].
  now rewrite half_sine_opp, !float_mul_opp_r, !float_mul_opp_l,
    float_opp_involutive.
Qed.

(** On binary64 [calculateDistance] is symmetric, bit for bit, as soon as the
    host's sine is an odd function. *)
Lemma calculateDistance_symmetric_binary64 (lat1 lon1 lat2 lon2 : float) :
  (forall x, host_sin h (- x) = - host_sin h x) ->
  calculateDistance (Binary64 h) lat1 lon1 lat2 lon2
  = calculateDistance (Binary64 h) lat2 lon2 lat1 lon1.
Proof.
  intros Hodd. unfold calculateDistance.
  cbn [Binary64 nadd nsub nmul ndiv Math_sin Math_cos Math_sqrt Math_atan2].
  rewrite (half_sine_square (lat2 - lat1) (lat1 - lat2))
    by (assumption || apply float_sub_swap).
  rewrite (weighted_half_sine_square _ (lon2 - lon1) (lon1 - lon2))
    by (assumption || apply float_sub_swap).
  rewrite (float_mul_comm (host_cos h (lat2 * _)) (host_cos h (lat1 * _))).
  reflexivity.
Qed.
End HostedGeodesy.

Section HostedExamples.
Local Open Scope float_scope.

(** On binary64, with the values ECMAScript prescribes at +0, an observer at
    (0, 180) looking due north over the smallest positive distance gets the
    target (0, -180): the observer's longitude 180 is normalized to -180. *)
Theorem antimeridian_binary64 (h : HostMath) :
  host_sin h 0 = 0 -> host_cos h 0 = 1 -> host_asin h 0 = 0 ->
  host_atan2 h 0 1 = 0 ->
  calculateTargetCoordinate (Binary64 h) 0 180 0 0x1p-1074
  = {| lat := 0; lon := -180 |}.
Proof.
  intros Hsin Hcos Hasin Hatan2.
  unfold calculateTargetCoordinate, DEG_TO_RAD, RAD_TO_DEG, EARTH_RADIUS_KM.
  cbn [Binary64 lit Math_PI nadd nsub nmul ndiv nrem Math_sin Math_cos
       Math_asin Math_sqrt Math_atan2 Math_pow].
  evaluate (0 * (JS.Math_PI / JS.literal 180)).
  evaluate (0x1p-1074 / JS.literal 6371.0).
  rewrite Hsin, Hcos.
  evaluate (0 * 1 + 1 * 0 * 1).
  rewrite Hasin, Hsin.
  evaluate (0 * 0 * 1). evaluate (1 - 0 * 0).
  rewrite Hatan2.
  f_equal; vm_compute; reflexivity.
Qed.

Lemma antimeridian_binary64_witness :
  (host_sin sampleHost 0 = 0 /\ host_cos sampleHost 0 = 1 /\
   host_asin sampleHost 0 = 0 /\ host_atan2 sampleHost 0 1 = 0) /\
  calculateTargetCoordinate (Binary64 sampleHost) 0 180 0 0x1p-1074
  = {| lat := 0; lon := -180 |}.
Proof.
  split; [repeat split; reflexivity | ].
  apply (antimeridian_binary64 sampleHost); reflexivity.
Defined.
End HostedExamples.

(** ** Integer parts of real numbers *)

Section IntegerParts.
Local Open Scope R_scope.

Lemma Int_part_bounds (r : R) : IZR (Int_part r) <= r < IZR (Int_part r) + 1.
Proof. destruct (base_Int_part r). lra. Qed.
End IntegerParts.

(** ** binary64: comparisons and NaN *)

Section FloatOrder.
Local Open Scope float_scope.

Lemma SFcompare_swap (x y : spec_float) :
  SFcompare y x = option_map CompOpp (SFcompare x y).
Proof.
  destruct x as [sx | sx | | sx mx ex]; destruct y as [sy | sy | | sy my ey];
    try solve [ repeat match goal with b : bool |- _ => destruct b end;
                reflexivity ].
  cbn [SFcompare option_map].
  destruct sx, sy; try reflexivity;
    rewrite (Z.compare_antisym ex ey);
    destruct (ex ?= ey)%Z; cbn [CompOpp]; try reflexivity;
    change (Pcompare my mx Eq) with (my ?= mx)%positive;
    change (Pcompare mx my Eq) with (mx ?= my)%positive;
    rewrite (Pos.compare_antisym mx my); try reflexivity;
    now rewrite CompOpp_involutive.
Qed.

Lemma SFcompare_nan (x y : spec_float) :
  SFcompare x y = None <-> x = S754_nan \/ y = S754_nan.
Proof.
  destruct x as [sx | sx | | sx mx ex]; destruct y as [sy | sy | | sy my ey];
    cbn; split; intros H; try discriminate; auto;
    destruct H as [H | H]; discriminate.
Qed.

Lemma isNaN_spec (x : float) : JS.isNaN x = true <-> Prim2SF x = S754_nan.
Proof.
  unfold JS.isNaN, is_nan. rewrite FloatAxioms.eqb_spec. unfold SFeqb.
  destruct (Prim2SF x) as [s | s | | s m e]; cbn [SFcompare];
    try (destruct s); cbn [negb];
    rewrite ?Z.compare_refl; cbn [negb];
    try change (Pcompare m m Eq) with (m ?= m)%positive;
    rewrite ?Pos.compare_refl; cbn [CompOpp negb];
    split; intros H; congruence.
Qed.

(** For numbers, [x < y] fails exactly when [y <= x]. *)
Lemma ltb_false_leb (x y : float) :
  JS.isNaN x = false -> JS.isNaN y = false ->
  (x <? y) = negb (y <=? x).
Proof.
  intros Hx Hy. rewrite ltb_spec, leb_spec. unfold SFltb, SFleb.
  rewrite (SFcompare_swap (Prim2SF x) (Prim2SF y)).
  destruct (SFcompare (Prim2SF x) (Prim2SF y)) as [[ | | ] | ] eqn:E;
    try reflexivity.
  apply SFcompare_nan in E. rewrite <- !isNaN_spec in E.
  destruct E; congruence.
Qed.

Lemma leb_not_nan (x y : float) :
  (x <=? y) = true -> JS.isNaN x = false /\ JS.isNaN y = false.
Proof.
  rewrite leb_spec. unfold SFleb. intros H.
  split; apply not_true_is_false; intros N; apply isNaN_spec in N;
    rewrite N in H; [ | destruct (Prim2SF x)]; discriminate.
Qed.

Lemma ltb_not_nan (x y : float) :
  (x <? y) = true -> JS.isNaN x = false /\ JS.isNaN y = false.
Proof.
  rewrite ltb_spec. unfold SFltb. intros H.
  split; apply not_true_is_false; intros N; apply isNaN_spec in N;
    rewrite N in H; [ | destruct (Prim2SF x)]; discriminate.
Qed.

Lemma ltb_nan_l (x y : float) : JS.isNaN x = true -> (x <? y) = false.
Proof.
  intros N. destruct (x <? y) eqn:E; [ | reflexivity].
  apply ltb_not_nan in E. destruct E; congruence.
Qed.

Lemma ltb_nan_r (x y : float) : JS.isNaN y = true -> (x <? y) = false.
Proof.
  intros N. destruct (x <? y) eqn:E; [ | reflexivity].
  apply ltb_not_nan in E. destruct E; congruence.
Qed.

Lemma leb_nan_l (x y : float) : JS.isNaN x = true -> (x <=? y) = false.
Proof.
  intros N. destruct (x <=? y) eqn:E; [ | reflexivity].
  apply leb_not_nan in E. destruct E; congruence.
Qed.

Lemma leb_nan_r (x y : float) : JS.isNaN y = true -> (x <=? y) = false.
Proof.
  intros N. destruct (x <=? y) eqn:E; [ | reflexivity].
  apply leb_not_nan in E. destruct E; congruence.
Qed.

(** [lo <= x <= hi] says that [x] is a number outside neither bound. *)
Lemma between_spec (lo hi x : float) :
  JS.isNaN lo = false -> JS.isNaN hi = false ->
  (lo <=? x) && (x <=? hi) =
  negb ((x <? lo) || (hi <? x)) && negb (JS.isNaN x).
Proof.
  intros Hlo Hhi. destruct (JS.isNaN x) eqn:N.
  - rewrite leb_nan_r by assumption. now rewrite andb_false_r.
  - rewrite (ltb_false_leb x lo), (ltb_false_leb hi x) by assumption.
    rewrite negb_orb, !negb_involutive. now rewrite andb_true_r.
Qed.

End FloatOrder.

(** ** What the validators accept *)

Section Acceptance.
Local Open Scope float_scope.

Lemma positive_spec (hi x : float) :
  JS.isNaN hi = false ->
  (0 <? x) && (x <=? hi) =
  negb (x <=? 0) && negb (hi <? x) && negb (JS.isNaN x).
Proof.
  intros Hhi. destruct (JS.isNaN x) eqn:N.
  - rewrite ltb_nan_r by assumption. now rewrite andb_false_r.
  - rewrite (ltb_false_leb 0 x), (ltb_false_leb hi x) by (assumption || reflexivity).
    rewrite negb_involutive. now rewrite andb_true_r.
Qed.

(** X1.  [validateInput] returns the empty string exactly when the latitude
    is in [-90, 90], the longitude in [-180, 180], the azimuth in [0, 360]
    and the distance in (0, 100]; a NaN fails its comparison, so it is
    rejected as well. *)
Theorem validateInput_accepts (d : ValidationData) :
  validateInput d = EmptyString <->
  (-90 <=? data_lat d) && (data_lat d <=? 90) = true /\
  (-180 <=? data_lon d) && (data_lon d <=? 180) = true /\
  (0 <=? data_azimuth d) && (data_azimuth d <=? 360) = true /\
  (0 <? data_distance d) && (data_distance d <=? 100) = true.
Proof.
  rewrite !between_spec, positive_spec by reflexivity.
  unfold validateInput, LAT_MIN, LAT_MAX, LON_MIN, LON_MAX, AZIMUTH_MIN,
    AZIMUTH_MAX.
  destruct ((data_lat d <? -90) || (90 <? data_lat d));
    [split; [discriminate | intros [H _]; discriminate H] | ].
  destruct ((data_lon d <? -180) || (180 <? data_lon d));
    [split; [discriminate | intros [_ [H _]]; discriminate H] | ].
  destruct ((data_azimuth d <? 0) || (360 <? data_azimuth d));
    [split; [discriminate | intros [_ [_ [H _]]]; discriminate H] | ].
  destruct (data_distance d <=? 0);
    [split; [discriminate | intros [_ [_ [_ H]]]; discriminate H] | ].
  destruct (100 <? data_distance d);
    [split; [discriminate | intros [_ [_ [_ H]]]; discriminate H] | ].
  destruct (JS.isNaN (data_lat d)), (JS.isNaN (data_lon d)),
    (JS.isNaN (data_azimuth d)), (JS.isNaN (data_distance d));
    cbn; split; try discriminate; try tauto; intuition discriminate.
Qed.

Lemma half_open_spec (hi x : float) :
  JS.isNaN hi = false ->
  (0 <=? x) && (x <? hi) =
  negb ((x <? 0) || (hi <=? x)) && negb (JS.isNaN x).
Proof.
  intros Hhi. destruct (JS.isNaN x) eqn:N.
  - rewrite leb_nan_r by assumption. now rewrite andb_false_r.
  - rewrite (ltb_false_leb x 0), (ltb_false_leb x hi) by (assumption || reflexivity).
    rewrite negb_orb, !negb_involutive. now rewrite andb_true_r.
Qed.

Lemma isNaN_abs (x : float) : JS.isNaN (PrimFloat.abs x) = JS.isNaN x.
Proof.
  apply eq_true_iff_eq. rewrite !isNaN_spec, abs_spec.
  destruct (Prim2SF x); cbn; split; congruence.
Qed.

Lemma abs_within (hi x : float) :
  JS.isNaN hi = false ->
  (PrimFloat.abs x <=? hi) = negb (hi <? PrimFloat.abs x) && negb (JS.isNaN x).
Proof.
  intros Hhi. destruct (JS.isNaN x) eqn:N.
  - rewrite leb_nan_l by now rewrite isNaN_abs. now rewrite andb_false_r.
  - rewrite (ltb_false_leb hi (PrimFloat.abs x))
      by (assumption || now rewrite isNaN_abs).
    now rewrite negb_involutive, andb_true_r.
Qed.

(** X2.  [validateDMS] returns the empty string exactly when the degrees are
    not NaN, the minutes and the seconds are in [0, 60) and the magnitude of
    the degrees is at most 90 for the type lat and at most 180 for the type
    lon; for any other type the degrees are not checked. *)
Theorem validateDMS_accepts (deg min sec : float) (type : string) :
  validateDMS deg min sec type = EmptyString <->
  JS.isNaN deg = false /\
  (0 <=? min) && (min <? 60) = true /\
  (0 <=? sec) && (sec <? 60) = true /\
  (type = "lat"%string -> (PrimFloat.abs deg <=? 90) = true) /\
  (type = "lon"%string -> (PrimFloat.abs deg <=? 180) = true).
Proof.
  rewrite !half_open_spec, !abs_within by reflexivity.
  unfold validateDMS.
  destruct (JS.isNaN deg), (JS.isNaN min), (JS.isNaN sec); cbn [orb negb andb];
    try solve [ split; [discriminate | rewrite ?andb_false_r; intuition discriminate] ].
  rewrite !andb_true_r.
  destruct ((min <? 0) || (60 <=? min));
    [split; [discriminate | intuition discriminate] | ].
  destruct ((sec <? 0) || (60 <=? sec));
    [split; [discriminate | intuition discriminate] | ].
  destruct (String.eqb_spec type "lat") as [-> | Hlat].
  - destruct (90 <? PrimFloat.abs deg); cbn [negb];
      split; try discriminate; intuition discriminate.
  - destruct (String.eqb_spec type "lon") as [-> | Hlon].
    + destruct (180 <? PrimFloat.abs deg); cbn [negb];
        split; try discriminate; intuition discriminate.
    + split; [ | reflexivity]. intros _. repeat split; try reflexivity;
        intros E; contradiction.
Qed.
End Acceptance.

(** ** Conversion and the sign of a coordinate *)

Section Hemispheres.
Local Open Scope float_scope.

Lemma float_abs_opp (x : float) : PrimFloat.abs (- x) = PrimFloat.abs x.
Proof.
  apply Prim2SF_inj. rewrite !abs_spec, opp_spec.
  now destruct (Prim2SF x).
Qed.

Lemma ltb_opp_zero (x : float) : (- x <? 0) = (0 <? x).
Proof.
  rewrite !ltb_spec, opp_spec. unfold SFltb.
  change (Prim2SF 0) with (S754_zero false).
  destruct (Prim2SF x) as [s | s | | s m e]; try destruct s; reflexivity.
Qed.

Lemma ltb_zero_opp (x : float) : (0 <? - x) = (x <? 0).
Proof. now rewrite <- ltb_opp_zero, float_opp_involutive. Qed.

Lemma ltb_zero_asym (x : float) : (0 <? x) = true -> (x <? 0) = false.
Proof.
  rewrite !ltb_spec. unfold SFltb. change (Prim2SF 0) with (S754_zero false).
  destruct (Prim2SF x) as [s | s | | s m e]; try destruct s;
    cbn; congruence.
Qed.

Lemma ltb_zero_asym' (x : float) : (x <? 0) = true -> (0 <? x) = false.
Proof.
  rewrite !ltb_spec. unfold SFltb. change (Prim2SF 0) with (S754_zero false).
  destruct (Prim2SF x) as [s | s | | s m e]; try destruct s;
    cbn; congruence.
Qed.

Lemma SFcompare_opp (x y : spec_float) :
  SFcompare (SFopp x) (SFopp y) = option_map CompOpp (SFcompare x y).
Proof.
  destruct x as [sx | sx | | sx mx ex]; destruct y as [sy | sy | | sy my ey];
    try solve [ repeat match goal with b : bool |- _ => destruct b end;
                reflexivity ].
  cbn [SFcompare SFopp option_map].
  destruct sx, sy; cbn [negb]; try reflexivity;
    destruct (ex ?= ey)%Z; cbn [CompOpp]; try reflexivity.
  now rewrite CompOpp_involutive.
Qed.

Lemma ltb_opp (x y : float) : (- x <? - y) = (y <? x).
Proof.
  rewrite !ltb_spec, !opp_spec. unfold SFltb.
  rewrite SFcompare_opp, (SFcompare_swap (Prim2SF y) (Prim2SF x)).
  destruct (SFcompare (Prim2SF y) (Prim2SF x)) as [[ | | ] | ]; reflexivity.
Qed.

Lemma nonzero_cases (x : float) :
  (0 <? x) || (x <? 0) = true ->
  ((x <? 0) = true /\ (- x <? 0) = false)
  \/ ((x <? 0) = false /\ (- x <? 0) = true).
Proof.
  intros H. apply orb_true_iff in H. destruct H as [H | H].
  - right. split; [now apply ltb_zero_asym | now rewrite ltb_opp_zero].
  - left. split; [assumption | ].
    rewrite ltb_opp_zero. now apply ltb_zero_asym'.
Qed.

Lemma minus_one_mul (x : float) : -1 * x = - (1 * x).
Proof. exact (float_mul_opp_l 1 x). Qed.

(** X5.  Negating degrees that are not zero negates the decimal value
    [dmsToDecimal] returns, bit for bit. *)
Theorem dmsToDecimal_opp (d m s : float) :
  (0 <? d) || (d <? 0) = true ->
  dmsToDecimal (- d) m s = - dmsToDecimal d m s.
Proof.
  intros H. unfold dmsToDecimal. rewrite float_abs_opp.
  destruct (nonzero_cases d H) as [[-> ->] | [-> ->]].
  - now rewrite minus_one_mul, float_opp_involutive.
  - apply minus_one_mul.
Qed.

Lemma dmsToDecimal_opp_witness :
  (0 <? 10) || (10 <? 0) = true /\
  dmsToDecimal (- 10) 45 45.44 = - dmsToDecimal 10 45 45.44.
Proof.
  split; [reflexivity | ]. apply (dmsToDecimal_opp 10 45 45.44). reflexivity.
Defined.

(** X6.  Negating a coordinate that is not zero negates the degrees
    [decimalToDMS] returns and leaves its minutes and seconds as they are. *)
Theorem decimalToDMS_opp (x : float) :
  (0 <? x) || (x <? 0) = true ->
  decimalToDMS (- x) =
  {| degrees := - degrees (decimalToDMS x);
     minutes := minutes (decimalToDMS x);
     seconds := seconds (decimalToDMS x) |}.
Proof.
  intros H. unfold decimalToDMS. cbn [degrees minutes seconds].
  rewrite float_abs_opp.
  destruct (nonzero_cases x H) as [[-> ->] | [-> ->]]; f_equal.
  - now rewrite minus_one_mul, float_opp_involutive.
  - apply minus_one_mul.
Qed.

Lemma decimalToDMS_opp_witness :
  (0 <? 10.762622) || (10.762622 <? 0) = true /\
  decimalToDMS (- 10.762622) =
  {| degrees := - degrees (decimalToDMS 10.762622);
     minutes := minutes (decimalToDMS 10.762622);
     seconds := seconds (decimalToDMS 10.762622) |}.
Proof.
  split; [reflexivity | ]. apply (decimalToDMS_opp 10.762622). reflexivity.
Defined.

Lemma Pcompare_compare (m n : positive) : Pcompare m n Eq = (m ?= n)%positive.
Proof. reflexivity. Qed.

(** [Math.floor] of a number strictly between 0 and 1 is +0. *)
Lemma floor_below_one (a : float) :
  (0 <? a) = true -> (a <? 1) = true -> JS.Math_floor a = 0.
Proof.
  rewrite !ltb_spec. unfold SFltb, JS.Math_floor.
  pose proof (Prim2SF_valid a) as Hv.
  change (Prim2SF 0) with (S754_zero false).
  replace (Prim2SF 1) with (S754_finite false 4503599627370496 (-52))
    by (vm_compute; reflexivity).
  destruct (Prim2SF a) as [s | s | | s m e]; cbn [SFcompare];
    try discriminate; try (destruct s; discriminate).
  destruct s; [discriminate | ]. intros _ H1.
  pose proof (valid_digits false m e Hv) as Hd.
  assert (Hm : (Zpos m < 2 ^ (- e))%Z /\ (e < 0)%Z).
  { assert (Hlt : (Zpos m < 2 ^ Zpos (digits2_pos m))%Z).
    { pose proof (Zdigits2_log2 (Zpos m) ltac:(lia)) as HL. cbn [Zdigits2] in HL.
      rewrite HL. apply Z.log2_lt_pow2; lia. }
    destruct (Z.compare_spec e (-52)) as [E | E | E]; try discriminate H1.
    - subst e. split; [ | reflexivity].
      rewrite Pcompare_compare in H1.
      destruct (Pos.compare_spec m 4503599627370496) as [ | Hc | ];
        try discriminate H1.
      exact (Pos2Z.pos_lt_pos _ _ Hc).
    - split; [ | clear - E; lia].
      apply Z.lt_le_trans with (1 := Hlt). clear - E Hd.
      apply Z.pow_le_mono_r; lia. }
  destruct Hm as [Hm He].
  clear Hv H1 Hd.
  destruct (0 <=? e)%Z eqn:E0; [apply Z.leb_le in E0; lia | ].
  rewrite Z.shiftr_div_pow2 by lia. rewrite Z.div_small by lia.
  reflexivity.
Qed.

(** X7.  A coordinate strictly between -1 and 0 loses its hemisphere:
    [decimalToDMS] returns the degrees -0, which [dmsToDecimal] does not read
    as negative, so the round trip returns the value it returns for the
    mirrored, positive coordinate. *)
Theorem dms_round_trip_drops_sign (x : float) :
  (-1 <? x) = true -> (x <? 0) = true ->
  let there := decimalToDMS x in
  let mirrored := decimalToDMS (- x) in
  degrees there = -0 /\
  dmsToDecimal (degrees there) (minutes there) (seconds there)
  = dmsToDecimal (degrees mirrored) (minutes mirrored) (seconds mirrored).
Proof.
  intros Hlo Hneg there mirrored.
  assert (Hfloor : JS.Math_floor (PrimFloat.abs x) = 0).
  { assert (E : PrimFloat.abs x = - x).
    { apply Prim2SF_inj. rewrite abs_spec, opp_spec.
      rewrite ltb_spec in Hneg. unfold SFltb in Hneg.
      change (Prim2SF 0) with (S754_zero false) in Hneg.
      destruct (Prim2SF x) as [s | s | | s m e]; try destruct s;
        cbn in Hneg; try discriminate; reflexivity. }
    rewrite E. apply floor_below_one.
    - now rewrite ltb_zero_opp.
    - change 1 with (- -1). now rewrite ltb_opp. }
  assert (Hdeg : degrees there = -0).
  { unfold there, decimalToDMS. cbn [degrees]. rewrite Hneg, Hfloor.
    reflexivity. }
  split; [exact Hdeg | ].
  rewrite Hdeg. unfold mirrored, there, decimalToDMS.
  cbn [degrees minutes seconds]. rewrite float_abs_opp, Hfloor.
  rewrite ltb_opp_zero, (ltb_zero_asym' x Hneg).
  reflexivity.
Qed.

Lemma dms_round_trip_drops_sign_witness :
  (-1 <? -0.5) = true /\ (-0.5 <? 0) = true /\
  degrees (decimalToDMS (-0.5)) = -0 /\
  dmsToDecimal (degrees (decimalToDMS (-0.5))) (minutes (decimalToDMS (-0.5)))
    (seconds (decimalToDMS (-0.5)))
  = dmsToDecimal (degrees (decimalToDMS (- -0.5)))
      (minutes (decimalToDMS (- -0.5))) (seconds (decimalToDMS (- -0.5))).
Proof.
  split; [reflexivity | split; [reflexivity | ]].
  apply (dms_round_trip_drops_sign (-0.5)); reflexivity.
Defined.
End Hemispheres.

(** ** The real value of a binary64 number

    The sections that follow relate the operations of the format to the
    real numbers they denote: each operation returns the number of the
    format nearest to the exact result.  First, powers of two. *)

Section Powers.
Local Open Scope R_scope.

Lemma pow2_pos (e : Z) : 0 < pow2 e.
Proof. apply powerRZ_lt. lra. Qed.

Lemma pow2_add (a b : Z) : pow2 (a + b) = pow2 a * pow2 b.
Proof. apply powerRZ_add. lra. Qed.

Lemma pow2_succ (e : Z) : pow2 (e + 1) = 2 * pow2 e.
Proof.
  rewrite pow2_add. replace (pow2 1) with 2 by (unfold pow2; simpl; lra). ring.
Qed.

Lemma pow2_0 : pow2 0 = 1.
Proof. reflexivity. Qed.

Lemma pow2_IZR (k : Z) : (0 <= k)%Z -> pow2 k = IZR (2 ^ k).
Proof.
  intros Hk. unfold pow2. destruct k as [ | p | p]; [reflexivity | | lia].
  cbn [powerRZ]. rewrite pow_IZR. now rewrite positive_nat_Z.
Qed.

Lemma pow2_le (a b : Z) : (a <= b)%Z -> pow2 a <= pow2 b.
Proof.
  intros H. replace b with (a + (b - a))%Z by lia. rewrite pow2_add.
  rewrite (pow2_IZR (b - a)) by lia.
  assert (1 <= IZR (2 ^ (b - a))).
  { apply IZR_le. pose proof (Z.pow_pos_nonneg 2 (b - a)). lia. }
  pose proof (pow2_pos a). nra.
Qed.

Lemma pow2_lt (a b : Z) : (a < b)%Z -> pow2 a < pow2 b.
Proof.
  intros H. replace b with (a + (b - a))%Z by lia. rewrite pow2_add.
  rewrite (pow2_IZR (b - a)) by lia.
  assert (2 <= IZR (2 ^ (b - a))).
  { apply IZR_le. replace (b - a)%Z with (Z.succ (b - a - 1)) by lia.
    rewrite Z.pow_succ_r by lia.
    pose proof (Z.pow_pos_nonneg 2 (b - a - 1)). lia. }
  pose proof (pow2_pos a). nra.
Qed.

(** An integer multiple of a power of two, moved to a smaller exponent. *)
Lemma pow2_shift (M : Z) (a b : Z) :
  (b <= a)%Z -> IZR M * pow2 a = IZR (M * 2 ^ (a - b)) * pow2 b.
Proof.
  intros H. replace a with ((a - b) + b)%Z at 1 by lia.
  rewrite pow2_add, (pow2_IZR (a - b)) by lia. rewrite mult_IZR. ring.
Qed.

Lemma digits_bounds (m : Z) :
  (0 < m)%Z -> (2 ^ (Zdigits2 m - 1) <= m < 2 ^ Zdigits2 m)%Z.
Proof.
  intros Hm. rewrite Zdigits2_log2 by assumption.
  replace (Z.log2 m + 1 - 1)%Z with (Z.log2 m) by lia.
  pose proof (Z.log2_spec m Hm). unfold Z.succ in *. lia.
Qed.

Lemma digits_le (m : Z) (d : Z) :
  (0 <= m)%Z -> (0 <= d)%Z -> (m < 2 ^ d)%Z -> (Zdigits2 m <= d)%Z.
Proof.
  intros Hm Hd H. destruct (Z.eq_dec m 0) as [-> | Hn]; [cbn; lia | ].
  rewrite Zdigits2_log2 by lia.
  pose proof (Z.log2_lt_pow2 m d ltac:(lia)). lia.
Qed.

Lemma digits_ge (m : Z) (d : Z) :
  (0 < d)%Z -> (2 ^ (d - 1) <= m)%Z -> (d <= Zdigits2 m)%Z.
Proof.
  intros Hd H. assert (0 < m)%Z by (pose proof (Z.pow_pos_nonneg 2 (d - 1)); lia).
  rewrite Zdigits2_log2 by lia.
  pose proof (Z.log2_le_pow2 m (d - 1) ltac:(lia)). lia.
Qed.
End Powers.

(** *** Shifting a mantissa keeps track of the discarded bits *)

Section Shifting.
Local Open Scope R_scope.

Lemma loc_of_shr_record_of_loc (m : Z) (l : location) :
  loc_of_shr_record (shr_record_of_loc m l) = l.
Proof. destruct l as [ | []]; reflexivity. Qed.

Lemma IZR_xO (p : positive) : IZR (Zpos p~0) = 2 * IZR (Zpos p).
Proof. rewrite Pos2Z.inj_xO, mult_IZR. reflexivity. Qed.

Lemma IZR_xI (p : positive) : IZR (Zpos p~1) = 2 * IZR (Zpos p) + 1.
Proof. rewrite Pos2Z.inj_xI, plus_IZR, mult_IZR. reflexivity. Qed.

(** One step of the right shift keeps the position of the real number. *)
Lemma shr_1_inbetween (s : shr_record) (e : Z) (v : R) :
  (0 <= shr_m s)%Z ->
  inbetween (shr_m s) e (loc_of_shr_record s) v ->
  inbetween (shr_m (shr_1 s)) (e + 1) (loc_of_shr_record (shr_1 s)) v.
Proof.
  destruct s as [m r b]. cbn [shr_m]. intros Hm.
  pose proof (pow2_pos e) as HP.
  destruct m as [ | [p | p | ] | p]; [ | | | | lia];
    destruct r, b;
    cbn [shr_1 shr_m loc_of_shr_record orb inbetween];
    rewrite ?pow2_succ, ?(IZR_xO p), ?(IZR_xI p);
    set (P := pow2 e) in *; try set (Q := IZR (Zpos p));
    intros H; try split; lra.
Qed.

Lemma iter_shr_1_inbetween (p : positive) (s : shr_record) (e : Z) (v : R) :
  (0 <= shr_m s)%Z ->
  inbetween (shr_m s) e (loc_of_shr_record s) v ->
  inbetween (shr_m (SpecFloat.iter_pos shr_1 p s)) (e + Zpos p)
    (loc_of_shr_record (SpecFloat.iter_pos shr_1 p s)) v.
Proof.
  revert s e.
  induction p as [p IH | p IH | ]; intros s e Hs Hv; cbn [SpecFloat.iter_pos].
  - pose proof (shr_1_inbetween s e v Hs Hv) as H1.
    destruct (shr_1_spec s Hs) as [N1 _].
    pose proof (IH _ _ N1 H1) as H2.
    destruct (iter_shr_1_spec p _ N1) as [N2 _].
    pose proof (IH _ _ N2 H2) as H3.
    replace (e + Zpos p~1)%Z with (e + 1 + Zpos p + Zpos p)%Z by lia.
    exact H3.
  - pose proof (IH _ _ Hs Hv) as H2.
    destruct (iter_shr_1_spec p _ Hs) as [N2 _].
    pose proof (IH _ _ N2 H2) as H3.
    replace (e + Zpos p~0)%Z with (e + Zpos p + Zpos p)%Z by lia.
    exact H3.
  - apply shr_1_inbetween; assumption.
Qed.

(** The first step of rounding: the mantissa is cut to the precision of the
    format and the position of the real number is kept. *)
Lemma shr_fexp_inbetween (m e : Z) (l : location) (v : R) :
  (0 <= m)%Z -> inbetween m e l v ->
  let '(mrs, e') := shr_fexp prec emax m e l in
  inbetween (shr_m mrs) e' (loc_of_shr_record mrs) v /\
  (0 <= shr_m mrs)%Z /\
  e' = Z.max e (Z.max (Zdigits2 m + e - 53) (-1074)) /\
  Zdigits2 (shr_m mrs) = Z.max 0 (Zdigits2 m - (e' - e)) /\
  (e' = e -> shr_m mrs = m).
Proof.
  intros Hm Hv. unfold shr_fexp, shr, SpecFloat.fexp.
  change IntDef.Z.max with Z.max. change IntDef.Z.sub with Z.sub.
  change IntDef.Z.add with Z.add.
  change (SpecFloat.emin prec emax) with (-1074)%Z. change prec with 53%Z.
  pose proof (Zdigits2_nonneg m) as Hd.
  destruct (Z.max (Zdigits2 m + e - 53) (-1074) - e)%Z as [ | p | p] eqn:E.
  - rewrite shr_record_of_loc_m, loc_of_shr_record_of_loc.
    repeat split; try assumption; lia.
  - pose proof (iter_shr_1_spec p (shr_record_of_loc m l)) as H.
    rewrite shr_record_of_loc_m in H. destruct (H Hm) as [H1 H2].
    pose proof (iter_shr_1_inbetween p (shr_record_of_loc m l) e v) as H3.
    rewrite shr_record_of_loc_m, loc_of_shr_record_of_loc in H3.
    repeat split; [exact (H3 Hm Hv) | lia | lia | | lia].
    rewrite H2. lia.
  - rewrite shr_record_of_loc_m, loc_of_shr_record_of_loc.
    repeat split; try assumption; lia.
Qed.
End Shifting.

(** *** Rounding to nearest *)

Section Rounding.
Local Open Scope R_scope.

Lemma representable_0 : representable 0.
Proof. exists 0%Z, 0%Z. repeat split; try lia. lra. Qed.

Lemma representable_opp (g : R) : representable g -> representable (- g).
Proof.
  intros (M & E & -> & HM & HE). exists (- M)%Z, E.
  rewrite opp_IZR. repeat split; try lia. ring.
Qed.

Lemma representable_IZR (n : Z) :
  (Z.abs n < 2 ^ 53)%Z -> representable (IZR n).
Proof.
  intros H. exists n, 0%Z. rewrite pow2_0. repeat split; try lia. ring.
Qed.

Lemma inbetween_bounds (m e : Z) (l : location) (v : R) :
  inbetween m e l v -> IZR m * pow2 e <= v < (IZR m + 1) * pow2 e.
Proof.
  pose proof (pow2_pos e). destruct l as [ | []]; cbn [inbetween]; intros H0;
    lra.
Qed.

(** No number of the format lies strictly between two neighbours of the grid
    of exponent [E], when the grid is the finest one or [M] has all its bits. *)
Lemma grid_gap (M E : Z) (g : R) :
  (0 <= M)%Z -> (-1074 <= E)%Z -> (E = -1074 \/ 2 ^ 52 <= M)%Z ->
  representable g ->
  g <= IZR M * pow2 E \/ (IZR M + 1) * pow2 E <= g.
Proof.
  intros HM HE Hfull (Mg & Eg & -> & HMg & HEg).
  pose proof (pow2_pos E) as HP.
  destruct (Z.le_gt_cases E Eg) as [Hle | Hgt].
  - rewrite (pow2_shift Mg Eg E Hle).
    set (K := (Mg * 2 ^ (Eg - E))%Z).
    destruct (Z.le_gt_cases K M) as [HK | HK].
    + left. apply IZR_le in HK. nra.
    + right. assert (HK' : (M + 1 <= K)%Z) by lia.
      apply IZR_le in HK'. rewrite plus_IZR in HK'. nra.
  - left. destruct Hfull as [-> | Hfull]; [lia | ].
    assert (H1 : IZR Mg <= IZR (2 ^ 53)) by (apply IZR_le; lia).
    assert (H2 : pow2 Eg <= pow2 (E - 1)) by (apply pow2_le; lia).
    assert (H3 : pow2 E = 2 * pow2 (E - 1)).
    { rewrite <- pow2_succ. f_equal. lia. }
    assert (H4 : IZR (2 ^ 52) <= IZR M) by now apply IZR_le.
    pose proof (pow2_pos Eg) as HPg.
    change (2 ^ 53)%Z with 9007199254740992%Z in H1.
    change (2 ^ 52)%Z with 4503599627370496%Z in H4.
    rewrite H3.
    apply Rle_trans with (9007199254740992 * pow2 Eg); [nra | ].
    apply Rle_trans with (9007199254740992 * pow2 (E - 1)); [nra | ].
    pose proof (pow2_pos (E - 1)). nra.
Qed.

(** Rounding to nearest, ties to even, picks a neighbour that no number of
    the format beats. *)
Lemma round_nearest_even_nearest (m e : Z) (l : location) (v : R) :
  (0 <= m)%Z -> (-1074 <= e)%Z -> (e = -1074 \/ 2 ^ 52 <= m)%Z ->
  inbetween m e l v ->
  let m' := round_nearest_even m l in
  (m' = m \/ m' = m + 1)%Z /\
  forall g : R, representable g ->
    Rabs (IZR m' * pow2 e - v) <= Rabs (g - v).
Proof.
  intros Hm He Hfull Hv m'.
  assert (Hm' : (m' = m \/ m' = m + 1)%Z).
  { unfold m'. destruct l as [ | []]; cbn [round_nearest_even];
      try destruct (IntDef.Z.even m); auto. }
  split; [exact Hm' | ]. intros g Hg.
  pose proof (pow2_pos e) as HP.
  destruct (grid_gap m e g Hm He Hfull Hg) as [Hlow | Hhigh];
    unfold m'; destruct l as [ | []]; cbn [round_nearest_even inbetween] in *;
    try destruct (IntDef.Z.even m); rewrite ?plus_IZR;
    unfold Rabs; repeat destruct Rcase_abs; lra.
Qed.
End Rounding.

(** *** The rounding of the format is to nearest *)

Section RoundingCorrect.
Local Open Scope R_scope.

(** The second step of rounding only renormalizes: a carry into bit 53 is
    absorbed by the exponent. *)
Lemma renormalize (m e : Z) :
  (0 <= m <= 2 ^ 53)%Z -> (-1074 <= e)%Z -> (e = -1074 \/ 2 ^ 52 <= m)%Z ->
  let '(mrs, e') := shr_fexp prec emax m e loc_Exact in
  IZR (shr_m mrs) * pow2 e' = IZR m * pow2 e /\
  (0 <= shr_m mrs < 2 ^ 53)%Z /\ (-1074 <= e')%Z /\
  (e' = -1074 \/ 2 ^ 52 <= shr_m mrs)%Z.
Proof.
  intros Hm He Hfull.
  pose proof (shr_fexp_inbetween m e loc_Exact (IZR m * pow2 e)
                ltac:(lia) eq_refl) as H.
  destruct (shr_fexp prec emax m e loc_Exact) as [mrs e'].
  destruct H as (Hv & Hn & He' & Hd & Hsame).
  assert (Hdm : (Zdigits2 m <= 54)%Z).
  { apply digits_le; lia. }
  destruct (Z.le_gt_cases (Zdigits2 m) 53) as [Hsmall | Hbig].
  - assert (E : e' = e) by lia. rewrite (Hsame E), E.
    split; [reflexivity | ]. split; [ | split; [lia | assumption]].
    split; [lia | ].
    destruct (Z.eq_dec m (2 ^ 53)) as [-> | Hn53]; [ | lia].
    vm_compute in Hsmall. now contradiction Hsmall.
  - assert (Em : m = (2 ^ 53)%Z).
    { destruct (Z.eq_dec m (2 ^ 53)) as [ | Hn53]; [assumption | ].
      assert (Zdigits2 m <= 53)%Z by (apply digits_le; lia). lia. }
    assert (Ed : Zdigits2 m = 54%Z) by (subst m; reflexivity).
    assert (E : e' = (e + 1)%Z) by lia.
    apply inbetween_bounds in Hv. rewrite E, pow2_succ in *.
    pose proof (pow2_pos e) as HP.
    assert (E3 : shr_m mrs = (2 ^ 52)%Z).
    { assert (H1 : IZR (shr_m mrs) <= IZR (2 ^ 52)).
      { subst m. change (2 ^ 53)%Z with (2 * 2 ^ 52)%Z in Hv.
        rewrite mult_IZR in Hv. nra. }
      assert (H2 : IZR (2 ^ 52) < IZR (shr_m mrs) + 1).
      { subst m. change (2 ^ 53)%Z with (2 * 2 ^ 52)%Z in Hv.
        rewrite mult_IZR in Hv. nra. }
      apply le_IZR in H1. rewrite <- plus_IZR in H2. apply lt_IZR in H2. lia. }
    rewrite E3, Em. change (2 ^ 53)%Z with (2 * 2 ^ 52)%Z.
    rewrite mult_IZR. split; [ring | ].
    split; [split; [apply Z.pow_nonneg; lia | reflexivity] | ].
    split; [lia | right; lia].
Qed.

Lemma representable_below (hi : R) : representable hi -> hi < pow2 1024.
Proof.
  intros (M & E & -> & HM & HE).
  assert (H1 : IZR M <= IZR (2 ^ 53 - 1)) by (apply IZR_le; lia).
  assert (H2 : pow2 E <= pow2 971) by (apply pow2_le; lia).
  pose proof (pow2_pos E). pose proof (pow2_pos 971).
  replace (pow2 1024) with (IZR (2 ^ 53) * pow2 971).
  2:{ rewrite <- pow2_IZR by lia. rewrite <- pow2_add. reflexivity. }
  assert (H3 : IZR (2 ^ 53 - 1) < IZR (2 ^ 53)) by (apply IZR_lt; lia).
  assert (H4 : 0 <= IZR (2 ^ 53 - 1)) by (apply IZR_le; lia).
  set (T := IZR (2 ^ 53 - 1)) in *. set (T1 := IZR (2 ^ 53)) in *.
  apply Rle_lt_trans with (T * pow2 971); [ | nra].
  destruct (Rle_or_lt 0 (IZR M)).
  - apply Rmult_le_compat; lra.
  - apply Rle_trans with 0; nra.
Qed.

Lemma canonical_shape (m : positive) (e : Z) :
  (Zpos m < 2 ^ 53)%Z -> (-1074 <= e <= 971)%Z ->
  (e = -1074 \/ 2 ^ 52 <= Zpos m)%Z ->
  valid_binary (S754_finite false m e) = true.
Proof.
  intros Hm He Hfull.
  unfold SpecFloat.valid_binary, SpecFloat.bounded, canonical_mantissa,
    SpecFloat.fexp.
  change (SpecFloat.emin prec emax) with (-1074)%Z. change prec with 53%Z.
  change emax with 1024%Z. change IntDef.Z.max with Z.max.
  change (Zpos (digits2_pos m)) with (Zdigits2 (Zpos m)).
  assert (Hd : (Zdigits2 (Zpos m) <= 53)%Z) by (apply digits_le; lia).
  apply andb_true_iff. split; [apply Z.eqb_eq | apply Z.leb_le; lia].
  destruct Hfull as [-> | Hfull]; [lia | ].
  assert (53 <= Zdigits2 (Zpos m))%Z by (apply digits_ge; [lia | exact Hfull]).
  lia.
Qed.

(** The rounding of the arithmetic operations: from an integer mantissa with
    at least the precision of the format and the position of the real number
    [v] beside it, to the number of the format nearest to [v]. *)
Lemma binary_round_aux_correct (s : bool) (m e : Z) (l : location)
    (v hi : R) :
  (0 <= m)%Z -> inbetween m e l v ->
  (e <= Z.max (Zdigits2 m + e - 53) (-1074))%Z ->
  representable hi -> v <= hi ->
  exists A : R,
    valid_binary (binary_round_aux prec emax s m e l) = true /\
    JS.sf_finite (binary_round_aux prec emax s m e l) = true /\
    SF2R (binary_round_aux prec emax s m e l) = (if s then - A else A) /\
    0 <= A /\ rounds_to v A /\
    (A = 0 -> binary_round_aux prec emax s m e l = S754_zero s).
Proof.
  intros Hm Hv Hprec Hhi Hle. unfold binary_round_aux.
  pose proof (shr_fexp_inbetween m e l v Hm Hv) as H1.
  destruct (shr_fexp prec emax m e l) as [mrs1 e1].
  destruct H1 as (Hv1 & Hn1 & He1 & Hd1 & _).
  pose proof (Zdigits2_nonneg m) as Hdm.
  assert (HE : (-1074 <= e1)%Z) by lia.
  assert (Hm1 : (shr_m mrs1 < 2 ^ 53)%Z).
  { destruct (Z.eq_dec (shr_m mrs1) 0) as [-> | Hnz]; [reflexivity | ].
    pose proof (digits_bounds (shr_m mrs1) ltac:(lia)) as Hb.
    apply Z.lt_le_trans with (1 := proj2 Hb).
    apply Z.pow_le_mono_r; lia. }
  assert (Hfull : (e1 = -1074 \/ 2 ^ 52 <= shr_m mrs1)%Z).
  { destruct (Z.le_gt_cases (Zdigits2 m + e - 53) (-1074)) as [Hs | Hs];
      [left; lia | right].
    assert (Hd53 : Zdigits2 (shr_m mrs1) = 53%Z) by lia.
    assert (Hpos : (0 < shr_m mrs1)%Z).
    { destruct (Z.eq_dec (shr_m mrs1) 0) as [E0 | ]; [ | lia].
      rewrite E0 in Hd53. discriminate Hd53. }
    pose proof (digits_bounds (shr_m mrs1) Hpos) as Hb.
    rewrite Hd53 in Hb. exact (proj1 Hb). }
  destruct (round_nearest_even_nearest (shr_m mrs1) e1 (loc_of_shr_record mrs1)
              v Hn1 HE Hfull Hv1) as [Hm2 Hnear].
  set (m2 := round_nearest_even (shr_m mrs1) (loc_of_shr_record mrs1)) in *.
  pose proof (renormalize m2 e1 ltac:(lia) HE ltac:(lia)) as H3.
  destruct (shr_fexp prec emax m2 e1 loc_Exact) as [mrs3 e3].
  destruct H3 as (Hval & Hm3 & He3 & Hfull3).
  set (A := IZR m2 * pow2 e1) in *.
  assert (HA0 : 0 <= A).
  { unfold A. pose proof (pow2_pos e1).
    assert (0 <= IZR m2) by (apply IZR_le; lia). nra. }
  assert (HAhi : A <= hi).
  { destruct (Rle_or_lt A hi) as [ | Hgt]; [assumption | ].
    pose proof (Hnear hi Hhi) as Hn. fold A in Hn.
    unfold Rabs in Hn; repeat destruct Rcase_abs; lra. }
  pose proof (representable_below hi Hhi) as Hbig.
  assert (He3' : (shr_m mrs3 = 0 \/ e3 <= 971)%Z).
  { destruct (Z.eq_dec (shr_m mrs3) 0) as [ | Hnz]; [now left | right].
    destruct (Z.le_gt_cases e3 971) as [ | Hov]; [assumption | exfalso].
    destruct Hfull3 as [-> | Hfull3]; [lia | ].
    assert (H52 : IZR (2 ^ 52) <= IZR (shr_m mrs3)) by now apply IZR_le.
    assert (Hp : pow2 972 <= pow2 e3) by (apply pow2_le; lia).
    assert (E1024 : pow2 1024 = IZR (2 ^ 52) * pow2 972).
    { rewrite <- pow2_IZR by lia. rewrite <- pow2_add. reflexivity. }
    pose proof (pow2_pos 972). pose proof (pow2_pos e3).
    assert (0 < IZR (2 ^ 52)) by (apply IZR_lt; reflexivity).
    assert (pow2 1024 <= A); [ | lra].
    rewrite <- Hval, E1024.
    apply Rle_trans with (IZR (2 ^ 52) * pow2 e3); nra. }
  exists A.
  destruct (shr_m mrs3) as [ | m3 | m3] eqn:Em3; [ | | lia].
  - assert (EA : A = 0) by (rewrite <- Hval; ring).
    cbn [SF2R JS.sf_finite SpecFloat.valid_binary].
    repeat split; try reflexivity; try assumption.
    + rewrite EA. destruct s; lra.
    + exists 0%Z, 0%Z. rewrite EA. repeat split; try lia. ring.
  - destruct He3' as [He3' | He3']; [discriminate He3' | ].
    assert (Hleb : (e3 <=? emax - prec)%Z = true)
      by (apply Z.leb_le; change (emax - prec)%Z with 971%Z; exact He3').
    change IntDef.Z.sub with Z.sub. rewrite Hleb.
    assert (Hvalid : valid_binary (S754_finite s m3 e3) = true).
    { exact (canonical_shape m3 e3 ltac:(lia) ltac:(lia) Hfull3). }
    cbn [SF2R JS.sf_finite].
    repeat split; try assumption; try reflexivity.
    + rewrite <- Hval. destruct s; cbn [cond_Zopp].
      * rewrite opp_IZR. ring.
      * reflexivity.
    + exists (Zpos m3), e3. rewrite <- Hval. repeat split; lia.
    + intros EA. exfalso. rewrite <- Hval in EA.
      pose proof (pow2_pos e3).
      assert (0 < IZR (Zpos m3)) by (apply IZR_lt; lia). nra.
Qed.
End RoundingCorrect.

(** *** Multiplication *)

Section Operations.
Local Open Scope R_scope.

Lemma valid_shape (s : bool) (m : positive) (e : Z) :
  valid_binary (S754_finite s m e) = true ->
  (Zpos m < 2 ^ 53)%Z /\ (-1074 <= e <= 971)%Z /\
  (e = -1074 \/ 2 ^ 52 <= Zpos m)%Z.
Proof.
  unfold SpecFloat.valid_binary, SpecFloat.bounded, canonical_mantissa,
    SpecFloat.fexp.
  change (SpecFloat.emin prec emax) with (-1074)%Z. change prec with 53%Z.
  change emax with 1024%Z. change IntDef.Z.max with Z.max.
  change (Zpos (digits2_pos m)) with (Zdigits2 (Zpos m)).
  intros H. apply andb_true_iff in H. destruct H as [H1 H2].
  apply Z.eqb_eq in H1. apply Z.leb_le in H2.
  pose proof (digits_bounds (Zpos m) ltac:(lia)) as Hb.
  assert (Hd : (Zdigits2 (Zpos m) <= 53)%Z) by lia.
  split; [ | split; [lia | ]].
  - apply Z.lt_le_trans with (1 := proj2 Hb). apply Z.pow_le_mono_r; lia.
  - destruct (Z.eq_dec e (-1074)) as [ | Hn]; [now left | right].
    assert (Ed : Zdigits2 (Zpos m) = 53%Z) by lia.
    rewrite Ed in Hb. exact (proj1 Hb).
Qed.

Lemma representable_SF2R (x : spec_float) :
  valid_binary x = true -> representable (SF2R x).
Proof.
  destruct x as [s | s | | s m e]; cbn [SF2R]; intros Hv;
    try apply representable_0.
  destruct (valid_shape s m e Hv) as (Hm & He & _).
  exists (cond_Zopp s (Zpos m)), e. repeat split; try lia.
  destruct s; cbn [cond_Zopp]; lia.
Qed.

Lemma rounds_to_opp (v r : R) : rounds_to v r -> rounds_to (- v) (- r).
Proof.
  intros [Hr Hn]. split; [now apply representable_opp | ].
  intros g Hg. specialize (Hn (- g) (representable_opp g Hg)).
  replace (- r - - v) with (- (r - v)) by ring. rewrite Rabs_Ropp.
  replace (g - - v) with (- (- g - v)) by ring. now rewrite Rabs_Ropp.
Qed.

Lemma rounds_to_exact (v : R) : representable v -> rounds_to v v.
Proof.
  intros Hv. split; [assumption | ]. intros g _.
  replace (v - v) with 0 by ring. rewrite Rabs_R0. apply Rabs_pos.
Qed.

(** A rounded value stays on the same side of every number of the format. *)
Lemma rounds_to_le (v r hi : R) :
  rounds_to v r -> representable hi -> v <= hi -> r <= hi.
Proof.
  intros [_ Hn] Hhi Hle. specialize (Hn hi Hhi).
  unfold Rabs in Hn; repeat destruct Rcase_abs; lra.
Qed.

Lemma rounds_to_ge (v r lo : R) :
  rounds_to v r -> representable lo -> lo <= v -> lo <= r.
Proof.
  intros [_ Hn] Hlo Hle. specialize (Hn lo Hlo).
  unfold Rabs in Hn; repeat destruct Rcase_abs; lra.
Qed.

Lemma rounds_to_representable (v r : R) :
  rounds_to v r -> representable v -> r = v.
Proof.
  intros Hr Hv.
  pose proof (rounds_to_le v r v Hr Hv ltac:(lra)).
  pose proof (rounds_to_ge v r v Hr Hv ltac:(lra)). lra.
Qed.

Lemma signed_rounds_to (s : bool) (v A : R) :
  rounds_to v A ->
  rounds_to (if s then - v else v) (if s then - A else A).
Proof. destruct s; [apply rounds_to_opp | trivial]. Qed.

Lemma IZR_cond_Zopp (s : bool) (z : Z) :
  IZR (cond_Zopp s z) = if s then - IZR z else IZR z.
Proof. destruct s; cbn [cond_Zopp]; [apply opp_IZR | reflexivity]. Qed.

Lemma digits_mul (a b : positive) :
  (Zdigits2 (Zpos a) + Zdigits2 (Zpos b) - 1 <= Zdigits2 (Zpos (a * b)))%Z.
Proof.
  pose proof (digits_bounds (Zpos a) ltac:(lia)) as Ha.
  pose proof (digits_bounds (Zpos b) ltac:(lia)) as Hb.
  pose proof (Zdigits2_nonneg (Zpos a)). pose proof (Zdigits2_nonneg (Zpos b)).
  assert (1 <= Zdigits2 (Zpos a))%Z by (cbn; lia).
  assert (1 <= Zdigits2 (Zpos b))%Z by (cbn; lia).
  apply digits_ge; [lia | ].
  replace (Zdigits2 (Zpos a) + Zdigits2 (Zpos b) - 1 - 1)%Z
    with ((Zdigits2 (Zpos a) - 1) + (Zdigits2 (Zpos b) - 1))%Z by lia.
  rewrite Z.pow_add_r by lia. rewrite Pos2Z.inj_mul.
  apply Z.mul_le_mono_nonneg; try lia; apply Z.pow_nonneg; lia.
Qed.

Lemma valid_digits_53 (s : bool) (m : positive) (e : Z) :
  valid_binary (S754_finite s m e) = true ->
  (1 <= Zdigits2 (Zpos m) <= 53)%Z /\
  (e = -1074 \/ Zdigits2 (Zpos m) = 53)%Z /\ (-1074 <= e <= 971)%Z.
Proof.
  intros Hv. destruct (valid_shape s m e Hv) as (Hm & He & Hfull).
  assert (Hd : (Zdigits2 (Zpos m) <= 53)%Z) by (apply digits_le; lia).
  assert (1 <= Zdigits2 (Zpos m))%Z by (cbn; lia).
  repeat split; try lia.
  destruct Hfull as [ | Hfull]; [now left | right].
  pose proof (digits_ge (Zpos m) 53 ltac:(lia) Hfull). lia.
Qed.

(** Multiplication is correctly rounded. *)
Lemma SFmul_correct (x y : spec_float) (hi : R) :
  valid_binary x = true -> valid_binary y = true ->
  JS.sf_finite x = true -> JS.sf_finite y = true ->
  representable hi -> Rabs (SF2R x * SF2R y) <= hi ->
  valid_binary (SFmul prec emax x y) = true /\
  JS.sf_finite (SFmul prec emax x y) = true /\
  rounds_to (SF2R x * SF2R y) (SF2R (SFmul prec emax x y)).
Proof.
  intros Vx Vy Fx Fy Hhi Hle.
  destruct x as [sx | sx | | sx mx ex]; try discriminate Fx;
    destruct y as [sy | sy | | sy my ey]; try discriminate Fy;
    cbn [SFmul SF2R];
    try (repeat split; try reflexivity;
         rewrite ?Rmult_0_l, ?Rmult_0_r;
         apply rounds_to_exact, representable_0).
  destruct (valid_digits_53 sx mx ex Vx) as (Dx & Cx & Ex).
  destruct (valid_digits_53 sy my ey Vy) as (Dy & Cy & Ey).
  pose proof (digits_mul mx my) as Dm.
  set (v := IZR (Zpos (mx * my)) * pow2 (ex + ey)).
  assert (Ev : SF2R (S754_finite sx mx ex) * SF2R (S754_finite sy my ey)
               = if xorb sx sy then - v else v).
  { unfold v. cbn [SF2R]. rewrite !IZR_cond_Zopp, pow2_add, Pos2Z.inj_mul,
      mult_IZR. destruct sx, sy; cbn [xorb]; ring. }
  assert (Hv0 : 0 <= v).
  { unfold v. pose proof (pow2_pos (ex + ey)).
    assert (0 < IZR (Zpos (mx * my))) by (apply IZR_lt; lia). nra. }
  assert (Hvle : v <= hi).
  { cbn [SF2R] in Ev. cbn [SF2R] in Hle. rewrite Ev in Hle.
    destruct (xorb sx sy); rewrite ?Rabs_Ropp in Hle;
      rewrite (Rabs_pos_eq v Hv0) in Hle; exact Hle. }
  destruct (binary_round_aux_correct (xorb sx sy) (Zpos (mx * my)) (ex + ey)
              loc_Exact v hi ltac:(lia) eq_refl ltac:(lia) Hhi Hvle)
    as (A & HV & HF & HR & HA & Hround & _).
  split; [exact HV | split; [exact HF | ]].
  cbn [SF2R] in Ev. rewrite Ev, HR. now apply signed_rounds_to.
Qed.
End Operations.

(** *** Addition and subtraction *)

Section Addition.
Local Open Scope R_scope.

Lemma shl_align_spec (m : positive) (e e' : Z) :
  Zpos (fst (shl_align m e e')) = (Zpos m * 2 ^ (e - Z.min e e'))%Z /\
  snd (shl_align m e e') = Z.min e e'.
Proof.
  unfold shl_align. destruct (e' - e)%Z as [ | d | d] eqn:E; cbn [fst snd].
  - replace (Z.min e e') with e by lia. rewrite Z.sub_diag. cbn. lia.
  - replace (Z.min e e') with e by lia. rewrite Z.sub_diag. cbn. lia.
  - replace (Z.min e e') with e' by lia. split; [ | reflexivity].
    change (PosDef.Pos.iter xO m d) with (shift_pos d m).
    rewrite shift_pos_correct. replace (e - e')%Z with (Zpos d) by lia.
    change (Z.pow_pos 2 d) with (2 ^ Zpos d)%Z. lia.
Qed.

Lemma digits_shift (p : positive) (k : Z) :
  (0 <= k)%Z -> Zdigits2 (Zpos p * 2 ^ k) = (Zdigits2 (Zpos p) + k)%Z.
Proof.
  intros Hk. assert (0 < 2 ^ k)%Z by (apply Z.pow_pos_nonneg; lia).
  rewrite !Zdigits2_log2 by lia. rewrite Z.log2_mul_pow2 by lia. lia.
Qed.

Lemma binary_round_correct (s : bool) (p : positive) (e : Z) (hi : R) :
  representable hi -> IZR (Zpos p) * pow2 e <= hi ->
  exists A : R,
    valid_binary (binary_round prec emax s p e) = true /\
    JS.sf_finite (binary_round prec emax s p e) = true /\
    SF2R (binary_round prec emax s p e) = (if s then - A else A) /\
    rounds_to (IZR (Zpos p) * pow2 e) A.
Proof.
  intros Hhi Hle. unfold binary_round.
  set (E := SpecFloat.fexp prec emax (Zpos (digits2_pos p) + e)).
  assert (HE : E = Z.max (Zdigits2 (Zpos p) + e - 53) (-1074)) by reflexivity.
  destruct (shl_align_spec p e E) as [Hm He].
  destruct (shl_align p e E) as [mz ez]. cbn [fst snd] in Hm, He.
  assert (Ev : IZR (Zpos p) * pow2 e = IZR (Zpos mz) * pow2 ez).
  { rewrite Hm, He. apply pow2_shift. lia. }
  assert (Hd : Zdigits2 (Zpos mz) = (Zdigits2 (Zpos p) + (e - ez))%Z).
  { rewrite Hm, He. apply digits_shift. lia. }
  destruct (binary_round_aux_correct s (Zpos mz) ez loc_Exact
              (IZR (Zpos p) * pow2 e) hi ltac:(lia) Ev ltac:(lia) Hhi Hle)
    as (A & HV & HF & HR & _ & Hround & _).
  exists A. auto.
Qed.

Lemma binary_normalize_correct (z e : Z) (hi : R) :
  representable hi -> Rabs (IZR z * pow2 e) <= hi ->
  valid_binary (binary_normalize prec emax z e false) = true /\
  JS.sf_finite (binary_normalize prec emax z e false) = true /\
  rounds_to (IZR z * pow2 e) (SF2R (binary_normalize prec emax z e false)).
Proof.
  intros Hhi Hle. pose proof (pow2_pos e) as HP.
  destruct z as [ | p | p]; cbn [binary_normalize].
  - split; [reflexivity | split; [reflexivity | ]].
    rewrite Rmult_0_l. apply rounds_to_exact, representable_0.
  - assert (H0 : 0 <= IZR (Zpos p) * pow2 e).
    { assert (0 < IZR (Zpos p)) by (apply IZR_lt; lia). nra. }
    rewrite (Rabs_pos_eq _ H0) in Hle.
    destruct (binary_round_correct false p e hi Hhi Hle)
      as (A & HV & HF & HR & Hround).
    rewrite HR. auto.
  - assert (H0 : 0 <= IZR (Zpos p) * pow2 e).
    { assert (0 < IZR (Zpos p)) by (apply IZR_lt; lia). nra. }
    assert (E : IZR (Zneg p) * pow2 e = - (IZR (Zpos p) * pow2 e)).
    { change (Zneg p) with (- Zpos p)%Z. rewrite opp_IZR. ring. }
    rewrite E, Rabs_Ropp, (Rabs_pos_eq _ H0) in Hle.
    destruct (binary_round_correct true p e hi Hhi Hle)
      as (A & HV & HF & HR & Hround).
    rewrite HR, E. split; [exact HV | split; [exact HF | ]].
    now apply rounds_to_opp.
Qed.

Lemma aligned_value (s : bool) (m : positive) (e ez : Z) :
  (ez <= e)%Z ->
  IZR (cond_Zopp s (Zpos (fst (shl_align m e ez)))) * pow2 ez
  = SF2R (S754_finite s m e).
Proof.
  intros H. destruct (shl_align_spec m e ez) as [Hm _]. rewrite Hm.
  replace (Z.min e ez) with ez by lia. cbn [SF2R].
  pose proof (pow2_shift (Zpos m) e ez H) as E.
  destruct s; cbn [cond_Zopp]; rewrite ?opp_IZR; lra.
Qed.

(** Addition is correctly rounded. *)
Lemma SFadd_correct (x y : spec_float) (hi : R) :
  valid_binary x = true -> valid_binary y = true ->
  JS.sf_finite x = true -> JS.sf_finite y = true ->
  representable hi -> Rabs (SF2R x + SF2R y) <= hi ->
  valid_binary (SFadd prec emax x y) = true /\
  JS.sf_finite (SFadd prec emax x y) = true /\
  rounds_to (SF2R x + SF2R y) (SF2R (SFadd prec emax x y)).
Proof.
  intros Vx Vy Fx Fy Hhi Hle.
  destruct x as [sx | sx | | sx mx ex]; try discriminate Fx;
    destruct y as [sy | sy | | sy my ey]; try discriminate Fy.
  - cbn [SF2R]. rewrite Rplus_0_l.
    assert (H : forall b, SF2R (S754_zero b) = 0) by reflexivity.
    destruct sx, sy; cbn [SFadd]; (split; [reflexivity | split; [reflexivity | ]]);
      apply rounds_to_exact, representable_0.
  - cbn [SFadd]. replace (SF2R (S754_zero sx)) with 0 by reflexivity.
    rewrite Rplus_0_l. split; [assumption | split; [assumption | ]].
    now apply rounds_to_exact, representable_SF2R.
  - cbn [SFadd]. replace (SF2R (S754_zero sy)) with 0 by reflexivity.
    rewrite Rplus_0_r. split; [assumption | split; [assumption | ]].
    now apply rounds_to_exact, representable_SF2R.
  - cbn [SFadd]. change IntDef.Z.min with Z.min.
    set (ez := Z.min ex ey).
    set (a := cond_Zopp sx (Zpos (fst (shl_align mx ex ez)))).
    set (b := cond_Zopp sy (Zpos (fst (shl_align my ey ez)))).
    assert (E : IZR (a + b) * pow2 ez
                = SF2R (S754_finite sx mx ex) + SF2R (S754_finite sy my ey)).
    { rewrite plus_IZR, Rmult_plus_distr_r. unfold a, b.
      rewrite !aligned_value by (unfold ez; lia). reflexivity. }
    rewrite <- E in *. now apply binary_normalize_correct with (hi := hi).
Qed.

Lemma SFsub_add (x y : spec_float) :
  SFsub prec emax x y = SFadd prec emax x (SFopp y).
Proof.
  destruct x as [sx | sx | | sx mx ex]; destruct y as [sy | sy | | sy my ey];
    try reflexivity;
    try solve [ repeat match goal with b : bool |- _ => destruct b end;
                reflexivity ].
Qed.

Lemma SF2R_opp (x : spec_float) : SF2R (SFopp x) = - SF2R x.
Proof.
  destruct x as [s | s | | s m e]; cbn [SFopp SF2R]; try lra.
  rewrite !IZR_cond_Zopp. destruct s; cbn [negb]; ring.
Qed.

Lemma valid_opp (x : spec_float) :
  valid_binary (SFopp x) = valid_binary x.
Proof. now destruct x. Qed.

Lemma finite_opp (x : spec_float) : JS.sf_finite (SFopp x) = JS.sf_finite x.
Proof. now destruct x. Qed.

(** Subtraction is correctly rounded. *)
Lemma SFsub_correct (x y : spec_float) (hi : R) :
  valid_binary x = true -> valid_binary y = true ->
  JS.sf_finite x = true -> JS.sf_finite y = true ->
  representable hi -> Rabs (SF2R x - SF2R y) <= hi ->
  valid_binary (SFsub prec emax x y) = true /\
  JS.sf_finite (SFsub prec emax x y) = true /\
  rounds_to (SF2R x - SF2R y) (SF2R (SFsub prec emax x y)).
Proof.
  intros Vx Vy Fx Fy Hhi Hle. rewrite SFsub_add.
  replace (SF2R x - SF2R y) with (SF2R x + SF2R (SFopp y)) in *
    by (rewrite SF2R_opp; ring).
  apply SFadd_correct with (hi := hi);
    rewrite ?valid_opp, ?finite_opp; assumption.
Qed.
End Addition.

(** *** Division *)

Section Division.
Local Open Scope R_scope.

(** Where the remainder [r] of a division by [n] puts the quotient. *)
Lemma new_location_spec (n r q e : Z) :
  (0 < n)%Z -> (0 <= r < n)%Z ->
  inbetween q e (new_location n r) ((IZR q + IZR r / IZR n) * pow2 e).
Proof.
  intros Hn Hr. pose proof (pow2_pos e) as HP.
  assert (Hn' : 0 < IZR n) by now apply IZR_lt.
  assert (Hhalf : forall c, (2 * r ?= n)%Z = c ->
            match c with
            | Lt => IZR r / IZR n < / 2
            | Eq => IZR r / IZR n = / 2
            | Gt => / 2 < IZR r / IZR n
            end).
  { intros c <-. destruct (Z.compare_spec (2 * r) n) as [E | E | E].
    - rewrite <- E, mult_IZR. field.
      apply IZR_lt in Hn. rewrite <- E, mult_IZR in Hn. lra.
    - apply IZR_lt in E. rewrite mult_IZR in E.
      apply Rmult_lt_reg_r with (IZR n); [assumption | ].
      unfold Rdiv. rewrite Rmult_assoc, Rinv_l by lra. lra.
    - apply IZR_lt in E. rewrite mult_IZR in E.
      apply Rmult_lt_reg_r with (IZR n); [assumption | ].
      unfold Rdiv. rewrite Rmult_assoc, Rinv_l by lra. lra. }
  assert (Hpos : r <> 0%Z -> 0 < IZR r / IZR n).
  { intros Hnz. apply Rdiv_lt_0_compat; [ | assumption].
    apply IZR_lt. lia. }
  assert (Hlt1 : IZR r / IZR n < 1).
  { apply Rmult_lt_reg_r with (IZR n); [assumption | ].
    unfold Rdiv. rewrite Rmult_assoc, Rinv_l by lra.
    assert (IZR r < IZR n) by (apply IZR_lt; lia). lra. }
  unfold new_location. change IntDef.Z.even with Z.even.
  destruct (Z.even n) eqn:Ev.
  - unfold new_location_even. destruct (Z.eqb_spec r 0) as [-> | Hnz].
    + cbn [inbetween]. unfold Rdiv. rewrite Rmult_0_l. ring.
    + specialize (Hpos Hnz). pose proof (Hhalf _ eq_refl) as Hc.
      destruct (2 * r ?= n)%Z; cbn [inbetween]; try split; nra.
  - unfold new_location_odd. destruct (Z.eqb_spec r 0) as [-> | Hnz].
    + cbn [inbetween]. unfold Rdiv. rewrite Rmult_0_l. ring.
    + specialize (Hpos Hnz). pose proof (Hhalf _ eq_refl) as Hc.
      assert (Hodd : (2 * r <> n)%Z).
      { intros E. rewrite <- E, Z.even_mul in Ev. discriminate Ev. }
      destruct (Z.compare_spec (2 * r + 1) n) as [E | E | E];
        destruct (Z.compare_spec (2 * r) n) as [E' | E' | E']; try lia;
        cbn [inbetween]; try split; nra.
Qed.

(** The quotient mantissa of the division has the precision of the format
    and sits beside the real quotient. *)
Lemma SFdiv_core_binary_spec (m1 m2 : positive) (e1 e2 : Z) :
  let '(q, e', l) := SFdiv_core_binary prec emax (Zpos m1) e1 (Zpos m2) e2 in
  inbetween q e' l (IZR (Zpos m1) * pow2 e1 / (IZR (Zpos m2) * pow2 e2)) /\
  (0 <= q)%Z /\ (e' <= Z.max (Zdigits2 q + e' - 53) (-1074))%Z.
Proof.
  unfold SFdiv_core_binary, SpecFloat.fexp.
  change (SpecFloat.emin prec emax) with (-1074)%Z. change prec with 53%Z.
  change IntDef.Z.max with Z.max. change IntDef.Z.min with Z.min.
  change IntDef.Z.shiftl with Z.shiftl.
  change IntDef.Z.div_eucl with Z.div_eucl.
  set (d1 := Zdigits2 (Zpos m1)). set (d2 := Zdigits2 (Zpos m2)).
  set (e' := Z.min (Z.max (d1 + e1 - (d2 + e2) - 53) (-1074)) (e1 - e2)).
  set (s := (e1 - e2 - e')%Z).
  assert (Hs : (0 <= s)%Z) by (unfold s, e'; lia).
  set (m' := match s with
             | 0%Z => Zpos m1
             | Zpos _ => Z.shiftl (Zpos m1) s
             | Zneg _ => 0%Z
             end).
  assert (Em' : m' = (Zpos m1 * 2 ^ s)%Z).
  { unfold m'. destruct s as [ | p | p] eqn:Es; [cbn; lia | | lia].
    rewrite Z.shiftl_mul_pow2 by lia. reflexivity. }
  pose proof (Z_div_mod m' (Zpos m2) ltac:(lia)) as Hdiv.
  destruct (Z.div_eucl m' (Zpos m2)) as [q r]. destruct Hdiv as [Eq Hr].
  assert (Hp : (0 < 2 ^ s)%Z) by (apply Z.pow_pos_nonneg; lia).
  assert (Hq : (0 <= q)%Z) by nia.
  pose proof (pow2_pos e') as HP'. pose proof (pow2_pos e2) as HP2.
  assert (Hm2 : 0 < IZR (Zpos m2)) by (apply IZR_lt; lia).
  split; [ | split; [exact Hq | ]].
  - replace (IZR (Zpos m1) * pow2 e1 / (IZR (Zpos m2) * pow2 e2))
      with ((IZR q + IZR r / IZR (Zpos m2)) * pow2 e').
    { apply new_location_spec; lia. }
    replace e1 with (s + e2 + e')%Z by (unfold s; lia).
    rewrite !pow2_add, (pow2_IZR s Hs).
    assert (E : IZR (Zpos m1) * IZR (2 ^ s)
                = IZR (Zpos m2) * IZR q + IZR r).
    { rewrite <- !mult_IZR, <- plus_IZR. f_equal. lia. }
    field_simplify_eq; [ | lra]. nra.
  - destruct (Z.le_gt_cases e' (-1074)) as [ | Hbig]; [lia | ].
    assert (Hq52 : (2 ^ 52 <= q)%Z).
    { pose proof (digits_bounds (Zpos m1) ltac:(lia)) as B1.
      pose proof (digits_bounds (Zpos m2) ltac:(lia)) as B2.
      fold d1 in B1. fold d2 in B2.
      assert (1 <= d1)%Z by (unfold d1; cbn; lia).
      assert (1 <= d2)%Z by (unfold d2; cbn; lia).
      assert (Hs' : (53 - d1 + d2 <= s)%Z) by (unfold s, e' in *; lia).
      assert (Hlow : (2 ^ 52 * Zpos m2 <= m')%Z).
      { rewrite Em'.
        apply Z.le_trans with (2 ^ (d1 - 1) * 2 ^ s)%Z;
          [ | apply Z.mul_le_mono_nonneg_r; lia].
        rewrite <- Z.pow_add_r by lia.
        apply Z.le_trans with (2 ^ 52 * 2 ^ d2)%Z;
          [apply Z.mul_le_mono_nonneg_l; lia | ].
        rewrite <- Z.pow_add_r by lia. apply Z.pow_le_mono_r; lia. }
      nia. }
    pose proof (digits_ge q 53 ltac:(lia) Hq52). lia.
Qed.

(** Division is correctly rounded, whatever the mantissas of the operands. *)
Lemma SFdiv_correct (x : spec_float) (sy : bool) (my : positive) (ey : Z)
    (hi : R) :
  JS.sf_finite x = true ->
  representable hi ->
  Rabs (SF2R x / SF2R (S754_finite sy my ey)) <= hi ->
  valid_binary (SFdiv prec emax x (S754_finite sy my ey)) = true /\
  JS.sf_finite (SFdiv prec emax x (S754_finite sy my ey)) = true /\
  rounds_to (SF2R x / SF2R (S754_finite sy my ey))
    (SF2R (SFdiv prec emax x (S754_finite sy my ey))).
Proof.
  intros Fx Hhi Hle.
  destruct x as [sx | sx | | sx mx ex]; try discriminate Fx.
  - cbn [SFdiv SF2R]. split; [reflexivity | split; [reflexivity | ]].
    unfold Rdiv. rewrite Rmult_0_l. apply rounds_to_exact, representable_0.
  - cbn [SFdiv].
    pose proof (SFdiv_core_binary_spec mx my ex ey) as H.
    destruct (SFdiv_core_binary prec emax (Zpos mx) ex (Zpos my) ey)
      as [[q e'] l].
    destruct H as (Hv & Hq & Hprec).
    set (v := IZR (Zpos mx) * pow2 ex / (IZR (Zpos my) * pow2 ey)) in *.
    pose proof (pow2_pos ex). pose proof (pow2_pos ey).
    assert (0 < IZR (Zpos mx)) by (apply IZR_lt; lia).
    assert (0 < IZR (Zpos my)) by (apply IZR_lt; lia).
    assert (Hv0 : 0 <= v).
    { unfold v. apply Rlt_le, Rdiv_lt_0_compat; nra. }
    assert (Ev : SF2R (S754_finite sx mx ex) / SF2R (S754_finite sy my ey)
                 = if xorb sx sy then - v else v).
    { unfold v. cbn [SF2R]. rewrite !IZR_cond_Zopp.
      destruct sx, sy; cbn [xorb]; field; nra. }
    rewrite Ev in *.
    assert (Hvle : v <= hi).
    { destruct (xorb sx sy); rewrite ?Rabs_Ropp in Hle;
        rewrite (Rabs_pos_eq v Hv0) in Hle; exact Hle. }
    destruct (binary_round_aux_correct (xorb sx sy) q e' l v hi
                Hq Hv Hprec Hhi Hvle)
      as (A & HV & HF & HR & HA & Hround & _).
    split; [exact HV | split; [exact HF | ]].
    rewrite HR. now apply signed_rounds_to.
Qed.
End Division.

(** *** Comparison *)

Section Comparison.
Local Open Scope R_scope.

Lemma magnitude_lt (mx my : positive) (ex ey : Z) :
  (Zpos mx < 2 ^ 53)%Z -> (-1074 <= ex)%Z ->
  (ey = -1074 \/ 2 ^ 52 <= Zpos my)%Z ->
  (ex < ey)%Z ->
  IZR (Zpos mx) * pow2 ex < IZR (Zpos my) * pow2 ey.
Proof.
  intros Hx Hex Hy Hlt. destruct Hy as [-> | Hy]; [lia | ].
  assert (H1 : IZR (Zpos mx) < IZR (2 ^ 53)) by now apply IZR_lt.
  assert (H2 : IZR (2 ^ 52) <= IZR (Zpos my)) by now apply IZR_le.
  assert (H3 : pow2 ex <= pow2 (ey - 1)) by (apply pow2_le; lia).
  assert (H4 : pow2 ey = 2 * pow2 (ey - 1)).
  { rewrite <- pow2_succ. f_equal. lia. }
  pose proof (pow2_pos ex). pose proof (pow2_pos (ey - 1)).
  assert (0 < IZR (Zpos mx)) by (apply IZR_lt; lia).
  change (2 ^ 53)%Z with 9007199254740992%Z in H1.
  change (2 ^ 52)%Z with 4503599627370496%Z in H2.
  rewrite H4.
  apply Rlt_le_trans with (9007199254740992 * pow2 ex); [nra | ].
  apply Rle_trans with (9007199254740992 * pow2 (ey - 1)); nra.
Qed.

Lemma magnitude_compare (mx my : positive) (ex ey : Z) :
  valid_binary (S754_finite false mx ex) = true ->
  valid_binary (S754_finite false my ey) = true ->
  match
    match (ex ?= ey)%Z with
    | Lt => Lt
    | Eq => Pcompare mx my Eq
    | Gt => Gt
    end
  with
  | Lt => IZR (Zpos mx) * pow2 ex < IZR (Zpos my) * pow2 ey
  | Eq => IZR (Zpos mx) * pow2 ex = IZR (Zpos my) * pow2 ey
  | Gt => IZR (Zpos my) * pow2 ey < IZR (Zpos mx) * pow2 ex
  end.
Proof.
  intros Vx Vy.
  destruct (valid_shape _ _ _ Vx) as (Hx & Ex & Cx).
  destruct (valid_shape _ _ _ Vy) as (Hy & Ey & Cy).
  destruct (Z.compare_spec ex ey) as [E | E | E].
  - subst ey. rewrite Pcompare_compare. pose proof (pow2_pos ex).
    destruct (Pos.compare_spec mx my) as [E | E | E].
    + now subst.
    + apply Pos2Z.pos_lt_pos, IZR_lt in E. nra.
    + apply Pos2Z.pos_lt_pos, IZR_lt in E. nra.
  - apply magnitude_lt; lia.
  - apply magnitude_lt; lia.
Qed.

(** Comparing two numbers of the format compares their values. *)
Lemma SFcompare_spec (x y : spec_float) :
  valid_binary x = true -> valid_binary y = true ->
  JS.sf_finite x = true -> JS.sf_finite y = true ->
  match SFcompare x y with
  | Some Lt => SF2R x < SF2R y
  | Some Eq => SF2R x = SF2R y
  | Some Gt => SF2R y < SF2R x
  | None => False
  end.
Proof.
  intros Vx Vy Fx Fy.
  assert (Hpos : forall m e, 0 < IZR (Zpos m) * pow2 e).
  { intros m e. pose proof (pow2_pos e).
    assert (0 < IZR (Zpos m)) by (apply IZR_lt; lia). nra. }
  destruct x as [sx | sx | | sx mx ex]; try discriminate Fx;
    destruct y as [sy | sy | | sy my ey]; try discriminate Fy;
    cbn [SFcompare SF2R].
  - reflexivity.
  - pose proof (Hpos my ey). rewrite IZR_cond_Zopp.
    destruct sy; lra.
  - pose proof (Hpos mx ex). rewrite IZR_cond_Zopp.
    destruct sx; lra.
  - pose proof (Hpos mx ex). pose proof (Hpos my ey).
    pose proof (magnitude_compare mx my ex ey Vx Vy) as Hc.
    rewrite !IZR_cond_Zopp.
    destruct sx, sy; try lra;
      destruct (ex ?= ey)%Z; try lra;
      destruct (Pcompare mx my Eq); cbn [CompOpp]; lra.
Qed.
End Comparison.

(** ** The operations of [float] by their values *)

Section FloatValues.
Local Open Scope R_scope.

Lemma isFinite_spec (x : float) :
  JS.isFinite x = true -> JS.sf_finite (Prim2SF x) = true.
Proof. trivial. Qed.

Lemma ltb_F2R (x y : float) :
  JS.isFinite x = true -> JS.isFinite y = true ->
  ((x <? y)%float = true <-> F2R x < F2R y).
Proof.
  intros Fx Fy. rewrite ltb_spec. unfold SFltb, F2R.
  pose proof (SFcompare_spec (Prim2SF x) (Prim2SF y) (Prim2SF_valid x)
                (Prim2SF_valid y) Fx Fy) as H.
  destruct (SFcompare (Prim2SF x) (Prim2SF y)) as [[ | | ] | ];
    split; intros H'; try discriminate; try reflexivity; try lra;
    contradiction.
Qed.

Lemma leb_F2R (x y : float) :
  JS.isFinite x = true -> JS.isFinite y = true ->
  ((x <=? y)%float = true <-> F2R x <= F2R y).
Proof.
  intros Fx Fy. rewrite leb_spec. unfold SFleb, F2R.
  pose proof (SFcompare_spec (Prim2SF x) (Prim2SF y) (Prim2SF_valid x)
                (Prim2SF_valid y) Fx Fy) as H.
  destruct (SFcompare (Prim2SF x) (Prim2SF y)) as [[ | | ] | ];
    split; intros H'; try discriminate; try reflexivity; try lra;
    contradiction.
Qed.

Lemma ltb_F2R_false (x y : float) :
  JS.isFinite x = true -> JS.isFinite y = true ->
  ((x <? y)%float = false <-> F2R y <= F2R x).
Proof.
  intros Fx Fy. pose proof (ltb_F2R x y Fx Fy) as H.
  destruct (x <? y)%float; split; intros H'; try discriminate;
    try reflexivity.
  - destruct H as [H _]. specialize (H eq_refl). lra.
  - destruct (Rle_or_lt (F2R y) (F2R x)) as [ | Hlt]; [assumption | ].
    apply H in Hlt. discriminate Hlt.
Qed.

Lemma leb_F2R_false (x y : float) :
  JS.isFinite x = true -> JS.isFinite y = true ->
  ((x <=? y)%float = false <-> F2R y < F2R x).
Proof.
  intros Fx Fy. pose proof (leb_F2R x y Fx Fy) as H.
  destruct (x <=? y)%float; split; intros H'; try discriminate;
    try reflexivity.
  - destruct H as [H _]. specialize (H eq_refl). lra.
  - destruct (Rle_or_lt (F2R x) (F2R y)) as [Hle | ]; [ | assumption].
    apply H in Hle. discriminate Hle.
Qed.

Lemma representable_F2R (x : float) : representable (F2R x).
Proof. apply representable_SF2R, Prim2SF_valid. Qed.

Lemma representable_Rabs (u : R) : representable u -> representable (Rabs u).
Proof.
  intros H. unfold Rabs. destruct Rcase_abs; [now apply representable_opp | ].
  assumption.
Qed.

(** A magnitude bound from two bounds of the format. *)
Lemma between_magnitude (lo hi v : R) :
  representable lo -> representable hi -> lo <= v <= hi ->
  exists top, representable top /\ Rabs v <= top.
Proof.
  intros Hlo Hhi Hv.
  destruct (Rle_or_lt (Rabs lo) (Rabs hi)).
  - exists (Rabs hi). split; [now apply representable_Rabs | ].
    unfold Rabs in *; repeat destruct Rcase_abs; lra.
  - exists (Rabs lo). split; [now apply representable_Rabs | ].
    unfold Rabs in *; repeat destruct Rcase_abs; lra.
Qed.

Lemma mul_rounds (x y : float) (hi : R) :
  JS.isFinite x = true -> JS.isFinite y = true ->
  representable hi -> Rabs (F2R x * F2R y) <= hi ->
  JS.isFinite (x * y)%float = true /\
  rounds_to (F2R x * F2R y) (F2R (x * y)%float).
Proof.
  intros Fx Fy Hhi Hle. unfold JS.isFinite, F2R. rewrite mul_spec.
  destruct (SFmul_correct (Prim2SF x) (Prim2SF y) hi (Prim2SF_valid x)
              (Prim2SF_valid y) Fx Fy Hhi Hle) as (_ & HF & HR).
  split; assumption.
Qed.

Lemma add_rounds (x y : float) (hi : R) :
  JS.isFinite x = true -> JS.isFinite y = true ->
  representable hi -> Rabs (F2R x + F2R y) <= hi ->
  JS.isFinite (x + y)%float = true /\
  rounds_to (F2R x + F2R y) (F2R (x + y)%float).
Proof.
  intros Fx Fy Hhi Hle. unfold JS.isFinite, F2R. rewrite add_spec.
  destruct (SFadd_correct (Prim2SF x) (Prim2SF y) hi (Prim2SF_valid x)
              (Prim2SF_valid y) Fx Fy Hhi Hle) as (_ & HF & HR).
  split; assumption.
Qed.

Lemma sub_rounds (x y : float) (hi : R) :
  JS.isFinite x = true -> JS.isFinite y = true ->
  representable hi -> Rabs (F2R x - F2R y) <= hi ->
  JS.isFinite (x - y)%float = true /\
  rounds_to (F2R x - F2R y) (F2R (x - y)%float).
Proof.
  intros Fx Fy Hhi Hle. unfold JS.isFinite, F2R. rewrite sub_spec.
  destruct (SFsub_correct (Prim2SF x) (Prim2SF y) hi (Prim2SF_valid x)
              (Prim2SF_valid y) Fx Fy Hhi Hle) as (_ & HF & HR).
  split; assumption.
Qed.

(** The result of an operation lies between any two numbers of the format
    that enclose the exact result. *)
Lemma mul_between (x y : float) (lo hi : R) :
  JS.isFinite x = true -> JS.isFinite y = true ->
  representable lo -> representable hi ->
  lo <= F2R x * F2R y <= hi ->
  JS.isFinite (x * y)%float = true /\ lo <= F2R (x * y)%float <= hi.
Proof.
  intros Fx Fy Hlo Hhi Hv.
  destruct (between_magnitude lo hi _ Hlo Hhi Hv) as (top & Htop & Hle).
  destruct (mul_rounds x y top Fx Fy Htop Hle) as [HF HR].
  split; [exact HF | split].
  - apply (rounds_to_ge _ _ lo HR Hlo). lra.
  - apply (rounds_to_le _ _ hi HR Hhi). lra.
Qed.

Lemma add_between (x y : float) (lo hi : R) :
  JS.isFinite x = true -> JS.isFinite y = true ->
  representable lo -> representable hi ->
  lo <= F2R x + F2R y <= hi ->
  JS.isFinite (x + y)%float = true /\ lo <= F2R (x + y)%float <= hi.
Proof.
  intros Fx Fy Hlo Hhi Hv.
  destruct (between_magnitude lo hi _ Hlo Hhi Hv) as (top & Htop & Hle).
  destruct (add_rounds x y top Fx Fy Htop Hle) as [HF HR].
  split; [exact HF | split].
  - apply (rounds_to_ge _ _ lo HR Hlo). lra.
  - apply (rounds_to_le _ _ hi HR Hhi). lra.
Qed.

Lemma sub_between (x y : float) (lo hi : R) :
  JS.isFinite x = true -> JS.isFinite y = true ->
  representable lo -> representable hi ->
  lo <= F2R x - F2R y <= hi ->
  JS.isFinite (x - y)%float = true /\ lo <= F2R (x - y)%float <= hi.
Proof.
  intros Fx Fy Hlo Hhi Hv.
  destruct (between_magnitude lo hi _ Hlo Hhi Hv) as (top & Htop & Hle).
  destruct (sub_rounds x y top Fx Fy Htop Hle) as [HF HR].
  split; [exact HF | split].
  - apply (rounds_to_ge _ _ lo HR Hlo). lra.
  - apply (rounds_to_le _ _ hi HR Hhi). lra.
Qed.

(** An operation whose exact result is a number of the format is exact. *)
Lemma sub_exact (x y : float) :
  JS.isFinite x = true -> JS.isFinite y = true ->
  representable (F2R x - F2R y) ->
  JS.isFinite (x - y)%float = true /\ F2R (x - y)%float = F2R x - F2R y.
Proof.
  intros Fx Fy Hr.
  destruct (sub_rounds x y (Rabs (F2R x - F2R y)) Fx Fy
              (representable_Rabs _ Hr) (Rle_refl _)) as [HF HR].
  split; [exact HF | ]. now apply rounds_to_representable.
Qed.

Lemma F2R_abs (x : float) : F2R (PrimFloat.abs x) = Rabs (F2R x).
Proof.
  unfold F2R. rewrite abs_spec.
  destruct (Prim2SF x) as [s | s | | s m e]; cbn [SFabs SF2R];
    rewrite ?Rabs_R0; try reflexivity.
  pose proof (pow2_pos e).
  assert (0 < IZR (Zpos m)) by (apply IZR_lt; lia).
  destruct s; cbn [cond_Zopp]; rewrite ?opp_IZR;
    unfold Rabs; destruct Rcase_abs; nra.
Qed.

Lemma isFinite_abs (x : float) :
  JS.isFinite (PrimFloat.abs x) = JS.isFinite x.
Proof. unfold JS.isFinite. rewrite abs_spec. now destruct (Prim2SF x). Qed.

Lemma F2R_opp (x : float) : F2R (- x)%float = - F2R x.
Proof. unfold F2R. rewrite opp_spec. apply SF2R_opp. Qed.

Lemma isFinite_opp (x : float) : JS.isFinite (- x)%float = JS.isFinite x.
Proof. unfold JS.isFinite. rewrite opp_spec. apply finite_opp. Qed.
End FloatValues.

(** *** Integers and [Math.floor] *)

Section Integers.
Local Open Scope R_scope.

Lemma SF2R_sf_of_Z (n : Z) : SF2R (JS.sf_of_Z n) = IZR n.
Proof.
  destruct n as [ | p | p]; cbn [JS.sf_of_Z SF2R cond_Zopp];
    rewrite ?pow2_0; try lra.
  change (- Zpos p)%Z with (Zneg p). lra.
Qed.

Lemma finite_sf_of_Z (n : Z) : JS.sf_finite (JS.sf_of_Z n) = true.
Proof. now destruct n. Qed.

(** [JS.nearest n d] is the number of the format nearest to [n / d]. *)
Lemma nearest_rounds (n : Z) (d : positive) (hi : R) :
  representable hi -> Rabs (IZR n / IZR (Zpos d)) <= hi ->
  JS.isFinite (JS.nearest n d) = true /\
  rounds_to (IZR n / IZR (Zpos d)) (F2R (JS.nearest n d)).
Proof.
  intros Hhi Hle. unfold JS.nearest, JS.isFinite, F2R.
  assert (E : IZR n / IZR (Zpos d)
              = SF2R (JS.sf_of_Z n) / SF2R (S754_finite false d 0)).
  { rewrite SF2R_sf_of_Z. cbn [SF2R cond_Zopp]. rewrite pow2_0.
    now rewrite Rmult_1_r. }
  rewrite E in *.
  destruct (SFdiv_correct (JS.sf_of_Z n) false d 0 hi (finite_sf_of_Z n)
              Hhi Hle) as (HV & HF & HR).
  rewrite (Prim2SF_SF2Prim _ HV). split; assumption.
Qed.

Lemma of_Z_exact (n : Z) :
  (Z.abs n < 2 ^ 53)%Z ->
  JS.isFinite (JS.of_Z n) = true /\ F2R (JS.of_Z n) = IZR n.
Proof.
  intros Hn. pose proof (representable_IZR n Hn) as Hr.
  assert (E : IZR n / IZR 1 = IZR n) by (unfold Rdiv; rewrite Rinv_1; ring).
  destruct (nearest_rounds n 1 (Rabs (IZR n / IZR 1))) as [HF HR].
  - rewrite E. now apply representable_Rabs.
  - apply Rle_refl.
  - split; [exact HF | ]. rewrite E in HR.
    now apply rounds_to_representable.
Qed.

Lemma F2R_finite (x : float) (s : bool) (m : positive) (e : Z) :
  Prim2SF x = S754_finite s m e ->
  F2R x = IZR (cond_Zopp s (Zpos m)) * pow2 e.
Proof. unfold F2R. now intros ->. Qed.

Lemma pow2_opp (k : Z) : pow2 (- k) = / pow2 k.
Proof.
  pose proof (pow2_pos k). apply Rmult_eq_reg_l with (pow2 k); [ | lra].
  rewrite <- pow2_add, Z.add_opp_diag_r, Rinv_r by lra. reflexivity.
Qed.

(** [Math.floor]: the result is the integer just below. *)
Lemma Math_floor_spec (x : float) :
  JS.isFinite x = true ->
  JS.isFinite (JS.Math_floor x) = true /\
  exists n : Z,
    F2R (JS.Math_floor x) = IZR n /\ IZR n <= F2R x < IZR n + 1.
Proof.
  intros Fx. unfold JS.Math_floor.
  pose proof (Prim2SF_valid x) as Vx. unfold JS.isFinite in Fx.
  destruct (Prim2SF x) as [s | s | | s m e] eqn:Ex; try discriminate Fx.
  - split; [unfold JS.isFinite; now rewrite Ex | ].
    exists 0%Z. unfold F2R. rewrite Ex. cbn [SF2R]. lra.
  - destruct (valid_shape s m e Vx) as (Hm & He & _).
    assert (Hself : F2R x = IZR (cond_Zopp s (Zpos m)) * pow2 e)
      by now apply F2R_finite.
    destruct (Z.leb_spec 0 e) as [Hpos | Hneg].
    + split; [unfold JS.isFinite; now rewrite Ex | ].
      exists (cond_Zopp s (Zpos m) * 2 ^ e)%Z.
      rewrite Hself, mult_IZR, <- pow2_IZR by lia. lra.
    + set (k := (- e)%Z). assert (Hk : (0 < k)%Z) by (unfold k; lia).
      assert (Hp : (0 < 2 ^ k)%Z) by (apply Z.pow_pos_nonneg; lia).
      rewrite Z.shiftr_div_pow2 by lia.
      set (q := (Zpos m / 2 ^ k)%Z).
      pose proof (Z.div_mod (Zpos m) (2 ^ k) ltac:(lia)) as Hdiv.
      pose proof (Z.mod_pos_bound (Zpos m) (2 ^ k) Hp) as Hmod.
      fold q in Hdiv. set (r := (Zpos m mod 2 ^ k)%Z) in *.
      assert (Hq : (0 <= q)%Z) by (apply Z.div_pos; lia).
      assert (Hq' : (q <= Zpos m)%Z) by nia.
      assert (Hq2 : (2 * q <= Zpos m)%Z).
      { assert (2 <= 2 ^ k)%Z.
        { replace k with (Z.succ (k - 1)) by lia.
          rewrite Z.pow_succ_r by lia.
          pose proof (Z.pow_pos_nonneg 2 (k - 1)). lia. }
        nia. }
      assert (Epow : pow2 e = / IZR (2 ^ k)).
      { replace e with (- k)%Z by (unfold k; lia).
        rewrite pow2_opp, pow2_IZR by lia. reflexivity. }
      assert (HP : 0 < IZR (2 ^ k)) by now apply IZR_lt.
      assert (Hval : IZR (Zpos m) * pow2 e = IZR q + IZR r * / IZR (2 ^ k)).
      { rewrite Epow, Hdiv at 1. rewrite plus_IZR, mult_IZR. field. lra. }
      assert (Hr0 : 0 <= IZR r * / IZR (2 ^ k) < 1).
      { assert (0 <= IZR r < IZR (2 ^ k))
          by (split; [apply IZR_le | apply IZR_lt]; lia).
        assert (0 < / IZR (2 ^ k)) by now apply Rinv_0_lt_compat.
        split; [nra | ].
        apply Rmult_lt_reg_r with (IZR (2 ^ k)); [assumption | ].
        rewrite Rmult_assoc, Rinv_l by lra. lra. }
      destruct s.
      * rewrite Z.shiftl_mul_pow2 by lia.
        destruct (Z.eqb_spec (q * 2 ^ k) (Zpos m)) as [Eexact | Hinexact].
        -- split; [unfold JS.isFinite; now rewrite Ex | ].
           exists (- q)%Z. rewrite Hself. cbn [cond_Zopp].
           rewrite !opp_IZR.
           assert (Er : r = 0%Z) by lia.
           rewrite Er, Rmult_0_l in Hval. lra.
        -- destruct (of_Z_exact (- (q + 1))) as [HF HE]; [lia | ].
           split; [exact HF | ]. exists (- (q + 1))%Z.
           split; [exact HE | ]. rewrite Hself. cbn [cond_Zopp].
           rewrite !opp_IZR, plus_IZR.
           assert (Hr1 : 0 < IZR r * / IZR (2 ^ k)).
           { assert (0 < IZR r) by (apply IZR_lt; lia).
             assert (0 < / IZR (2 ^ k)) by now apply Rinv_0_lt_compat.
             nra. }
           lra.
      * destruct (of_Z_exact q) as [HF HE]; [lia | ].
        split; [exact HF | ]. exists q. split; [exact HE | ].
        rewrite Hself. cbn [cond_Zopp]. lra.
Qed.
End Integers.

(** *** Literals *)

Section Literals.
Local Open Scope R_scope.

(** The value of a literal that denotes an integer. *)
Lemma F2R_integer (c : float) (n : Z) :
  c = JS.of_Z n -> (Z.abs n < 2 ^ 53)%Z ->
  JS.isFinite c = true /\ F2R c = IZR n.
Proof. intros -> Hn. now apply of_Z_exact. Qed.

Lemma F2R_0 : F2R 0 = 0.
Proof. reflexivity. Qed.

Lemma F2R_1 : F2R 1 = 1.
Proof. apply (F2R_integer 1 1); [vm_compute; reflexivity | lia]. Qed.

Lemma F2R_59 : F2R 59 = 59.
Proof. apply (F2R_integer 59 59); [vm_compute; reflexivity | lia]. Qed.

Lemma F2R_60 : F2R 60 = 60.
Proof. apply (F2R_integer 60 60); [vm_compute; reflexivity | lia]. Qed.

Lemma F2R_90 : F2R 90 = 90.
Proof. apply (F2R_integer 90 90); [vm_compute; reflexivity | lia]. Qed.

Lemma F2R_180 : F2R 180 = 180.
Proof. apply (F2R_integer 180 180); [vm_compute; reflexivity | lia]. Qed.

Lemma F2R_360 : F2R 360 = 360.
Proof. apply (F2R_integer 360 360); [vm_compute; reflexivity | lia]. Qed.

Lemma F2R_540 : F2R 540 = 540.
Proof. apply (F2R_integer 540 540); [vm_compute; reflexivity | lia]. Qed.

Lemma representable_dyadic (M E : Z) :
  (Z.abs M < 2 ^ 53)%Z -> (-1074 <= E <= 971)%Z ->
  representable (IZR M * pow2 E).
Proof. intros HM HE. exists M, E. auto. Qed.

(** The number of the format just below 1. *)
Lemma below_one (u : R) :
  representable u -> u < 1 -> u <= 1 - pow2 (-53).
Proof.
  intros Hu Hlt.
  destruct (grid_gap (2 ^ 53 - 1) (-53) u ltac:(lia) ltac:(lia)
              ltac:(right; lia) Hu) as [H | H].
  - rewrite minus_IZR, <- (pow2_IZR 53) in H by lia.
    rewrite Rmult_minus_distr_r, <- pow2_add in H.
    change (53 + -53)%Z with 0%Z in H. rewrite pow2_0 in H. lra.
  - rewrite minus_IZR, <- (pow2_IZR 53) in H by lia.
    replace (pow2 53 - 1 + 1) with (pow2 53) in H by ring.
    rewrite <- pow2_add in H. change (53 + -53)%Z with 0%Z in H.
    rewrite pow2_0 in H. lra.
Qed.
End Literals.

(** *** Fractional parts *)

Section Fractions.
Local Open Scope R_scope.

(** The fractional part of a non-negative number of the format is a number
    of the format. *)
Lemma fraction_representable (a : float) (n : Z) :
  JS.isFinite a = true -> 0 <= F2R a ->
  IZR n <= F2R a < IZR n + 1 ->
  representable (F2R a - IZR n).
Proof.
  intros Fa Ha Hn. unfold JS.isFinite in Fa. unfold F2R in *.
  pose proof (Prim2SF_valid a) as Va.
  assert (Hn0 : (0 <= n)%Z).
  { assert (H : IZR (-1) < IZR n) by lra.
    apply lt_IZR in H. lia. }
  destruct (Prim2SF a) as [s | s | | s m e]; try discriminate Fa.
  - cbn [SF2R] in *. assert (E : n = 0%Z).
    { assert (H : IZR n < IZR 1) by lra. apply lt_IZR in H. lia. }
    subst n. replace (0 - 0) with 0 by ring. apply representable_0.
  - destruct (valid_shape s m e Va) as (Hm & He & _).
    pose proof (pow2_pos e) as HP.
    assert (Hm0 : 0 < IZR (Zpos m)) by (apply IZR_lt; lia).
    cbn [SF2R] in *. rewrite IZR_cond_Zopp in *.
    destruct s; [exfalso; nra | ].
    destruct (Z.le_gt_cases 0 e) as [Hpos | Hneg].
    + rewrite pow2_IZR, <- mult_IZR in * by lia.
      assert (E : n = (Zpos m * 2 ^ e)%Z).
      { destruct Hn as [H1 H2]. apply le_IZR in H1.
        rewrite <- plus_IZR in H2. apply lt_IZR in H2. lia. }
      rewrite E. replace (IZR (Zpos m * 2 ^ e) - IZR (Zpos m * 2 ^ e)) with 0
        by ring.
      apply representable_0.
    + set (k := (- e)%Z). assert (Hk : (0 < k)%Z) by (unfold k; lia).
      assert (Epow : pow2 e * IZR (2 ^ k) = 1).
      { rewrite <- pow2_IZR, <- pow2_add by lia.
        replace (e + k)%Z with 0%Z by (unfold k; lia). apply pow2_0. }
      assert (HPk : 0 < IZR (2 ^ k)).
      { apply IZR_lt. apply Z.pow_pos_nonneg; lia. }
      assert (Hle : (n * 2 ^ k <= Zpos m)%Z).
      { apply le_IZR. rewrite mult_IZR.
        apply Rle_trans with (IZR (Zpos m) * pow2 e * IZR (2 ^ k)); [nra | ].
        rewrite Rmult_assoc, Epow. lra. }
      replace (IZR (Zpos m) * pow2 e - IZR n)
        with (IZR (Zpos m - n * 2 ^ k) * pow2 e).
      * apply representable_dyadic; [ | lia].
        assert (0 <= n * 2 ^ k)%Z by (apply Z.mul_nonneg_nonneg; lia).
        lia.
      * rewrite minus_IZR, mult_IZR, Rmult_minus_distr_r.
        rewrite (Rmult_assoc (IZR n)), (Rmult_comm (IZR (2 ^ k))), Epow.
        ring.
Qed.

(** Subtracting its floor from a non-negative number is exact and leaves a
    number of the format below 1. *)
Lemma fraction_exact (a : float) :
  JS.isFinite a = true -> 0 <= F2R a ->
  JS.isFinite (a - JS.Math_floor a)%float = true /\
  0 <= F2R (a - JS.Math_floor a)%float <= 1 - pow2 (-53).
Proof.
  intros Fa Ha.
  destruct (Math_floor_spec a Fa) as (Ff & n & En & Hn).
  pose proof (fraction_representable a n Fa Ha Hn) as Hr.
  rewrite <- En in Hr.
  destruct (sub_exact a (JS.Math_floor a) Fa Ff Hr) as [HF HE].
  split; [exact HF | ]. rewrite HE.
  split; [lra | ]. apply below_one; [exact Hr | lra].
Qed.

Lemma representable_59 : representable (60 - pow2 (-47)).
Proof.
  replace (60 - pow2 (-47)) with (IZR (60 * 2 ^ 47 - 1) * pow2 (-47)).
  - apply representable_dyadic; lia.
  - rewrite minus_IZR, mult_IZR, <- (pow2_IZR 47) by lia.
    rewrite Rmult_minus_distr_r, Rmult_assoc, <- pow2_add.
    change (47 + -47)%Z with 0%Z. rewrite pow2_0. ring.
Qed.

(** Sixty times a fraction never reaches 60: the product rounds to a number
    of the format below 60. *)
Lemma sixty_times_fraction (f : float) :
  JS.isFinite f = true -> 0 <= F2R f <= 1 - pow2 (-53) ->
  JS.isFinite (f * 60)%float = true /\ 0 <= F2R (f * 60)%float < 60.
Proof.
  intros Ff Hf.
  assert (F60 : JS.isFinite 60 = true) by reflexivity.
  assert (Hr60 : representable 60).
  { replace 60 with (IZR 60) by reflexivity. apply representable_IZR. lia. }
  pose proof (pow2_pos (-53)) as HP.
  assert (Hp : 0 <= F2R f * F2R 60 <= 60 - 60 * pow2 (-53)).
  { rewrite F2R_60. lra. }
  destruct (mul_rounds f 60 60 Ff F60 Hr60) as [HF HR].
  { rewrite Rabs_pos_eq; lra. }
  split; [exact HF | ]. split.
  - apply (rounds_to_ge _ _ 0 HR representable_0). lra.
  - destruct HR as [_ Hnear]. specialize (Hnear _ representable_59).
    assert (E : pow2 (-47) = 64 * pow2 (-53)).
    { replace (-47)%Z with (6 + -53)%Z by lia. rewrite pow2_add.
      rewrite (pow2_IZR 6) by lia. reflexivity. }
    destruct (Rlt_or_le (F2R (f * 60)%float) 60) as [ | Hge]; [assumption | ].
    exfalso. rewrite E in Hnear.
    unfold Rabs in Hnear; repeat destruct Rcase_abs; lra.
Qed.
End Fractions.

(** ** The ranges of degrees, minutes and seconds *)

Section SexagesimalRanges.
Local Open Scope R_scope.

Lemma finite_nonneg_sign (x : float) (s : bool) (m : positive) (e : Z) :
  Prim2SF x = S754_finite s m e -> 0 <= F2R x -> s = false.
Proof.
  intros E H. unfold F2R in H. rewrite E in H. cbn [SF2R] in H.
  pose proof (pow2_pos e). assert (0 < IZR (Zpos m)) by (apply IZR_lt; lia).
  destruct s; [ | reflexivity]. cbn [cond_Zopp] in H.
  rewrite opp_IZR in H. nra.
Qed.

(** [toFixed(2)] of a number in [0, 60) spells a multiple of 0.01 in
    [0, 60]. *)
Lemma toFixed_below_60 (x : float) :
  JS.isFinite x = true -> 0 <= F2R x < 60 ->
  exists n : Z, JS.toFixed x 2 = JS.Fixed false n 2 /\ (0 <= n <= 6000)%Z.
Proof.
  intros Fx Hx. unfold JS.toFixed.
  pose proof (Prim2SF_valid x) as Vx.
  assert (Hsmall : (1e21 <=? PrimFloat.abs x)%float = false).
  { apply leb_F2R_false; [reflexivity | now rewrite isFinite_abs | ].
    rewrite F2R_abs, Rabs_pos_eq by lra.
    assert (H : F2R 60 <= F2R 1e21)
      by (apply leb_F2R; reflexivity).
    rewrite F2R_60 in H. lra. }
  rewrite Hsmall. unfold JS.isFinite in Fx.
  destruct (Prim2SF x) as [s | s | | s m e] eqn:Ex; try discriminate Fx.
  - exists 0%Z. split; [reflexivity | lia].
  - pose proof (finite_nonneg_sign x s m e Ex (proj1 Hx)) as Es. subst s.
    rewrite (F2R_finite x _ _ _ Ex) in Hx. cbn [cond_Zopp] in Hx.
    change (10 ^ Z.of_nat 2)%Z with 100%Z.
    destruct (Z.leb_spec 0 e) as [Hpos | Hneg].
    + eexists. split; [reflexivity | ].
      rewrite Z.shiftl_mul_pow2 by lia.
      rewrite pow2_IZR, <- mult_IZR in Hx by lia.
      destruct Hx as [_ Hx]. apply lt_IZR in Hx.
      assert (0 < 2 ^ e)%Z by (apply Z.pow_pos_nonneg; lia).
      replace (Zpos m * 100 * 2 ^ e)%Z with (100 * (Zpos m * 2 ^ e))%Z by ring.
      assert (0 < Zpos m * 2 ^ e)%Z by (apply Z.mul_pos_pos; lia).
      lia.
    + eexists. split; [reflexivity | ].
      set (k := (- e)%Z). assert (Hk : (0 < k)%Z) by (unfold k; lia).
      assert (Hp : (0 < 2 ^ k)%Z) by (apply Z.pow_pos_nonneg; lia).
      assert (Hm : (Zpos m < 60 * 2 ^ k)%Z).
      { apply lt_IZR. rewrite mult_IZR, <- pow2_IZR by lia.
        destruct Hx as [_ Hx].
        assert (E : pow2 e * pow2 k = 1).
        { rewrite <- pow2_add. replace (e + k)%Z with 0%Z by (unfold k; lia).
          apply pow2_0. }
        pose proof (pow2_pos k). pose proof (pow2_pos e).
        apply Rmult_lt_reg_r with (pow2 e); [assumption | ].
        rewrite (Rmult_assoc 60), (Rmult_comm (pow2 k)), E. lra. }
      rewrite !Z.shiftl_mul_pow2, Z.shiftr_div_pow2 by lia.
      replace (- e + 1)%Z with (k + 1)%Z by (unfold k; lia).
      fold k. rewrite Z.pow_add_r by lia. change (2 ^ 1)%Z with 2%Z.
      split.
      * apply Z.div_pos; lia.
      * apply Z.lt_succ_r. apply Z.div_lt_upper_bound; lia.
Qed.

Lemma parseFloat_within_60 (n : Z) :
  (0 <= n <= 6000)%Z ->
  JS.isFinite (JS.parseFloat (JS.Fixed false n 2)) = true /\
  0 <= F2R (JS.parseFloat (JS.Fixed false n 2)) <= 60.
Proof.
  intros Hn. cbn [JS.parseFloat].
  change (Z.to_pos (10 ^ Z.of_nat 2)) with 100%positive.
  assert (Hq : 0 <= IZR n / IZR 100 <= 60).
  { assert (0 <= IZR n <= IZR 6000) by (split; apply IZR_le; lia).
    unfold Rdiv. split; lra. }
  assert (Hr60 : representable 60).
  { replace 60 with (IZR 60) by reflexivity. apply representable_IZR. lia. }
  destruct (nearest_rounds n 100 60 Hr60) as [HF HR].
  { rewrite Rabs_pos_eq; lra. }
  split; [exact HF | split].
  - apply (rounds_to_ge _ _ 0 HR representable_0). lra.
  - apply (rounds_to_le _ _ 60 HR Hr60). lra.
Qed.

Lemma mul_exact (x y : float) :
  JS.isFinite x = true -> JS.isFinite y = true ->
  representable (F2R x * F2R y) ->
  JS.isFinite (x * y)%float = true /\ F2R (x * y)%float = F2R x * F2R y.
Proof.
  intros Fx Fy Hr.
  destruct (mul_rounds x y (Rabs (F2R x * F2R y)) Fx Fy
              (representable_Rabs _ Hr) (Rle_refl _)) as [HF HR].
  split; [exact HF | ]. now apply rounds_to_representable.
Qed.

Lemma F2R_minus_1 : F2R (-1) = -1.
Proof.
  change (-1)%float with (PrimFloat.opp 1). rewrite F2R_opp, F2R_1. ring.
Qed.

(** The three components [decimalToDMS] computes for a finite input: the
    degrees are the integer part with the sign of the input, the minutes are
    an integer from 0 to 59 and the seconds lie from 0 to 60. *)
Lemma decimalToDMS_parts (x : float) :
  JS.isFinite x = true ->
  (JS.isFinite (degrees (decimalToDMS x)) = true /\
   Rabs (F2R (degrees (decimalToDMS x))) <= Rabs (F2R x)) /\
  (JS.isFinite (minutes (decimalToDMS x)) = true /\
   exists n : Z, F2R (minutes (decimalToDMS x)) = IZR n /\ (0 <= n <= 59)%Z) /\
  (JS.isFinite (seconds (decimalToDMS x)) = true /\
   0 <= F2R (seconds (decimalToDMS x)) <= 60).
Proof.
  intros Fx. unfold decimalToDMS. cbn [degrees minutes seconds].
  set (a := PrimFloat.abs x).
  assert (Fa : JS.isFinite a = true) by (unfold a; now rewrite isFinite_abs).
  assert (Ea : F2R a = Rabs (F2R x)) by (unfold a; apply F2R_abs).
  assert (Ha : 0 <= F2R a) by (rewrite Ea; apply Rabs_pos).
  destruct (Math_floor_spec a Fa) as (Fd & n0 & En0 & Hn0).
  assert (Hsign : forall sign : float,
             JS.isFinite sign = true -> Rabs (F2R sign) = 1 ->
             JS.isFinite (sign * JS.Math_floor a)%float = true /\
             Rabs (F2R (sign * JS.Math_floor a)%float) <= Rabs (F2R x)).
  { intros sign Fs Hs.
    assert (Hn0' : 0 <= IZR n0).
    { assert (H : IZR (-1) < IZR n0) by lra. apply lt_IZR in H.
      apply IZR_le. lia. }
    assert (Hr : representable (F2R sign * F2R (JS.Math_floor a))).
    { unfold Rabs in Hs. destruct Rcase_abs.
      - replace (F2R sign) with (-1) by lra.
        replace (-1 * F2R (JS.Math_floor a))
          with (- F2R (JS.Math_floor a)) by ring.
        apply representable_opp, representable_F2R.
      - replace (F2R sign) with 1 by lra. rewrite Rmult_1_l.
        apply representable_F2R. }
    destruct (mul_exact sign (JS.Math_floor a) Fs Fd Hr) as [HF HE].
    split; [exact HF | ]. rewrite HE, Rabs_mult, Hs, Rmult_1_l, En0.
    rewrite Rabs_pos_eq by assumption. lra. }
  split.
  { destruct (x <? 0)%float.
    - apply Hsign; [reflexivity | ]. rewrite F2R_minus_1.
      unfold Rabs. destruct Rcase_abs; lra.
    - apply Hsign; [reflexivity | ]. rewrite F2R_1. apply Rabs_R1. }
  destruct (fraction_exact a Fa Ha) as [Ff Hf].
  destruct (sixty_times_fraction _ Ff Hf) as [Fm Hm].
  set (mf := ((a - JS.Math_floor a) * 60)%float) in *.
  destruct (Math_floor_spec mf Fm) as (Fmin & n1 & En1 & Hn1).
  assert (Hn1' : (0 <= n1 <= 59)%Z).
  { split.
    - assert (H : IZR (-1) < IZR n1) by lra. apply lt_IZR in H. lia.
    - assert (H : IZR n1 < IZR 60) by lra. apply lt_IZR in H. lia. }
  split; [split; [exact Fmin | now exists n1] | ].
  destruct (fraction_exact mf Fm (proj1 Hm)) as [Fg Hg].
  destruct (sixty_times_fraction _ Fg Hg) as [Fs Hs].
  destruct (toFixed_below_60 _ Fs Hs) as (n & -> & Hn).
  exact (parseFloat_within_60 n Hn).
Qed.

(** X8.  For every finite coordinate the minutes [decimalToDMS] returns lie
    in [0, 59] and the seconds in [0, 60]: the minutes never reach 60; the
    seconds, rounded to two decimals without a carry, can. *)
Theorem decimalToDMS_in_range (x : float) :
  JS.isFinite x = true ->
  ((0 <=? minutes (decimalToDMS x)) && (minutes (decimalToDMS x) <=? 59)
   = true)%float /\
  ((0 <=? seconds (decimalToDMS x)) && (seconds (decimalToDMS x) <=? 60)
   = true)%float.
Proof.
  intros Fx.
  destruct (decimalToDMS_parts x Fx)
    as (_ & (Fm & n & En & Hn) & (Fs & Hs)).
  split; apply andb_true_iff; split.
  - apply leb_F2R; [reflexivity | assumption | ]. rewrite F2R_0, En.
    apply IZR_le. lia.
  - apply leb_F2R; [assumption | reflexivity | ]. rewrite F2R_59, En.
    apply IZR_le. lia.
  - apply leb_F2R; [reflexivity | assumption | ]. rewrite F2R_0. lra.
  - apply leb_F2R; [assumption | reflexivity | ]. rewrite F2R_60. lra.
Qed.

Lemma decimalToDMS_in_range_witness :
  JS.isFinite 10.762622 = true /\
  ((0 <=? minutes (decimalToDMS 10.762622))
   && (minutes (decimalToDMS 10.762622) <=? 59) = true)%float /\
  ((0 <=? seconds (decimalToDMS 10.762622))
   && (seconds (decimalToDMS 10.762622) <=? 60) = true)%float.
Proof.
  split; [reflexivity | ]. apply (decimalToDMS_in_range 10.762622).
  reflexivity.
Defined.

Lemma finite_not_nan (x : float) : JS.isFinite x = true -> JS.isNaN x = false.
Proof.
  intros Fx. apply not_true_is_false. intros N. apply isNaN_spec in N.
  unfold JS.isFinite in Fx. rewrite N in Fx. discriminate Fx.
Qed.

(** A number whose magnitude a finite bound dominates is finite. *)
Lemma abs_leb_finite (x c : float) :
  JS.isFinite c = true -> (PrimFloat.abs x <=? c)%float = true ->
  JS.isFinite x = true.
Proof.
  intros Fc Hx. rewrite <- isFinite_abs. rewrite leb_spec in Hx.
  unfold JS.isFinite in *. unfold SFleb in Hx.
  destruct (Prim2SF (PrimFloat.abs x)) as [s | s | | s m e] eqn:E;
    try reflexivity; try discriminate Hx.
  rewrite abs_spec in E. destruct (Prim2SF x); cbn in E; try discriminate E.
  injection E as <-. cbn in Hx.
  destruct (Prim2SF c) as [ | [ | ] | | ]; cbn in *; discriminate.
Qed.

(** X9.  What [validateDMS] answers on the output of [decimalToDMS], for a
    coordinate of magnitude at most 90 with the type lat, or at most 180
    with any other type: the triple passes unless its seconds are 60, and
    then the diagnostic of the seconds is returned. *)
Theorem validateDMS_of_decimalToDMS (x : float) (type : string) :
  (PrimFloat.abs x <=? (if String.eqb type "lat" then 90 else 180))%float
  = true ->
  validateDMS (degrees (decimalToDMS x)) (minutes (decimalToDMS x))
    (seconds (decimalToDMS x)) type
  = if (60 <=? seconds (decimalToDMS x))%float
    then "Giây phải trong khoảng 0-59.99"%string else EmptyString.
Proof.
  intros Hx.
  set (bound := (if String.eqb type "lat" then 90 else 180)%float) in *.
  assert (Fb : JS.isFinite bound = true)
    by (unfold bound; destruct (String.eqb type "lat"); reflexivity).
  assert (Fx : JS.isFinite x = true) by exact (abs_leb_finite x bound Fb Hx).
  assert (Hx' : (Rabs (F2R x) <= F2R bound)%R).
  { rewrite <- F2R_abs.
    apply leb_F2R; [now rewrite isFinite_abs | exact Fb | exact Hx]. }
  destruct (decimalToDMS_parts x Fx)
    as ((Fd & Hd) & (Fm & n & En & Hn) & (Fs & Hs)).
  unfold validateDMS.
  rewrite (finite_not_nan _ Fd), (finite_not_nan _ Fm), (finite_not_nan _ Fs).
  cbn [orb].
  assert (E1 : (minutes (decimalToDMS x) <? 0)%float = false).
  { apply ltb_F2R_false; [assumption | reflexivity | ]. rewrite F2R_0, En.
    apply IZR_le. lia. }
  assert (E2 : (60 <=? minutes (decimalToDMS x))%float = false).
  { apply leb_F2R_false; [reflexivity | assumption | ]. rewrite F2R_60, En.
    apply IZR_lt. lia. }
  assert (E3 : (seconds (decimalToDMS x) <? 0)%float = false).
  { apply ltb_F2R_false; [assumption | reflexivity | ]. rewrite F2R_0.
    apply Hs. }
  assert (E4 : (bound <? PrimFloat.abs (degrees (decimalToDMS x)))%float
               = false).
  { apply ltb_F2R_false; [exact Fb | now rewrite isFinite_abs | ].
    rewrite F2R_abs. apply Rle_trans with (1 := Hd). exact Hx'. }
  rewrite E1, E2, E3. cbn [orb]. unfold bound in E4.
  destruct (60 <=? seconds (decimalToDMS x))%float; [reflexivity | ].
  destruct (String.eqb type "lat").
  - now rewrite E4.
  - destruct (String.eqb type "lon"); [now rewrite E4 | reflexivity].
Qed.

Lemma validateDMS_of_decimalToDMS_witness :
  (PrimFloat.abs 106.660172
   <=? (if String.eqb "lon" "lat" then 90 else 180))%float = true /\
  validateDMS (degrees (decimalToDMS 106.660172))
    (minutes (decimalToDMS 106.660172)) (seconds (decimalToDMS 106.660172))
    "lon"%string
  = if (60 <=? seconds (decimalToDMS 106.660172))%float
    then "Giây phải trong khoảng 0-59.99"%string else EmptyString.
Proof.
  split; [reflexivity | ].
  apply (validateDMS_of_decimalToDMS 106.660172 "lon"%string). reflexivity.
Defined.
End SexagesimalRanges.

(** ** NaN through the operations *)

Section NotANumber.
Local Open Scope float_scope.

Lemma mul_nan_l (x y : float) : JS.isNaN x = true -> JS.isNaN (x * y) = true.
Proof.
  rewrite !isNaN_spec, mul_spec. intros ->. reflexivity.
Qed.

Lemma add_nan_l (x y : float) : JS.isNaN x = true -> JS.isNaN (x + y) = true.
Proof.
  rewrite !isNaN_spec, add_spec. intros ->. reflexivity.
Qed.

Lemma add_nan_r (x y : float) : JS.isNaN y = true -> JS.isNaN (x + y) = true.
Proof.
  rewrite !isNaN_spec, add_spec. intros ->.
  now destruct (Prim2SF x).
Qed.

Lemma sub_nan_l (x y : float) : JS.isNaN x = true -> JS.isNaN (x - y) = true.
Proof.
  rewrite !isNaN_spec, sub_spec. intros ->. reflexivity.
Qed.

Lemma rem_nan_l (x y : float) : JS.isNaN x = true -> JS.isNaN (JS.rem x y) = true.
Proof.
  rewrite isNaN_spec. unfold JS.rem. intros ->. reflexivity.
Qed.

Lemma within_cases (bound x : float) :
  JS.isFinite bound = true -> within bound x = true ->
  JS.isNaN x = true \/
  (JS.isFinite x = true /\ (Rabs (F2R x) <= F2R bound)%R).
Proof.
  intros Fb H. unfold within in H. apply orb_true_iff in H.
  destruct H as [H | H]; [now left | right].
  assert (Fx : JS.isFinite x = true).
  { rewrite <- isFinite_abs. unfold JS.isFinite in *.
    rewrite leb_spec in H. unfold SFleb in H.
    destruct (Prim2SF (PrimFloat.abs x)) as [s | s | | s m e] eqn:E;
      try reflexivity; try discriminate H.
    rewrite abs_spec in E. destruct (Prim2SF x); cbn in E; try discriminate E.
    injection E as <-.
    destruct (Prim2SF bound); try discriminate Fb; discriminate H. }
  split; [exact Fx | ]. rewrite <- F2R_abs.
  apply leb_F2R; [now rewrite isFinite_abs | assumption | exact H].
Qed.
End NotANumber.

(** ** The [%] operator *)

Section Remainder.
Local Open Scope R_scope.

(** The [%] operator on a non-negative dividend and a positive divisor: the
    result lies in [0, divisor). *)
Lemma rem_range (x y : float) :
  JS.isFinite x = true -> JS.isFinite y = true ->
  0 <= F2R x -> 0 < F2R y ->
  JS.isFinite (JS.rem x y) = true /\ 0 <= F2R (JS.rem x y) < F2R y.
Proof.
  intros Fx Fy Hx Hy. unfold JS.rem.
  pose proof (Prim2SF_valid x) as Vx. pose proof (Prim2SF_valid y) as Vy.
  unfold JS.isFinite in Fx, Fy.
  assert (Ex0 : F2R x = SF2R (Prim2SF x)) by reflexivity.
  assert (Ey0 : F2R y = SF2R (Prim2SF y)) by reflexivity.
  destruct (Prim2SF y) as [sy | sy | | sy my ey] eqn:Ey;
    try discriminate Fy.
  { cbn [SF2R] in Ey0. lra. }
  destruct (Prim2SF x) as [sx | sx | | sx mx ex] eqn:Ex;
    try discriminate Fx.
  { split; [unfold JS.isFinite; now rewrite Ex | ].
    rewrite Ex0. cbn [SF2R]. lra. }
  assert (Esx : sx = false) by exact (finite_nonneg_sign x sx mx ex Ex Hx).
  assert (Esy : sy = false).
  { apply (finite_nonneg_sign y sy my ey Ey). lra. }
  subst sx sy.
  destruct (valid_shape _ _ _ Vx) as (Hmx & Hex & _).
  destruct (valid_shape _ _ _ Vy) as (Hmy & Hey & _).
  set (e := Z.min ex ey).
  rewrite !Z.shiftl_mul_pow2 by (unfold e; lia).
  set (X := (Zpos mx * 2 ^ (ex - e))%Z). set (Y := (Zpos my * 2 ^ (ey - e))%Z).
  assert (HY : (0 < Y)%Z).
  { unfold Y. apply Z.mul_pos_pos; [lia | ].
    apply Z.pow_pos_nonneg; unfold e; lia. }
  assert (HX : (0 < X)%Z).
  { unfold X. apply Z.mul_pos_pos; [lia | ].
    apply Z.pow_pos_nonneg; unfold e; lia. }
  pose proof (Z.mod_pos_bound X Y HY) as Hr.
  assert (Hr' : (X mod Y <= X)%Z) by (apply Z.mod_le; lia).
  set (r := (X mod Y)%Z) in *.
  assert (Hsmall : (r < 2 ^ 53)%Z).
  { destruct (Z.le_ge_cases ex ey).
    - assert (E : X = Zpos mx).
      { unfold X. replace (ex - e)%Z with 0%Z by (unfold e; lia). lia. }
      lia.
    - assert (E : Y = Zpos my).
      { unfold Y. replace (ey - e)%Z with 0%Z by (unfold e; lia). lia. }
      lia. }
  assert (Hrep : representable (IZR r * pow2 e)).
  { apply representable_dyadic; unfold e; lia. }
  assert (Hr0 : 0 <= IZR r * pow2 e).
  { pose proof (pow2_pos e). assert (0 <= IZR r) by (apply IZR_le; lia). nra. }
  destruct (binary_normalize_correct r e (IZR r * pow2 e) Hrep)
    as (HV & HF & HR).
  { rewrite Rabs_pos_eq by assumption. lra. }
  apply rounds_to_representable in HR; [ | exact Hrep].
  unfold JS.isFinite, F2R at 1 2. rewrite (Prim2SF_SF2Prim _ HV).
  split; [exact HF | ]. rewrite HR. split; [exact Hr0 | ].
  rewrite Ey0. cbn [SF2R cond_Zopp].
  rewrite (pow2_shift (Zpos my) ey e) by (unfold e; lia). fold Y.
  pose proof (pow2_pos e). assert (IZR r < IZR Y) by (apply IZR_lt; lia).
  nra.
Qed.

End Remainder.

(** ** Ranges of the bearing and of the target (binary64) *)

Section HostedRanges.
Local Open Scope R_scope.

(** The number of the format just below 360. *)
Lemma below_360 (u : R) :
  representable u -> u < 360 -> u <= 360 - pow2 (-44).
Proof.
  intros Hu Hlt.
  assert (E : IZR (360 * 2 ^ 44) * pow2 (-44) = 360).
  { rewrite mult_IZR, <- (pow2_IZR 44), Rmult_assoc, <- pow2_add by lia.
    change (44 + -44)%Z with 0%Z. rewrite pow2_0. ring. }
  destruct (grid_gap (360 * 2 ^ 44 - 1) (-44) u ltac:(lia) ltac:(lia)
              ltac:(right; lia) Hu) as [H | H].
  - rewrite minus_IZR, Rmult_minus_distr_r, E in H. lra.
  - replace (IZR (360 * 2 ^ 44 - 1) + 1) with (IZR (360 * 2 ^ 44)) in H
      by (rewrite minus_IZR; ring).
    rewrite E in H. lra.
Qed.

Lemma representable_below_180 : representable (180 - pow2 (-44)).
Proof.
  replace (180 - pow2 (-44)) with (IZR (180 * 2 ^ 44 - 1) * pow2 (-44)).
  - apply representable_dyadic; lia.
  - rewrite minus_IZR, mult_IZR, <- (pow2_IZR 44) by lia.
    rewrite Rmult_minus_distr_r, Rmult_assoc, <- pow2_add.
    change (44 + -44)%Z with 0%Z. rewrite pow2_0. ring.
Qed.

(** The degrees of an angle the host returns within [-pi, pi]. *)
Lemma degrees_of_radians (t : float) :
  JS.isFinite t = true -> Rabs (F2R t) <= F2R JS.Math_PI ->
  JS.isFinite (t * (JS.literal 180 / JS.Math_PI))%float = true /\
  -180 <= F2R (t * (JS.literal 180 / JS.Math_PI))%float <= 180.
Proof.
  intros Ft Ht.
  evaluate (JS.literal 180 / JS.Math_PI)%float.
  apply mul_between; try reflexivity; try assumption.
  - replace (-180) with (IZR (-180)) by reflexivity. apply representable_IZR. lia.
  - replace 180 with (IZR 180) by reflexivity. apply representable_IZR. lia.
  - literal_value JS.Math_PI.
    literal_value 57.295779513082323%float.
    unfold Rabs in Ht. destruct Rcase_abs; nra.
Qed.

(** X11.  The bearing is NaN or lies in [0, 360), whatever the host
    computes, as long as its [atan2] stays within [-pi, pi]. *)
Theorem calculateBearing_range_binary64 (h : HostMath) :
  (forall y x, within JS.Math_PI (host_atan2 h y x) = true) ->
  forall lat1 lon1 lat2 lon2 : float,
    let b := calculateBearing (Binary64 h) lat1 lon1 lat2 lon2 in
    JS.isNaN b = true \/ ((0 <=? b) && (b <? 360))%float = true.
Proof.
  intros Hatan2 lat1 lon1 lat2 lon2.
  unfold calculateBearing, RAD_TO_DEG.
  cbn [Binary64 lit Math_PI nadd nsub nmul ndiv nrem Math_sin Math_cos
       Math_atan2].
  set (theta := host_atan2 h _ _).
  evaluate (JS.literal 360). set (b := JS.rem _ _).
  destruct (within_cases JS.Math_PI theta eq_refl (Hatan2 _ _))
    as [HN | [Ft Ht]].
  - left. unfold b. now apply rem_nan_l, add_nan_l, mul_nan_l.
  - right.
    destruct (degrees_of_radians theta Ft Ht) as [Fd Hd].
    set (d := (theta * (JS.literal 180 / JS.Math_PI))%float) in *.
    destruct (add_between d 360 180 540 Fd eq_refl) as [Fs Hs].
    { replace 180 with (IZR 180) by reflexivity. apply representable_IZR. lia. }
    { replace 540 with (IZR 540) by reflexivity. apply representable_IZR. lia. }
    { rewrite F2R_360. lra. }
    destruct (rem_range (d + 360)%float 360 Fs eq_refl) as [Fr Hr].
    { lra. }
    { rewrite F2R_360. lra. }
    fold b in Fr, Hr. apply andb_true_iff. split.
    + apply leb_F2R; [reflexivity | assumption | ]. rewrite F2R_0. lra.
    + apply ltb_F2R; [assumption | reflexivity | ]. lra.
Qed.

Lemma calculateBearing_range_binary64_witness :
  (forall y x, within JS.Math_PI (host_atan2 flatHost y x) = true) /\
  let b :=
    calculateBearing (Binary64 flatHost) 10%float 106%float 11%float
      107%float in
  JS.isNaN b = true \/ ((0 <=? b) && (b <? 360))%float = true.
Proof.
  assert (H : forall y x, within JS.Math_PI (host_atan2 flatHost y x) = true)
    by reflexivity.
  split; [exact H | ].
  exact (calculateBearing_range_binary64 flatHost H
           10%float 106%float 11%float 107%float).
Defined.

(** The latitude of the target is NaN or lies in [-90, 90] when the host's
    [asin] stays within [-pi/2, pi/2]. *)
Lemma target_latitude_range (h : HostMath) :
  (forall x, within (JS.Math_PI / 2) (host_asin h x) = true) ->
  forall lat0 lon0 azimuthDeg distanceKm : float,
    let target :=
      calculateTargetCoordinate (Binary64 h) lat0 lon0 azimuthDeg distanceKm in
    JS.isNaN (lat target) = true \/
    ((-90 <=? lat target) && (lat target <=? 90))%float = true.
Proof.
  intros Hasin lat0 lon0 az dist.
  unfold calculateTargetCoordinate, RAD_TO_DEG, DEG_TO_RAD.
  cbn [Binary64 lit Math_PI nadd nsub nmul ndiv nrem Math_sin Math_cos
       Math_asin Math_atan2 lat lon].
  set (lat2 := host_asin h _). evaluate (JS.literal 180).
  destruct (within_cases (JS.Math_PI / 2)%float lat2 eq_refl (Hasin _))
    as [HN | [Fl Hl]].
  - left. now apply mul_nan_l.
  - right.
    destruct (mul_between lat2 (180 / JS.Math_PI)%float (-90) 90 Fl eq_refl)
      as [Fd Hd].
    { replace (-90) with (IZR (-90)) by reflexivity.
      apply representable_IZR. lia. }
    { replace 90 with (IZR 90) by reflexivity. apply representable_IZR. lia. }
    { replace (JS.Math_PI / 2)%float with 1.5707963267948966%float in Hl
        by (vm_compute; reflexivity).
      evaluate (180 / JS.Math_PI)%float.
      literal_value 1.5707963267948966%float.
      literal_value 57.295779513082323%float.
      unfold Rabs in Hl. destruct Rcase_abs; nra. }
    apply andb_true_iff. split.
    + apply leb_F2R; [reflexivity | assumption | ].
      change (-90)%float with (PrimFloat.opp 90).
      rewrite F2R_opp, F2R_90. lra.
    + apply leb_F2R; [assumption | reflexivity | ]. rewrite F2R_90. lra.
Qed.

(** The longitude of the target is NaN or lies in [-180, 180) when the
    observer's longitude lies in [-180, 180] and the host's [atan2] stays
    within [-pi, pi]: the sum in radians stays below 8 in magnitude, its
    degrees below 459, so that adding 540 gives a positive number, whose
    remainder modulo 360 is exact. *)
Lemma target_longitude_range (h : HostMath) :
  (forall y x, within JS.Math_PI (host_atan2 h y x) = true) ->
  forall lat0 lon0 azimuthDeg distanceKm : float,
    ((-180 <=? lon0) && (lon0 <=? 180))%float = true ->
    let target :=
      calculateTargetCoordinate (Binary64 h) lat0 lon0 azimuthDeg distanceKm in
    JS.isNaN (lon target) = true \/
    ((-180 <=? lon target) && (lon target <? 180))%float = true.
Proof.
  intros Hatan2 lat0 lon0 az dist Hlon.
  unfold calculateTargetCoordinate, RAD_TO_DEG, DEG_TO_RAD.
  cbn [Binary64 lit Math_PI nadd nsub nmul ndiv nrem Math_sin Math_cos
       Math_asin Math_atan2 lat lon].
  set (dl := host_atan2 h _ _).
  evaluate (JS.literal 360). evaluate (JS.literal 540).
  evaluate (JS.literal 180).
  apply andb_true_iff in Hlon. destruct Hlon as [Hlo Hhi].
  assert (Flon : JS.isFinite lon0 = true).
  { unfold JS.isFinite. rewrite leb_spec in Hlo, Hhi.
    unfold SFleb in Hlo, Hhi.
    destruct (Prim2SF lon0) as [s | [ | ] | | s m e];
      try reflexivity; try discriminate Hlo; discriminate Hhi. }
  assert (Hl0 : -180 <= F2R lon0 <= 180).
  { split.
    - apply (leb_F2R (-180)%float lon0 eq_refl Flon) in Hlo.
      change (-180)%float with (PrimFloat.opp 180) in Hlo.
      rewrite F2R_opp, F2R_180 in Hlo. lra.
    - apply (leb_F2R lon0 180 Flon eq_refl) in Hhi.
      rewrite F2R_180 in Hhi. lra. }
  destruct (mul_between lon0 (JS.Math_PI / 180)%float (-4) 4 Flon eq_refl)
    as [F1 H1].
  { replace (-4) with (IZR (-4)) by reflexivity. apply representable_IZR. lia. }
  { replace 4 with (IZR 4) by reflexivity. apply representable_IZR. lia. }
  { evaluate (JS.Math_PI / 180)%float.
    literal_value 0.017453292519943295%float. nra. }
  set (lon1 := (lon0 * (JS.Math_PI / 180))%float) in *.
  destruct (within_cases JS.Math_PI dl eq_refl (Hatan2 _ _))
    as [HN | [Fa Ha]].
  - left.
    now apply sub_nan_l, rem_nan_l, add_nan_l, mul_nan_l, add_nan_r.
  - right.
    destruct (add_between lon1 dl (-8) 8 F1 Fa) as [F2 H2].
    { replace (-8) with (IZR (-8)) by reflexivity.
      apply representable_IZR. lia. }
    { replace 8 with (IZR 8) by reflexivity. apply representable_IZR. lia. }
    { literal_value JS.Math_PI.
      unfold Rabs in Ha. destruct Rcase_abs; lra. }
    set (lon2 := (lon1 + dl)%float) in *.
    destruct (mul_between lon2 (180 / JS.Math_PI)%float (-459) 459 F2 eq_refl)
      as [F3 H3].
    { replace (-459) with (IZR (-459)) by reflexivity.
      apply representable_IZR. lia. }
    { replace 459 with (IZR 459) by reflexivity.
      apply representable_IZR. lia. }
    { evaluate (180 / JS.Math_PI)%float.
      literal_value 57.295779513082323%float. nra. }
    set (deg := (lon2 * (180 / JS.Math_PI))%float) in *.
    destruct (add_between deg 540 81 999 F3 eq_refl) as [F4 H4].
    { replace 81 with (IZR 81) by reflexivity. apply representable_IZR. lia. }
    { replace 999 with (IZR 999) by reflexivity.
      apply representable_IZR. lia. }
    { rewrite F2R_540. lra. }
    destruct (rem_range (deg + 540)%float 360 F4 eq_refl) as [F5 H5].
    { lra. }
    { rewrite F2R_360. lra. }
    rewrite F2R_360 in H5.
    set (r := JS.rem (deg + 540)%float 360) in *.
    pose proof (below_360 (F2R r) (representable_F2R r) (proj2 H5)) as H5'.
    destruct (sub_between r 180 (-180) (180 - pow2 (-44)) F5 eq_refl)
      as [F6 H6].
    { replace (-180) with (IZR (-180)) by reflexivity.
      apply representable_IZR. lia. }
    { exact representable_below_180. }
    { rewrite F2R_180. lra. }
    pose proof (pow2_pos (-44)).
    apply andb_true_iff. split.
    + apply leb_F2R; [reflexivity | assumption | ].
      change (-180)%float with (PrimFloat.opp 180).
      rewrite F2R_opp, F2R_180. lra.
    + apply ltb_F2R; [assumption | reflexivity | ]. rewrite F2R_180. lra.
Qed.

(** X12.  The target is NaN or lies in the ranges of a coordinate, whatever
    the host computes, as long as its [asin] stays within [-pi/2, pi/2] and
    its [atan2] within [-pi, pi]: the latitude in [-90, 90] and, for an
    observer longitude in [-180, 180], the longitude in [-180, 180). *)
Theorem calculateTargetCoordinate_range_binary64 (h : HostMath) :
  (forall x, within (JS.Math_PI / 2) (host_asin h x) = true) ->
  (forall y x, within JS.Math_PI (host_atan2 h y x) = true) ->
  forall lat0 lon0 azimuthDeg distanceKm : float,
    ((-180 <=? lon0) && (lon0 <=? 180))%float = true ->
    let target :=
      calculateTargetCoordinate (Binary64 h) lat0 lon0 azimuthDeg distanceKm in
    (JS.isNaN (lat target) = true \/
     ((-90 <=? lat target) && (lat target <=? 90))%float = true) /\
    (JS.isNaN (lon target) = true \/
     ((-180 <=? lon target) && (lon target <? 180))%float = true).
Proof.
  intros Hasin Hatan2 lat0 lon0 az dist Hlon. split.
  - apply target_latitude_range. exact Hasin.
  - apply target_longitude_range; assumption.
Qed.

Lemma calculateTargetCoordinate_range_binary64_witness :
  ((forall x, within (JS.Math_PI / 2) (host_asin flatHost x) = true) /\
   (forall y x, within JS.Math_PI (host_atan2 flatHost y x) = true) /\
   ((-180 <=? 180) && (180 <=? 180))%float = true) /\
  let target :=
    calculateTargetCoordinate (Binary64 flatHost) 10%float 180%float 45%float
      2.5%float in
  (JS.isNaN (lat target) = true \/
   ((-90 <=? lat target) && (lat target <=? 90))%float = true) /\
  (JS.isNaN (lon target) = true \/
   ((-180 <=? lon target) && (lon target <? 180))%float = true).
Proof.
  assert (H1 : forall x, within (JS.Math_PI / 2) (host_asin flatHost x) = true)
    by reflexivity.
  assert (H2 : forall y x, within JS.Math_PI (host_atan2 flatHost y x) = true)
    by reflexivity.
  split; [repeat split; assumption || reflexivity | ].
  exact (calculateTargetCoordinate_range_binary64 flatHost H1 H2
           10%float 180%float 45%float 2.5%float eq_refl).
Defined.
End HostedRanges.

(** ** The sign of the error estimate *)

Section Estimate.
Local Open Scope float_scope.

Lemma round_aux_not_negative (m e : Z) (l : location) :
  SFltb (binary_round_aux prec emax false m e l) (S754_zero false) = false.
Proof.
  unfold binary_round_aux.
  destruct (shr_fexp prec emax m e l) as [mrs' e'].
  destruct (shr_fexp prec emax _ e' loc_Exact) as [mrs'' e''].
  destruct (shr_m mrs''); try reflexivity.
  destruct (e'' <=? emax - prec)%Z; reflexivity.
Qed.

(** A square root is never negative. *)
Lemma sqrt_not_negative (x : float) : (PrimFloat.sqrt x <? 0) = false.
Proof.
  rewrite ltb_spec, sqrt_spec. change (Prim2SF 0) with (S754_zero false).
  unfold SF64sqrt, SFsqrt.
  destruct (Prim2SF x) as [s | [ | ] | | [ | ] m e]; try reflexivity.
  destruct (SFsqrt_core_binary prec emax (Zpos m) e) as [[mz ez] lz].
  apply round_aux_not_negative.
Qed.

(** X15.  On binary64 the estimate is never below zero, whatever the
    arguments and whatever the host's sine and power return: the square root
    of the format gives NaN or a number that is not negative. *)
Theorem estimateError_not_negative (h : HostMath) (distanceKm : float)
    (gpsError azimuthError distanceError : option float) :
  (estimateError (Binary64 h) distanceKm gpsError azimuthError distanceError
   <? 0) = false.
Proof. unfold estimateError. cbn [Binary64 Math_sqrt]. apply sqrt_not_negative. Qed.
End Estimate.

(** ** The result of the calculator *)

Section CalculatorRanges.
Local Open Scope float_scope.

Lemma validateInput_empty_longitude (d : ValidationData) :
  validateInput d = EmptyString ->
  (-180 <=? data_lon d) && (data_lon d <=? 180) = true.
Proof.
  intros H. rewrite between_spec by reflexivity. unfold validateInput in H.
  destruct ((data_lat d <? LAT_MIN) || (LAT_MAX <? data_lat d));
    [discriminate H | ].
  unfold LON_MIN, LON_MAX in H.
  destruct ((data_lon d <? -180) || (180 <? data_lon d)); [discriminate H | ].
  destruct ((data_azimuth d <? AZIMUTH_MIN) || (AZIMUTH_MAX <? data_azimuth d));
    [discriminate H | ].
  destruct (data_distance d <=? 0); [discriminate H | ].
  destruct (100 <? data_distance d); [discriminate H | ].
  destruct (JS.isNaN (data_lon d)); [ | reflexivity].
  rewrite orb_true_r in H. cbn [orb] in H.
  destruct (JS.isNaN (data_lat d)); discriminate H.
Qed.

(** X4.  When [calculateTarget] succeeds, the target it reports is NaN or a
    coordinate: latitude in [-90, 90] and longitude in [-180, 180), for
    every host whose [asin] and [atan2] stay in their ranges. *)
Theorem calculateTarget_target_in_range (h : HostMath) (input : TargetInput) :
  (forall x, within (JS.Math_PI / 2) (host_asin h x) = true) ->
  (forall y x, within JS.Math_PI (host_atan2 h y x) = true) ->
  match calculateTarget h input with
  | Failure _ => True
  | Success data =>
      (JS.isNaN (lat (position (target data))) = true \/
       (-90 <=? lat (position (target data)))
       && (lat (position (target data)) <=? 90) = true) /\
      (JS.isNaN (lon (position (target data))) = true \/
       (-180 <=? lon (position (target data)))
       && (lon (position (target data)) <? 180) = true)
  end.
Proof.
  intros Hasin Hatan2. unfold calculateTarget.
  destruct (validateInput (validationData input)) as [ | c s] eqn:Ev;
    [ | exact I].
  cbn [JS.truthy String.eqb negb target position].
  apply validateInput_empty_longitude in Ev.
  cbn [validationData data_lon] in Ev. split.
  - apply target_latitude_range. exact Hasin.
  - apply target_longitude_range; assumption.
Qed.

Lemma calculateTarget_target_in_range_witness :
  ((forall x, within (JS.Math_PI / 2) (host_asin flatHost x) = true) /\
   (forall y x, within JS.Math_PI (host_atan2 flatHost y x) = true)) /\
  match
    calculateTarget flatHost
      {| observerLat := 10.762622; observerLon := 106.660172;
         azimuth := 45; distance := 2.5 |}
  with
  | Failure _ => True
  | Success data =>
      (JS.isNaN (lat (position (target data))) = true \/
       (-90 <=? lat (position (target data)))
       && (lat (position (target data)) <=? 90) = true) /\
      (JS.isNaN (lon (position (target data))) = true \/
       (-180 <=? lon (position (target data)))
       && (lon (position (target data)) <? 180) = true)
  end.
Proof.
  assert (H1 : forall x, within (JS.Math_PI / 2) (host_asin flatHost x) = true)
    by reflexivity.
  assert (H2 : forall y x, within JS.Math_PI (host_atan2 flatHost y x) = true)
    by reflexivity.
  split; [split; assumption | ].
  exact (calculateTarget_target_in_range flatHost
           {| observerLat := 10.762622; observerLon := 106.660172;
              azimuth := 45; distance := 2.5 |} H1 H2).
Defined.
End CalculatorRanges.

(** ** The size of a rounding error *)

Section RoundingError.
Local Open Scope R_scope.

Lemma nearest_integer (w : R) : exists n : Z, Rabs (IZR n - w) <= / 2.
Proof.
  exists (Int_part (w + / 2)).
  pose proof (Int_part_bounds (w + / 2)) as H.
  unfold Rabs. destruct Rcase_abs; lra.
Qed.

Lemma representable_pow2 (k : Z) :
  (-1074 <= k <= 971)%Z -> representable (pow2 k) /\ representable (- pow2 k).
Proof.
  intros Hk. split.
  - replace (pow2 k) with (IZR 1 * pow2 k) by ring.
    apply representable_dyadic; lia.
  - replace (- pow2 k) with (IZR (-1) * pow2 k) by ring.
    apply representable_dyadic; lia.
Qed.

(** Rounding a number of magnitude at most 2^k moves it by at most
    2^(k - 54), half a unit in the last place. *)
Lemma rounds_to_error (v r : R) (k : Z) :
  rounds_to v r -> (-1021 <= k <= 971)%Z -> Rabs v <= pow2 k ->
  Rabs (r - v) <= pow2 (k - 54).
Proof.
  intros [_ Hnear] Hk Hv.
  set (u := pow2 (k - 53)). assert (Hu : 0 < u) by apply pow2_pos.
  assert (Ek : pow2 k = IZR (2 ^ 53) * u).
  { unfold u. rewrite <- (pow2_IZR 53), <- pow2_add by lia.
    f_equal. lia. }
  assert (Eh : pow2 (k - 54) = u / 2).
  { unfold u. replace (k - 53)%Z with ((k - 54) + 1)%Z by lia.
    rewrite pow2_succ. field. }
  destruct (nearest_integer (v / u)) as [n Hn].
  assert (Hg : Rabs (IZR n * u - v) <= u / 2).
  { replace (IZR n * u - v) with ((IZR n - v / u) * u) by (field; lra).
    rewrite Rabs_mult, (Rabs_pos_eq u) by lra.
    apply Rle_trans with (/ 2 * u); [ | lra].
    apply Rmult_le_compat_r; lra. }
  assert (Hn53 : (Z.abs n <= 2 ^ 53)%Z).
  { assert (Hw : Rabs (v / u) <= IZR (2 ^ 53)).
    { unfold Rdiv. rewrite Rabs_mult, (Rabs_pos_eq (/ u)).
      - apply Rmult_le_reg_r with u; [assumption | ].
        rewrite Rmult_assoc, Rinv_l by lra. lra.
      - apply Rlt_le, Rinv_0_lt_compat, Hu. }
    assert (H1 : IZR n < IZR (2 ^ 53 + 1)).
    { rewrite plus_IZR. unfold Rabs in Hn, Hw.
      repeat destruct Rcase_abs; lra. }
    assert (H2 : IZR (- 2 ^ 53 - 1) < IZR n).
    { rewrite minus_IZR, opp_IZR. unfold Rabs in Hn, Hw.
      repeat destruct Rcase_abs; lra. }
    apply lt_IZR in H1, H2. lia. }
  assert (Hrep : representable (IZR n * u)).
  { destruct (Z.eq_dec (Z.abs n) (2 ^ 53)) as [E | Hne].
    - destruct (representable_pow2 k ltac:(lia)) as [Hp Hm].
      destruct (Z.abs_eq_or_opp n) as [E' | E']; rewrite E' in E.
      + rewrite E, <- Ek. exact Hp.
      + replace n with (- 2 ^ 53)%Z by lia. rewrite opp_IZR.
        replace (- IZR (2 ^ 53) * u) with (- (IZR (2 ^ 53) * u)) by ring.
        rewrite <- Ek. exact Hm.
    - apply representable_dyadic; lia. }
  rewrite Eh. apply Rle_trans with (2 := Hg). apply Hnear, Hrep.
Qed.

Lemma div_rounds (x y : float) (sy : bool) (my : positive) (ey : Z) (hi : R) :
  JS.isFinite x = true -> Prim2SF y = S754_finite sy my ey ->
  representable hi -> Rabs (F2R x / F2R y) <= hi ->
  JS.isFinite (x / y)%float = true /\
  rounds_to (F2R x / F2R y) (F2R (x / y)%float).
Proof.
  intros Fx Ey Hhi Hle. unfold JS.isFinite, F2R in *. rewrite div_spec.
  rewrite Ey in *.
  destruct (SFdiv_correct (Prim2SF x) sy my ey hi Fx Hhi Hle)
    as (_ & HF & HR).
  split; assumption.
Qed.
End RoundingError.

(** ** Accuracy of the conversion round trip *)

Section RoundTrip.
Local Open Scope R_scope.

Lemma Zdiv_floor (a b : Z) :
  (0 < b)%Z -> IZR (a / b) <= IZR a / IZR b < IZR (a / b) + 1.
Proof.
  intros Hb. pose proof (Z.div_mod a b ltac:(lia)) as E.
  pose proof (Z.mod_pos_bound a b Hb) as Hr.
  assert (Hb' : 0 < IZR b) by (apply IZR_lt; lia).
  assert (Ea : IZR a = IZR b * IZR (a / b) + IZR (a mod b)).
  { rewrite <- mult_IZR, <- plus_IZR. now f_equal. }
  assert (H0 : 0 <= IZR (a mod b) < IZR b)
    by (split; [apply IZR_le | apply IZR_lt]; lia).
  rewrite Ea. split.
  - apply Rmult_le_reg_r with (IZR b); [assumption | ].
    unfold Rdiv. rewrite Rmult_assoc, Rinv_l by lra. lra.
  - apply Rmult_lt_reg_r with (IZR b); [assumption | ].
    unfold Rdiv. rewrite Rmult_assoc, Rinv_l by lra. lra.
Qed.

(** [toFixed] of a number that is not negative and below 1e21 spells the
    integer nearest to the number scaled by the power of ten, the larger one
    on a tie. *)
Lemma toFixed_value (x : float) (d : nat) :
  JS.isFinite x = true -> 0 <= F2R x -> F2R x < F2R 1e21 ->
  exists n : Z,
    JS.toFixed x d = JS.Fixed false n d /\
    IZR n <= F2R x * IZR (10 ^ Z.of_nat d) + / 2 < IZR n + 1.
Proof.
  intros Fx Hx Hbig. unfold JS.toFixed.
  assert (Hsmall : (1e21 <=? PrimFloat.abs x)%float = false).
  { apply leb_F2R_false; [reflexivity | now rewrite isFinite_abs | ].
    rewrite F2R_abs, Rabs_pos_eq by lra. exact Hbig. }
  rewrite Hsmall. clear Hsmall Hbig. unfold JS.isFinite in Fx.
  set (T := (10 ^ Z.of_nat d)%Z).
  assert (HT : (0 < T)%Z) by (apply Z.pow_pos_nonneg; lia).
  destruct (Prim2SF x) as [s | s | | s m e] eqn:Ex; try discriminate Fx.
  - exists 0%Z. split; [reflexivity | ].
    unfold F2R. rewrite Ex. cbn [SF2R]. lra.
  - pose proof (finite_nonneg_sign x s m e Ex Hx) as Es. subst s.
    rewrite (F2R_finite x _ _ _ Ex). cbn [cond_Zopp].
    destruct (Z.leb_spec 0 e) as [Hpos | Hneg].
    + eexists. split; [reflexivity | ].
      rewrite Z.shiftl_mul_pow2 by lia.
      rewrite pow2_IZR by lia. rewrite !mult_IZR. lra.
    + eexists. split; [reflexivity | ].
      set (k := (- e)%Z). assert (Hk : (0 < k)%Z) by (unfold k; lia).
      assert (Hp : (0 < 2 ^ k)%Z) by (apply Z.pow_pos_nonneg; lia).
      rewrite !Z.shiftl_mul_pow2, Z.shiftr_div_pow2 by lia.
      replace (- e + 1)%Z with (k + 1)%Z by (unfold k; lia).
      fold k. change (2 ^ 1)%Z with 2%Z. rewrite Z.mul_1_l.
      assert (Hb : (0 < 2 ^ (k + 1))%Z) by (apply Z.pow_pos_nonneg; lia).
      pose proof (Zdiv_floor (Zpos m * T * 2 + 2 ^ k) (2 ^ (k + 1)) Hb) as H.
      assert (E : IZR (Zpos m * T * 2 + 2 ^ k) / IZR (2 ^ (k + 1))
                  = IZR (Zpos m) * pow2 e * IZR T + / 2).
      { rewrite Z.pow_add_r by lia. change (2 ^ 1)%Z with 2%Z.
        rewrite plus_IZR, !mult_IZR.
        replace e with (- k)%Z by (unfold k; lia).
        rewrite pow2_opp, (pow2_IZR k) by lia.
        assert (0 < IZR (2 ^ k)) by (apply IZR_lt; lia).
        field. lra. }
      rewrite <- E. exact H.
Qed.

(** The triple [decimalToDMS] computes, read as an exact sexagesimal number,
    is within 0.005 seconds of arc (and two rounding errors) of the
    magnitude of the input. *)
Lemma decimalToDMS_sexagesimal (x : float) :
  JS.isFinite x = true -> Rabs (F2R x) <= 180 ->
  exists n0 n1 : Z,
    (0 <= n0 <= 180)%Z /\ IZR n0 <= Rabs (F2R x) < IZR n0 + 1 /\
    JS.isFinite (degrees (decimalToDMS x)) = true /\
    F2R (degrees (decimalToDMS x))
    = (if (x <? 0)%float then - IZR n0 else IZR n0) /\
    JS.isFinite (minutes (decimalToDMS x)) = true /\
    F2R (minutes (decimalToDMS x)) = IZR n1 /\ (0 <= n1 <= 59)%Z /\
    JS.isFinite (seconds (decimalToDMS x)) = true /\
    0 <= F2R (seconds (decimalToDMS x)) <= 60 /\
    Rabs (IZR n0 + IZR n1 / 60 + F2R (seconds (decimalToDMS x)) / 3600
          - Rabs (F2R x)) <= / 720000 + pow2 (-53).
Proof.
  intros Fx Hx. unfold decimalToDMS. cbn [degrees minutes seconds].
  set (a := PrimFloat.abs x).
  assert (Fa : JS.isFinite a = true) by (unfold a; now rewrite isFinite_abs).
  assert (Ea : F2R a = Rabs (F2R x)) by (unfold a; apply F2R_abs).
  assert (Ha : 0 <= F2R a) by (rewrite Ea; apply Rabs_pos).
  rewrite <- Ea in *. clearbody a.
  destruct (Math_floor_spec a Fa) as (Fd & n0 & En0 & Hn0).
  assert (Hn0' : (0 <= n0 <= 180)%Z).
  { split.
    - assert (H : IZR (-1) < IZR n0) by lra. apply lt_IZR in H. lia.
    - apply le_IZR. lra. }
  assert (R0 : representable (IZR n0)) by (apply representable_IZR; lia).
  (* the signed degrees *)
  assert (Hdeg : JS.isFinite ((if (x <? 0)%float then -1 else 1)
                               * JS.Math_floor a)%float = true /\
                 F2R ((if (x <? 0)%float then -1 else 1)
                       * JS.Math_floor a)%float
                 = (if (x <? 0)%float then - IZR n0 else IZR n0)).
  { destruct (x <? 0)%float.
    - destruct (mul_exact (-1) (JS.Math_floor a) eq_refl Fd) as [HF HE].
      + rewrite F2R_minus_1, En0.
        replace (-1 * IZR n0) with (- IZR n0) by ring.
        now apply representable_opp.
      + split; [exact HF | ]. rewrite HE, F2R_minus_1, En0. ring.
    - destruct (mul_exact 1 (JS.Math_floor a) eq_refl Fd) as [HF HE].
      + rewrite F2R_1, En0, Rmult_1_l. exact R0.
      + split; [exact HF | ]. rewrite HE, F2R_1, En0. ring. }
  destruct Hdeg as [Fdeg Edeg].
  (* the fraction of a degree, exact *)
  pose proof (fraction_representable a n0 Fa Ha Hn0) as Hr.
  rewrite <- En0 in Hr.
  destruct (sub_exact a (JS.Math_floor a) Fa Fd Hr) as [Ff Ef].
  destruct (fraction_exact a Fa Ha) as [_ Hf].
  set (f := (a - JS.Math_floor a)%float) in *.
  (* minutes *)
  assert (F60 : JS.isFinite 60 = true) by reflexivity.
  assert (R64 : representable (pow2 6))
    by (apply representable_pow2; lia).
  assert (E64 : pow2 6 = 64) by (rewrite pow2_IZR by lia; reflexivity).
  destruct (sixty_times_fraction f Ff Hf) as [Fm Hm].
  destruct (mul_rounds f 60 (pow2 6) Ff F60 R64) as [_ Rm].
  { rewrite F2R_60, E64, Rabs_pos_eq; lra. }
  pose proof (rounds_to_error _ _ 6 Rm ltac:(lia)) as Errm.
  change (6 - 54)%Z with (-48)%Z in Errm.
  assert (Errm' : Rabs (F2R (f * 60)%float - F2R f * 60) <= pow2 (-48)).
  { rewrite <- F2R_60. apply Errm. rewrite F2R_60, E64, Rabs_pos_eq; lra. }
  clear Errm Rm.
  set (mf := (f * 60)%float) in *.
  destruct (Math_floor_spec mf Fm) as (Fmin & n1 & En1 & Hn1).
  assert (Hn1' : (0 <= n1 <= 59)%Z).
  { split.
    - assert (H : IZR (-1) < IZR n1) by lra. apply lt_IZR in H. lia.
    - assert (H : IZR n1 < IZR 60) by lra. apply lt_IZR in H. lia. }
  (* the fraction of a minute, exact *)
  pose proof (fraction_representable mf n1 Fm (proj1 Hm) Hn1) as Hrg.
  rewrite <- En1 in Hrg.
  destruct (sub_exact mf (JS.Math_floor mf) Fm Fmin Hrg) as [Fg Eg].
  destruct (fraction_exact mf Fm (proj1 Hm)) as [_ Hg].
  set (g := (mf - JS.Math_floor mf)%float) in *.
  (* seconds *)
  destruct (sixty_times_fraction g Fg Hg) as [Fs Hs].
  destruct (mul_rounds g 60 (pow2 6) Fg F60 R64) as [_ Rs].
  { rewrite F2R_60, E64, Rabs_pos_eq; lra. }
  pose proof (rounds_to_error _ _ 6 Rs ltac:(lia)) as Errs.
  change (6 - 54)%Z with (-48)%Z in Errs.
  assert (Errs' : Rabs (F2R (g * 60)%float - F2R g * 60) <= pow2 (-48)).
  { rewrite <- F2R_60. apply Errs. rewrite F2R_60, E64, Rabs_pos_eq; lra. }
  clear Errs Rs.
  set (sr := (g * 60)%float) in *.
  assert (Hbig : F2R sr < F2R 1e21).
  { assert (H : F2R 60 <= F2R 1e21) by (apply leb_F2R; reflexivity).
    rewrite F2R_60 in H. lra. }
  destruct (toFixed_value sr 2 Fs (proj1 Hs) Hbig) as (n & -> & Hn).
  change (10 ^ Z.of_nat 2)%Z with 100%Z in Hn.
  assert (Hn' : (0 <= n <= 6000)%Z).
  { split.
    - assert (H : IZR (-1) < IZR n) by lra. apply lt_IZR in H. lia.
    - assert (H : IZR n < IZR 6001) by lra. apply lt_IZR in H. lia. }
  destruct (parseFloat_within_60 n Hn') as [Fsec Hsec].
  cbn [JS.parseFloat] in *.
  change (Z.to_pos (10 ^ Z.of_nat 2)) with 100%positive in *.
  destruct (nearest_rounds n 100 (pow2 6) R64) as [_ Rn].
  { assert (0 <= IZR n <= IZR 6000) by (split; apply IZR_le; lia).
    rewrite E64, Rabs_pos_eq; unfold Rdiv; lra. }
  pose proof (rounds_to_error _ _ 6 Rn ltac:(lia)) as Errn.
  change (6 - 54)%Z with (-48)%Z in Errn.
  assert (Errn' : Rabs (F2R (JS.nearest n 100) - IZR n / 100) <= pow2 (-48)).
  { apply Errn.
    assert (0 <= IZR n <= IZR 6000) by (split; apply IZR_le; lia).
    rewrite E64, Rabs_pos_eq; unfold Rdiv; lra. }
  clear Errn Rn.
  exists n0, n1.
  repeat (split; [first [assumption | lia | lra] | ]).
  (* the sum of the errors *)
  assert (E53 : pow2 (-48) = 32 * pow2 (-53)).
  { replace (-48)%Z with (5 + -53)%Z by lia. rewrite pow2_add.
    rewrite (pow2_IZR 5) by lia. reflexivity. }
  pose proof (pow2_pos (-53)) as HP.
  rewrite E53 in *. rewrite En1 in Eg. rewrite En0 in Ef.
  clear - Ef Eg Errm' Errs' Errn' Hn HP.
  set (S := F2R (JS.nearest n 100)) in *. set (A := F2R a) in *.
  set (Sr := F2R sr) in *. set (G := F2R g) in *. set (M := F2R mf) in *.
  set (F := F2R f) in *. set (N := IZR n) in *. set (u := pow2 (-53)) in *.
  clearbody S A Sr G M F N u.
  unfold Rabs in *. repeat destruct Rcase_abs; lra.
Qed.

(** The decimal value [dmsToDecimal] computes from the magnitudes of a
    triple is within 2^-44 of the exact sexagesimal number. *)
Lemma dmsToDecimal_error (deg min sec : float) (n0 n1 : Z) :
  JS.isFinite deg = true -> JS.isFinite min = true ->
  JS.isFinite sec = true ->
  Rabs (F2R deg) = IZR n0 -> (0 <= n0 <= 180)%Z ->
  F2R min = IZR n1 -> (0 <= n1 <= 59)%Z -> 0 <= F2R sec <= 60 ->
  let decimal := (PrimFloat.abs deg + min / 60 + sec / 3600)%float in
  JS.isFinite decimal = true /\
  Rabs (F2R decimal - (IZR n0 + IZR n1 / 60 + F2R sec / 3600))
  <= pow2 (-44).
Proof.
  intros Fd Fm Fs Ed Hn0 Em Hn1 Hs decimal. unfold decimal. clear decimal.
  set (a := PrimFloat.abs deg).
  assert (Fa : JS.isFinite a = true) by (unfold a; now rewrite isFinite_abs).
  assert (Ea : F2R a = IZR n0) by (unfold a; now rewrite F2R_abs).
  clearbody a. clear Ed Fd deg.
  assert (H0 : 0 <= IZR n0 <= 180) by (split; apply IZR_le; lia).
  assert (H1 : 0 <= IZR n1 <= 59) by (split; apply IZR_le; lia).
  assert (R1 : representable (pow2 0)) by (apply representable_pow2; lia).
  assert (R256 : representable (pow2 8)) by (apply representable_pow2; lia).
  assert (E1 : pow2 0 = 1) by apply pow2_0.
  assert (E256 : pow2 8 = 256) by (rewrite pow2_IZR by lia; reflexivity).
  assert (R181 : representable 181).
  { replace 181 with (IZR 181) by reflexivity. apply representable_IZR. lia. }
  assert (R0 : representable 0) by apply representable_0.
  assert (R1' : representable 1) by (rewrite <- E1; exact R1).
  assert (E60 : exists m e, Prim2SF 60 = S754_finite false m e).
  { eexists _, _. vm_compute. reflexivity. }
  destruct E60 as (m60 & e60 & E60).
  assert (E3600 : exists m e, Prim2SF 3600 = S754_finite false m e).
  { eexists _, _. vm_compute. reflexivity. }
  destruct E3600 as (m3600 & e3600 & E3600).
  assert (V3600 : F2R 3600 = 3600).
  { destruct (F2R_integer 3600 3600) as [_ E]; [reflexivity | lia | exact E]. }
  (* minutes / 60 *)
  assert (Hq1 : 0 <= F2R min / F2R 60 <= 1).
  { rewrite Em, F2R_60. unfold Rdiv. lra. }
  destruct (div_rounds min 60 _ _ _ (pow2 0) Fm E60 R1) as [Fq1 Rq1].
  { rewrite E1, Rabs_pos_eq; lra. }
  pose proof (rounds_to_error _ _ 0 Rq1 ltac:(lia)) as Err1.
  change (0 - 54)%Z with (-54)%Z in Err1.
  assert (Err1' : Rabs (F2R (min / 60)%float - F2R min / F2R 60)
                  <= pow2 (-54)).
  { apply Err1. rewrite E1, Rabs_pos_eq; lra. }
  pose proof (rounds_to_ge _ _ 0 Rq1 R0 (proj1 Hq1)) as Lq1.
  pose proof (rounds_to_le _ _ 1 Rq1 R1' (proj2 Hq1)) as Uq1.
  clear Err1 Rq1. rewrite Em, F2R_60 in Err1'.
  (* seconds / 3600 *)
  assert (Hq2 : 0 <= F2R sec / F2R 3600 <= 1).
  { rewrite V3600. unfold Rdiv. lra. }
  destruct (div_rounds sec 3600 _ _ _ (pow2 0) Fs E3600 R1) as [Fq2 Rq2].
  { rewrite E1, Rabs_pos_eq; lra. }
  pose proof (rounds_to_error _ _ 0 Rq2 ltac:(lia)) as Err2.
  change (0 - 54)%Z with (-54)%Z in Err2.
  assert (Err2' : Rabs (F2R (sec / 3600)%float - F2R sec / F2R 3600)
                  <= pow2 (-54)).
  { apply Err2. rewrite E1, Rabs_pos_eq; lra. }
  pose proof (rounds_to_ge _ _ 0 Rq2 R0 (proj1 Hq2)) as Lq2.
  pose proof (rounds_to_le _ _ 1 Rq2 R1' (proj2 Hq2)) as Uq2.
  clear Err2 Rq2. rewrite V3600 in Err2'.
  set (q1 := (min / 60)%float) in *. set (q2 := (sec / 3600)%float) in *.
  (* degrees + minutes / 60 *)
  assert (Hs1 : 0 <= F2R a + F2R q1 <= 181) by (rewrite Ea; lra).
  destruct (add_rounds a q1 (pow2 8) Fa Fq1 R256) as [Fs1 Rs1].
  { rewrite E256, Rabs_pos_eq; lra. }
  pose proof (rounds_to_error _ _ 8 Rs1 ltac:(lia)) as Err3.
  change (8 - 54)%Z with (-46)%Z in Err3.
  assert (Err3' : Rabs (F2R (a + q1)%float - (F2R a + F2R q1))
                  <= pow2 (-46)).
  { apply Err3. rewrite E256, Rabs_pos_eq; lra. }
  pose proof (rounds_to_ge _ _ 0 Rs1 R0 (proj1 Hs1)) as Ls1.
  pose proof (rounds_to_le _ _ 181 Rs1 R181 (proj2 Hs1)) as Us1.
  clear Err3 Rs1. rewrite Ea in Err3'.
  set (s1 := (a + q1)%float) in *.
  (* ... + seconds / 3600 *)
  destruct (add_rounds s1 q2 (pow2 8) Fs1 Fq2 R256) as [Fs2 Rs2].
  { rewrite E256, Rabs_pos_eq; lra. }
  pose proof (rounds_to_error _ _ 8 Rs2 ltac:(lia)) as Err4.
  change (8 - 54)%Z with (-46)%Z in Err4.
  assert (Err4' : Rabs (F2R (s1 + q2)%float - (F2R s1 + F2R q2))
                  <= pow2 (-46)).
  { apply Err4. rewrite E256, Rabs_pos_eq; lra. }
  clear Err4 Rs2.
  split; [exact Fs2 | ].
  assert (E46 : pow2 (-46) = 256 * pow2 (-54)).
  { replace (-46)%Z with (8 + -54)%Z by lia. rewrite pow2_add, E256.
    reflexivity. }
  assert (E44 : pow2 (-44) = 1024 * pow2 (-54)).
  { replace (-44)%Z with (10 + -54)%Z by lia. rewrite pow2_add.
    rewrite (pow2_IZR 10) by lia. reflexivity. }
  pose proof (pow2_pos (-54)) as HP.
  rewrite E46 in *. rewrite E44.
  clear - Err1' Err2' Err3' Err4' HP.
  set (S2 := F2R (s1 + q2)%float) in *. set (S1 := F2R s1) in *.
  set (Q1 := F2R q1) in *. set (Q2 := F2R q2) in *.
  set (N0 := IZR n0) in *. set (N1 := IZR n1) in *. set (S := F2R sec) in *.
  set (u := pow2 (-54)) in *.
  clearbody S2 S1 Q1 Q2 N0 N1 S u.
  unfold Rabs in *. repeat destruct Rcase_abs; lra.
Qed.

(** X10.  Converting a coordinate to degrees, minutes and seconds and back
    returns it to within 1.4e-6 degrees (the seconds keep two decimals, so
    up to 0.005 seconds of arc are lost), for coordinates from 0 to 180 and
    from -180 to -1. *)
Theorem dms_round_trip_accuracy (x : float) :
  (((0 <=? x) || (x <=? -1)) && (PrimFloat.abs x <=? 180))%float = true ->
  let there := decimalToDMS x in
  (PrimFloat.abs
     (dmsToDecimal (degrees there) (minutes there) (seconds there) - x)
   <=? 1.4e-6)%float = true.
Proof.
  intros H there. apply andb_true_iff in H. destruct H as [Hside Habs].
  assert (Fx : JS.isFinite x = true)
    by (apply (abs_leb_finite x 180); [reflexivity | exact Habs]).
  assert (Hx : Rabs (F2R x) <= 180).
  { rewrite <- F2R_abs, <- F2R_180.
    apply leb_F2R; [now rewrite isFinite_abs | reflexivity | exact Habs]. }
  destruct (decimalToDMS_sexagesimal x Fx Hx)
    as (n0 & n1 & Hn0 & Hfl & Fd & Ed & Fm & Em & Hn1 & Fs & Hs & Err).
  fold there in Fd, Ed, Fm, Em, Fs, Hs, Err.
  assert (Hside' : 0 <= F2R x \/ F2R x <= -1).
  { apply orb_true_iff in Hside. destruct Hside as [Hp | Hn].
    - left. rewrite <- F2R_0. apply leb_F2R; [reflexivity | | ]; assumption.
    - right. rewrite <- F2R_minus_1.
      apply leb_F2R; [ | reflexivity | ]; assumption. }
  assert (Hsign : exists sigma : R,
             (sigma = 1 \/ sigma = -1) /\ F2R x = sigma * Rabs (F2R x) /\
             F2R (degrees there) = sigma * IZR n0 /\
             F2R (if (degrees there <? 0)%float then (-1)%float else 1%float)
             = sigma).
  { assert (Hn0' : 0 <= IZR n0) by (apply IZR_le; lia).
    destruct (x <? 0)%float eqn:Neg.
    - apply ltb_F2R in Neg; [ | assumption | reflexivity].
      rewrite F2R_0 in Neg.
      assert (Hle : F2R x <= -1) by lra.
      assert (E : Rabs (F2R x) = - F2R x) by (apply Rabs_left; lra).
      assert (Hpos : 1 <= IZR n0).
      { assert (H : IZR 0 < IZR n0) by lra. apply lt_IZR in H.
        apply IZR_le. lia. }
      exists (-1). split; [now right | ]. split; [lra | ].
      split; [lra | ].
      assert (Hd : (degrees there <? 0)%float = true).
      { apply ltb_F2R; [assumption | reflexivity | ]. rewrite F2R_0. lra. }
      rewrite Hd. apply F2R_minus_1.
    - apply ltb_F2R_false in Neg; [ | assumption | reflexivity].
      rewrite F2R_0 in Neg.
      assert (E : Rabs (F2R x) = F2R x) by (apply Rabs_pos_eq; lra).
      exists 1. split; [now left | ]. split; [lra | ].
      split; [lra | ].
      assert (Hd : (degrees there <? 0)%float = false).
      { apply ltb_F2R_false; [assumption | reflexivity | ].
        rewrite F2R_0. lra. }
      rewrite Hd. apply F2R_1. }
  destruct Hsign as (sigma & Hsigma & Ex & Ed' & Esign).
  assert (Ed0 : Rabs (F2R (degrees there)) = IZR n0).
  { rewrite Ed', Rabs_mult, (Rabs_pos_eq (IZR n0)) by (apply IZR_le; lia).
    destruct Hsigma as [-> | ->]; unfold Rabs; destruct Rcase_abs; lra. }
  destruct (dmsToDecimal_error (degrees there) (minutes there)
              (seconds there) n0 n1 Fd Fm Fs Ed0 Hn0 Em Hn1 Hs)
    as [Fdec Edec].
  unfold dmsToDecimal.
  set (decimal := (PrimFloat.abs (degrees there) + minutes there / 60
                   + seconds there / 3600)%float) in *.
  set (sign := if (degrees there <? 0)%float then (-1)%float else 1%float)
    in *.
  assert (Fsign : JS.isFinite sign = true)
    by (unfold sign; destruct (degrees there <? 0)%float; reflexivity).
  destruct (mul_exact sign decimal Fsign Fdec) as [Fres Eres].
  { rewrite Esign. destruct Hsigma as [-> | ->].
    - rewrite Rmult_1_l. apply representable_F2R.
    - replace (-1 * F2R decimal) with (- F2R decimal) by ring.
      apply representable_opp, representable_F2R. }
  rewrite Esign in Eres.
  assert (Hdiff : Rabs (F2R (sign * decimal)%float - F2R x)
                  <= / 720000 + pow2 (-53) + pow2 (-44)).
  { rewrite Eres, Ex.
    replace (sigma * F2R decimal - sigma * Rabs (F2R x))
      with (sigma * (F2R decimal - Rabs (F2R x))) by ring.
    rewrite Rabs_mult.
    replace (Rabs sigma) with 1
      by (destruct Hsigma as [-> | ->]; unfold Rabs; destruct Rcase_abs; lra).
    rewrite Rmult_1_l.
    clear - Err Edec.
    set (D := F2R decimal) in *. set (A := Rabs (F2R x)) in *.
    set (S := F2R (seconds there)) in *.
    set (N0 := IZR n0) in *. set (N1 := IZR n1) in *.
    set (u := pow2 (-53)) in *. set (v := pow2 (-44)) in *.
    clearbody D A S N0 N1 u v.
    unfold Rabs in *. repeat destruct Rcase_abs; lra. }
  assert (Hc : / 720000 + pow2 (-53) + pow2 (-44) <= F2R 1.4e-6).
  { literal_value (1.4e-6)%float.
    change (-53)%Z with (- (53))%Z. change (-44)%Z with (- (44))%Z.
    rewrite !pow2_opp, !pow2_IZR by lia.
    let v := eval vm_compute in (2 ^ 53)%Z in change (2 ^ 53)%Z with v.
    let v := eval vm_compute in (2 ^ 44)%Z in change (2 ^ 44)%Z with v.
    lra. }
  assert (Fc : JS.isFinite 1.4e-6 = true) by reflexivity.
  destruct (sub_between (sign * decimal)%float x
              (- F2R 1.4e-6) (F2R 1.4e-6) Fres Fx) as [Fsub Hsub].
  { apply representable_opp, representable_F2R. }
  { apply representable_F2R. }
  { clear - Hdiff Hc. unfold Rabs in Hdiff. destruct Rcase_abs; lra. }
  apply leb_F2R; [now rewrite isFinite_abs | exact Fc | ].
  rewrite F2R_abs. unfold Rabs. destruct Rcase_abs; lra.
Qed.

Lemma dms_round_trip_accuracy_witness :
  (((0 <=? 10.762622) || (10.762622 <=? -1))
   && (PrimFloat.abs 10.762622 <=? 180))%float = true /\
  let there := decimalToDMS 10.762622 in
  (PrimFloat.abs
     (dmsToDecimal (degrees there) (minutes there) (seconds there)
      - 10.762622)
   <=? 1.4e-6)%float = true.
Proof.
  split; [reflexivity | ]. apply (dms_round_trip_accuracy 10.762622).
  reflexivity.
Defined.
End RoundTrip.

(** ** The compass direction of an azimuth *)

Section Compass.
Local Open Scope R_scope.

Lemma small_exponent (x : float) (s : bool) (m : positive) (e : Z) :
  Prim2SF x = S754_finite s m e -> Rabs (F2R x) <= 360 -> (e <= 0)%Z.
Proof.
  intros E H. pose proof (Prim2SF_valid x) as V. rewrite E in V.
  destruct (valid_shape s m e V) as (Hm & He & Hfull).
  destruct (Z.le_gt_cases e 0) as [ | Hpos]; [assumption | exfalso].
  destruct Hfull as [-> | Hfull]; [lia | ].
  rewrite (F2R_finite x s m e E) in H.
  assert (H1 : IZR (2 ^ 52) <= IZR (Zpos m)) by now apply IZR_le.
  assert (H2 : 1 <= pow2 e).
  { rewrite <- pow2_0. apply pow2_le. lia. }
  change (2 ^ 52)%Z with 4503599627370496%Z in H1.
  destruct s; cbn [cond_Zopp] in H; rewrite ?opp_IZR in H;
    unfold Rabs in H; destruct Rcase_abs; nra.
Qed.

(** The difference of a number in [0, 360] and an integer no farther from it
    than it is from 0 is a number of the format. *)
Lemma difference_representable (az : float) (a : Z) :
  JS.isFinite az = true -> 0 <= F2R az <= 360 ->
  Rabs (F2R az - IZR a) <= F2R az ->
  representable (F2R az - IZR a).
Proof.
  intros Fa Ha Hd. unfold JS.isFinite in Fa.
  destruct (Prim2SF az) as [s | s | | s m e] eqn:E; try discriminate Fa.
  - assert (E0 : F2R az = 0) by (unfold F2R; now rewrite E).
    rewrite E0 in *. assert (Ea : IZR a = 0).
    { unfold Rabs in Hd. destruct Rcase_abs; lra. }
    rewrite Ea. replace (0 - 0) with 0 by ring. apply representable_0.
  - pose proof (finite_nonneg_sign az s m e E (proj1 Ha)) as Es. subst s.
    assert (He : (e <= 0)%Z).
    { apply (small_exponent az false m e E).
      rewrite Rabs_pos_eq; lra. }
    pose proof (Prim2SF_valid az) as V. rewrite E in V.
    destruct (valid_shape false m e V) as (Hm & Hee & _).
    rewrite (F2R_finite az false m e E) in *. cbn [cond_Zopp] in *.
    set (k := (- e)%Z). assert (Hk : (0 <= k)%Z) by (unfold k; lia).
    assert (Epow : pow2 e * IZR (2 ^ k) = 1).
    { rewrite <- pow2_IZR, <- pow2_add by lia.
      replace (e + k)%Z with 0%Z by (unfold k; lia). apply pow2_0. }
    assert (HPk : 0 < IZR (2 ^ k)).
    { apply IZR_lt. apply Z.pow_pos_nonneg; lia. }
    pose proof (pow2_pos e) as HP.
    replace (IZR (Zpos m) * pow2 e - IZR a)
      with (IZR (Zpos m - a * 2 ^ k) * pow2 e).
    + apply representable_dyadic; [ | lia].
      assert (Hb : Rabs (IZR (Zpos m - a * 2 ^ k)) <= IZR (Zpos m)).
      { apply Rmult_le_reg_r with (pow2 e); [assumption | ].
        rewrite <- (Rabs_pos_eq (pow2 e)) at 1 by lra.
        rewrite <- Rabs_mult.
        replace (IZR (Zpos m - a * 2 ^ k) * pow2 e)
          with (IZR (Zpos m) * pow2 e - IZR a); [exact Hd | ].
        rewrite minus_IZR, mult_IZR, Rmult_minus_distr_r.
        rewrite (Rmult_assoc (IZR a)), (Rmult_comm (IZR (2 ^ k))), Epow.
        ring. }
      rewrite <- abs_IZR in Hb. apply le_IZR in Hb. lia.
    + rewrite minus_IZR, mult_IZR, Rmult_minus_distr_r.
      rewrite (Rmult_assoc (IZR a)), (Rmult_comm (IZR (2 ^ k))), Epow.
      ring.
Qed.

Lemma representable_half (n : Z) :
  (Z.abs n < 2 ^ 53)%Z -> representable (IZR n / 2).
Proof.
  intros H. replace (IZR n / 2) with (IZR n * pow2 (-1)).
  - apply representable_dyadic; lia.
  - change (-1)%Z with (- (1))%Z. rewrite (pow2_opp 1).
    replace (pow2 1) with 2; [reflexivity | ].
    rewrite (pow2_IZR 1) by lia. reflexivity.
Qed.

(** The distance [Math.abs(azimuth - angle)] the loop computes, for an
    azimuth in [0, 360] and a whole angle in the same range: exact when the
    azimuth is at least half the angle, and at least 22.5 when the angle is
    that far above. *)
Lemma gap_spec (az : float) (a : Z) :
  JS.isFinite az = true -> 0 <= F2R az <= 360 -> (0 <= a <= 360)%Z ->
  JS.isFinite (PrimFloat.abs (az - JS.of_Z a)) = true /\
  (IZR a <= F2R az ->
   F2R (PrimFloat.abs (az - JS.of_Z a)) = F2R az - IZR a) /\
  (F2R az <= IZR a <= 2 * F2R az ->
   F2R (PrimFloat.abs (az - JS.of_Z a)) = IZR a - F2R az) /\
  (45 / 2 <= IZR a - F2R az ->
   45 / 2 <= F2R (PrimFloat.abs (az - JS.of_Z a))).
Proof.
  intros Fa Ha Hz.
  destruct (of_Z_exact a ltac:(lia)) as [Fz Ez].
  assert (Hza : 0 <= IZR a <= 360) by (split; apply IZR_le; lia).
  assert (R360 : representable 360).
  { replace 360 with (IZR 360) by reflexivity. apply representable_IZR. lia. }
  assert (Rm360 : representable (-360)).
  { replace (-360) with (IZR (-360)) by reflexivity.
    apply representable_IZR. lia. }
  destruct (sub_between az (JS.of_Z a) (-360) 360 Fa Fz Rm360 R360)
    as [Fd Hd]; [rewrite Ez; lra | ].
  rewrite isFinite_abs, F2R_abs. split; [exact Fd | ].
  assert (Hexact : Rabs (F2R az - IZR a) <= F2R az ->
                   F2R (az - JS.of_Z a)%float = F2R az - IZR a).
  { intros Hc. pose proof (difference_representable az a Fa Ha Hc) as Hr.
    rewrite <- Ez in Hr. rewrite <- Ez.
    exact (proj2 (sub_exact az (JS.of_Z a) Fa Fz Hr)). }
  split; [ | split].
  - intros H. rewrite Hexact.
    + apply Rabs_pos_eq. lra.
    + rewrite Rabs_pos_eq; lra.
  - intros H. rewrite Hexact.
    + rewrite Rabs_left1; lra.
    + rewrite Rabs_left1; lra.
  - intros H.
    assert (Rh : representable (- (45 / 2))).
    { apply representable_opp. replace 45 with (IZR 45) by reflexivity.
      apply representable_half. lia. }
    destruct (sub_between az (JS.of_Z a) (-360) (- (45 / 2)) Fa Fz Rm360 Rh)
      as [_ Hd2]; [rewrite Ez; lra | ].
    rewrite Rabs_left1; lra.
Qed.

Lemma closer_ge (az : float) (st : Direction * float) (dir : Direction) :
  JS.isFinite (PrimFloat.abs (az - angle dir)) = true ->
  JS.isFinite (snd st) = true ->
  F2R (snd st) <= F2R (PrimFloat.abs (az - angle dir)) ->
  closer az st dir = st.
Proof.
  intros Fd Fs H. unfold closer.
  now rewrite (proj2 (ltb_F2R_false _ _ Fd Fs) H).
Qed.

Lemma closer_lt (az : float) (st : Direction * float) (dir : Direction) :
  JS.isFinite (PrimFloat.abs (az - angle dir)) = true ->
  JS.isFinite (snd st) = true ->
  F2R (PrimFloat.abs (az - angle dir)) < F2R (snd st) ->
  closer az st dir = (dir, PrimFloat.abs (az - angle dir)).
Proof.
  intros Fd Fs H. unfold closer.
  now rewrite (proj2 (ltb_F2R _ _ Fd Fs) H).
Qed.

(** The direction the loop ends on, for an azimuth in [0, 360]: the one
    whose angle [a] has [a - 22.5 < azimuth <= a + 22.5]. *)
Lemma closestDirection_nearest (az : float) :
  ((0 <=? az) && (az <=? 360))%float = true ->
  In (closestDirection az) directions /\
  ((angle (closestDirection az) - 22.5 <? az)
   && (az <=? angle (closestDirection az) + 22.5))%float = true.
Proof.
  intros Hrange. apply andb_true_iff in Hrange. destruct Hrange as [Hlo Hhi].
  assert (Fa : JS.isFinite az = true).
  { unfold JS.isFinite. rewrite leb_spec in Hlo, Hhi.
    unfold SFleb in Hlo, Hhi.
    destruct (Prim2SF az) as [s | [ | ] | | s m e];
      try reflexivity; try discriminate Hlo; discriminate Hhi. }
  assert (Ha : 0 <= F2R az <= 360).
  { split.
    - apply (leb_F2R 0%float az eq_refl Fa) in Hlo. now rewrite F2R_0 in Hlo.
    - apply (leb_F2R az 360%float Fa eq_refl) in Hhi.
      now rewrite F2R_360 in Hhi. }
  clear Hlo Hhi.
  pose proof (gap_spec az 0 Fa Ha ltac:(lia)) as G0.
  pose proof (gap_spec az 45 Fa Ha ltac:(lia)) as G1.
  pose proof (gap_spec az 90 Fa Ha ltac:(lia)) as G2.
  pose proof (gap_spec az 135 Fa Ha ltac:(lia)) as G3.
  pose proof (gap_spec az 180 Fa Ha ltac:(lia)) as G4.
  pose proof (gap_spec az 225 Fa Ha ltac:(lia)) as G5.
  pose proof (gap_spec az 270 Fa Ha ltac:(lia)) as G6.
  pose proof (gap_spec az 315 Fa Ha ltac:(lia)) as G7.
  pose proof (gap_spec az 360 Fa Ha ltac:(lia)) as G8.
  replace (JS.of_Z 0) with 0%float in G0 by (vm_compute; reflexivity).
  replace (JS.of_Z 45) with 45%float in G1 by (vm_compute; reflexivity).
  replace (JS.of_Z 90) with 90%float in G2 by (vm_compute; reflexivity).
  replace (JS.of_Z 135) with 135%float in G3 by (vm_compute; reflexivity).
  replace (JS.of_Z 180) with 180%float in G4 by (vm_compute; reflexivity).
  replace (JS.of_Z 225) with 225%float in G5 by (vm_compute; reflexivity).
  replace (JS.of_Z 270) with 270%float in G6 by (vm_compute; reflexivity).
  replace (JS.of_Z 315) with 315%float in G7 by (vm_compute; reflexivity).
  replace (JS.of_Z 360) with 360%float in G8 by (vm_compute; reflexivity).
  destruct G0 as (F0 & U0 & V0 & W0). destruct G1 as (F1 & U1 & V1 & W1).
  destruct G2 as (F2 & U2 & V2 & W2). destruct G3 as (F3 & U3 & V3 & W3).
  destruct G4 as (F4 & U4 & V4 & W4). destruct G5 as (F5 & U5 & V5 & W5).
  destruct G6 as (F6 & U6 & V6 & W6). destruct G7 as (F7 & U7 & V7 & W7).
  destruct G8 as (F8 & U8 & V8 & W8).
  unfold closestDirection, directions. cbn [hd fold_left angle].
  assert (Hsector :
            F2R az <= 45 / 2 \/
            45 / 2 < F2R az <= 45 \/
            45 <= F2R az <= 135 / 2 \/
            135 / 2 < F2R az <= 90 \/
            90 <= F2R az <= 225 / 2 \/
            225 / 2 < F2R az <= 135 \/
            135 <= F2R az <= 315 / 2 \/
            315 / 2 < F2R az <= 180 \/
            180 <= F2R az <= 405 / 2 \/
            405 / 2 < F2R az <= 225 \/
            225 <= F2R az <= 495 / 2 \/
            495 / 2 < F2R az <= 270 \/
            270 <= F2R az <= 585 / 2 \/
            585 / 2 < F2R az <= 315 \/
            315 <= F2R az <= 675 / 2 \/
            675 / 2 < F2R az <= 360) by lra.
  destruct Hsector
    as [Hs | [Hs | [Hs | [Hs | [Hs | [Hs | [Hs | [Hs |
        [Hs | [Hs | [Hs | [Hs | [Hs | [Hs | [Hs | Hs]]]]]]]]]]]]]]];
    repeat match goal with
           | H : ?P -> ?Q |- _ =>
               first [ let HP := fresh in
                       assert (HP : P) by (clear - Ha Hs; lra);
                       specialize (H HP); clear HP
                     | clear H ]
           end;
    repeat match goal with
           | |- context [closer az (?d0, ?m0) ?dir] =>
               first
                 [ rewrite (closer_lt az (d0, m0) dir)
                     by (cbn [snd angle]; first [assumption | lra])
                 | rewrite (closer_ge az (d0, m0) dir)
                     by (cbn [snd angle]; first [assumption | lra]) ]
           end;
    cbn [fst angle];
    (split;
     [ cbn [In]; repeat (first [left; reflexivity | right])
     | apply andb_true_iff; split;
       [ apply ltb_F2R; [reflexivity | assumption | ]
       | apply leb_F2R; [assumption | reflexivity | ] ] ]);
    match goal with
    | |- context [F2R ?c] =>
        lazymatch c with
        | az => fail
        | _ => let v := eval vm_compute in c in
               replace c with v by (vm_compute; reflexivity);
               literal_value v
        end
    end; lra.
Qed.
Local Open Scope float_scope.

(** X16.  For an azimuth in [0, 360], [formatAzimuth] names one of the nine
    listed directions, the one whose angle [a] has
    [a - 22.5 < azimuth <= a + 22.5]: the nearest direction and, at equal
    distance, the lower one. *)
Theorem formatAzimuth_names_nearest (azimuth : float) :
  ((0 <=? azimuth) && (azimuth <=? 360))%float = true ->
  exists dir : Direction,
    In dir directions /\
    formatAzimuth azimuth
    = [ Number (JS.toFixed azimuth 1); Text "° ("; Text (short dir);
        Text " - "; Text (full dir); Text ")" ] /\
    ((angle dir - 22.5 <? azimuth) && (azimuth <=? angle dir + 22.5))%float
    = true.
Proof.
  intros H. destruct (closestDirection_nearest azimuth H) as [Hin Hnear].
  exists (closestDirection azimuth).
  split; [exact Hin | split; [reflexivity | exact Hnear]].
Qed.

Lemma formatAzimuth_names_nearest_witness :
  ((0 <=? 45) && (45 <=? 360))%float = true /\
  exists dir : Direction,
    In dir directions /\
    formatAzimuth 45
    = [ Number (JS.toFixed 45 1); Text "° ("; Text (short dir);
        Text " - "; Text (full dir); Text ")" ] /\
    ((angle dir - 22.5 <? 45) && (45 <=? angle dir + 22.5))%float = true.
Proof.
  split; [reflexivity | ]. apply (formatAzimuth_names_nearest 45).
  reflexivity.
Defined.
End Compass.

(** ** Distances below one kilometre *)

Section Formatting.
Local Open Scope R_scope.

Lemma bounded_finite (lo hi x : float) :
  JS.isFinite lo = true -> JS.isFinite hi = true ->
  (lo <=? x)%float = true -> (x <? hi)%float = true ->
  JS.isFinite x = true.
Proof.
  intros Flo Fhi Hlo Hhi. rewrite leb_spec in Hlo. rewrite ltb_spec in Hhi.
  unfold JS.isFinite in *. unfold SFleb, SFltb in *.
  destruct (Prim2SF x) as [s | [ | ] | | s m e]; try reflexivity;
    destruct (Prim2SF lo) as [ | [ | ] | | ];
    destruct (Prim2SF hi) as [ | [ | ] | | ]; cbn in *; discriminate.
Qed.

(** X17.  A distance from 0 up to, but excluding, 1 km is written in metres: a
    whole number from 0 to 1000.  From 0.9996 km on the number written is
    1000. *)
Theorem formatDistance_metres (d : float) :
  ((0 <=? d) && (d <? 1))%float = true ->
  exists n : Z,
    formatDistance d = [Number (JS.Fixed false n 0); Text " m"] /\
    (0 <= n <= 1000)%Z /\
    ((0.9996 <=? d)%float = true -> n = 1000%Z).
Proof.
  intros H. apply andb_true_iff in H. destruct H as [Hlo Hhi].
  assert (Fd : JS.isFinite d = true)
    by (apply (bounded_finite 0 1 d); first [reflexivity | assumption]).
  assert (H0 : 0 <= F2R d).
  { rewrite <- F2R_0. apply leb_F2R; [reflexivity | | ]; assumption. }
  assert (H1 : F2R d < 1).
  { rewrite <- F2R_1. apply ltb_F2R; [ | reflexivity | ]; assumption. }
  destruct (F2R_integer 1000 1000) as [F1000 E1000]; [reflexivity | lia | ].
  assert (R1000 : representable 1000).
  { replace 1000 with (IZR 1000) by reflexivity. apply representable_IZR.
    lia. }
  destruct (mul_between d 1000 0 1000 Fd F1000 representable_0 R1000)
    as [Fm Hm].
  { rewrite E1000. lra. }
  assert (Hbig : F2R (d * 1000)%float < F2R 1e21).
  { assert (H : F2R 1000 < F2R 1e21) by (apply ltb_F2R; reflexivity).
    rewrite E1000 in H. lra. }
  destruct (toFixed_value (d * 1000)%float 0 Fm (proj1 Hm) Hbig)
    as (n & En & Hn).
  change (IZR (10 ^ Z.of_nat 0)) with 1 in Hn. rewrite Rmult_1_r in Hn.
  exists n. unfold formatDistance. rewrite Hhi, En.
  split; [reflexivity | ]. split.
  - split.
    + assert (H : IZR (-1) < IZR n) by lra. apply lt_IZR in H. lia.
    + assert (H : IZR n < IZR 1001) by lra. apply lt_IZR in H. lia.
  - intros Hnear.
    assert (Hd : F2R 0.9996 <= F2R d)
      by (apply leb_F2R; [reflexivity | | ]; assumption).
    literal_value (0.9996)%float.
    assert (Rh : representable (IZR 1999 * pow2 (-1)))
      by (apply representable_dyadic; lia).
    assert (Eh : IZR 1999 * pow2 (-1) = 1999 / 2).
    { change (-1)%Z with (- (1))%Z. rewrite pow2_opp, (pow2_IZR 1) by lia.
      change (IZR (2 ^ 1)) with 2. field. }
    rewrite Eh in Rh.
    destruct (mul_between d 1000 (1999 / 2) 1000 Fd F1000 Rh R1000)
      as [_ Hm'].
    { rewrite E1000. lra. }
    assert (Hge : IZR 999 < IZR n) by lra.
    assert (Hle : IZR n < IZR 1001) by lra.
    apply lt_IZR in Hge, Hle. lia.
Qed.

Lemma formatDistance_metres_witness :
  ((0 <=? 0.5) && (0.5 <? 1))%float = true /\
  exists n : Z,
    formatDistance 0.5 = [Number (JS.Fixed false n 0); Text " m"] /\
    (0 <= n <= 1000)%Z /\
    ((0.9996 <=? 0.5)%float = true -> n = 1000%Z).
Proof.
  split; [reflexivity | ]. apply (formatDistance_metres 0.5). reflexivity.
Defined.
End Formatting.

(** ** The square root of the format *)

Section SquareRoot.
Local Open Scope R_scope.

(** The integer square root with its remainder puts the real square root
    of [n] beside [q]: in the lower half of the gap when the remainder is at
    most [q]. *)
Lemma sqrtrem_location (n q r : Z) :
  (0 <= q)%Z -> (n = q * q + r)%Z -> (0 <= r <= 2 * q)%Z ->
  let l := if (r =? 0)%Z then loc_Exact
           else loc_Inexact (if (r <=? q)%Z then Lt else Gt) in
  (l = loc_Exact -> sqrt (IZR n) = IZR q) /\
  (l = loc_Inexact Lt -> IZR q < sqrt (IZR n) < IZR q + / 2) /\
  (l = loc_Inexact Gt -> IZR q + / 2 < sqrt (IZR n) < IZR q + 1) /\
  l <> loc_Inexact Eq.
Proof.
  intros Hq En Hr l.
  assert (Hq' : 0 <= IZR q) by now apply IZR_le.
  assert (Hn : IZR n = IZR q * IZR q + IZR r).
  { rewrite En, plus_IZR, mult_IZR. reflexivity. }
  assert (Hr0 : 0 <= IZR r) by (apply IZR_le; lia).
  assert (Hr2 : IZR r <= 2 * IZR q).
  { rewrite <- (mult_IZR 2). apply IZR_le. lia. }
  set (t := sqrt (IZR n)).
  assert (Ht0 : 0 <= t) by apply sqrt_pos.
  assert (Ht : t * t = IZR q * IZR q + IZR r).
  { unfold t. rewrite sqrt_sqrt; [exact Hn | nra]. }
  unfold l. destruct (Z.eqb_spec r 0) as [E0 | Hnz].
  - repeat split; try discriminate. intros _. subst r.
    rewrite Rplus_0_r in Ht. nra.
  - assert (Hr1 : 1 <= IZR r) by (apply IZR_le; lia).
    destruct (Z.leb_spec r q) as [Hle | Hgt].
    + apply IZR_le in Hle. repeat split; try discriminate; nra.
    + assert (Hg : IZR q + 1 <= IZR r).
      { rewrite <- plus_IZR. apply IZR_le. lia. }
      repeat split; try discriminate; nra.
Qed.

Lemma SFsqrt_core_binary_spec (m : positive) (e : Z) :
  let '(q, e', l) := SFsqrt_core_binary prec emax (Zpos m) e in
  inbetween q e' l (sqrt (IZR (Zpos m) * pow2 e)) /\
  (0 <= q)%Z /\ (e' <= Z.max (Zdigits2 q + e' - 53) (-1074))%Z.
Proof.
  unfold SFsqrt_core_binary, SpecFloat.fexp.
  change (SpecFloat.emin prec emax) with (-1074)%Z. change prec with 53%Z.
  change IntDef.Z.max with Z.max. change IntDef.Z.min with Z.min.
  change IntDef.Z.shiftl with Z.shiftl.
  change IntDef.Z.sqrtrem with Z.sqrtrem.
  change IntDef.Z.div2 with Z.div2.
  change IntDef.Z.eqb with Z.eqb. change IntDef.Z.leb with Z.leb.
  set (d := Zdigits2 (Zpos m)).
  rewrite !Z.div2_div.
  set (k := ((d + e + 1) / 2)%Z).
  set (e' := Z.min (Z.max (k - 53) (-1074)) (e / 2)).
  set (s := (e - 2 * e')%Z).
  pose proof (Z.mul_div_le e 2 ltac:(lia)) as He2.
  pose proof (Z.mul_div_le (d + e + 1) 2 ltac:(lia)) as Hk2. fold k in Hk2.
  assert (Hs : (0 <= s)%Z) by (unfold s, e'; lia).
  set (m' := match s with
             | 0%Z => Zpos m
             | Zpos _ => Z.shiftl (Zpos m) s
             | Zneg _ => 0%Z
             end).
  assert (Em' : m' = (Zpos m * 2 ^ s)%Z).
  { unfold m'. destruct s as [ | p | p] eqn:Es; [cbn; lia | | lia].
    rewrite Z.shiftl_mul_pow2 by lia. reflexivity. }
  assert (Hp : (0 < 2 ^ s)%Z) by (apply Z.pow_pos_nonneg; lia).
  assert (Hm' : (0 < m')%Z) by (rewrite Em'; lia).
  pose proof (Z.sqrtrem_spec m' ltac:(lia)) as Hsq.
  pose proof (Z.sqrtrem_sqrt m') as Esqrt.
  destruct (Z.sqrtrem m') as [q r]. cbn [fst] in Esqrt.
  destruct Hsq as [En Hr].
  assert (Hq : (0 <= q)%Z) by (rewrite Esqrt; apply Z.sqrt_nonneg).
  destruct (sqrtrem_location m' q r Hq En Hr) as (LE & LL & LG & LN).
  set (l := if (r =? 0)%Z then loc_Exact
            else loc_Inexact (if (r <=? q)%Z then Lt else Gt)) in *.
  pose proof (pow2_pos e') as HP'.
  assert (Ev : sqrt (IZR (Zpos m) * pow2 e) = sqrt (IZR m') * pow2 e').
  { replace (IZR (Zpos m) * pow2 e) with (IZR m' * (pow2 e' * pow2 e')).
    - rewrite sqrt_mult_alt by (apply IZR_le; lia).
      rewrite sqrt_square by lra. reflexivity.
    - rewrite Em', mult_IZR, <- (pow2_IZR s Hs), <- !pow2_add, Rmult_assoc,
        <- pow2_add. f_equal. f_equal. unfold s. lia. }
  split; [ | split; [exact Hq | ]].
  - rewrite Ev. destruct l as [ | [ | | ]]; cbn [inbetween].
    + rewrite (LE eq_refl). reflexivity.
    + now contradiction LN.
    + specialize (LL eq_refl). split; nra.
    + specialize (LG eq_refl). split; nra.
  - destruct (Z.le_gt_cases e' (-1074)) as [ | Hbig]; [lia | ].
    assert (Hq52 : (2 ^ 52 <= q)%Z).
    { pose proof (digits_bounds (Zpos m) ltac:(lia)) as B. fold d in B.
      assert (1 <= d)%Z by (unfold d; cbn; lia).
      assert (Hs' : (105 - d <= s)%Z) by (unfold s, e' in *; lia).
      assert (Hlow : (2 ^ 104 <= m')%Z).
      { rewrite Em'.
        apply Z.le_trans with (2 ^ (d - 1) * 2 ^ s)%Z;
          [ | apply Z.mul_le_mono_nonneg_r; lia].
        rewrite <- Z.pow_add_r by lia. apply Z.pow_le_mono_r; lia. }
      destruct (Z.le_gt_cases (2 ^ 52) q) as [ | Hsmall]; [assumption | ].
      exfalso. change (2 ^ 104)%Z with (2 ^ 52 * 2 ^ 52)%Z in Hlow.
      assert (q + 1 <= 2 ^ 52)%Z by lia.
      assert ((q + 1) * (q + 1) <= 2 ^ 52 * 2 ^ 52)%Z
        by (apply Z.mul_le_mono_nonneg; lia).
      lia. }
    pose proof (digits_ge q 53 ltac:(lia) Hq52). lia.
Qed.

(** The square root is correctly rounded. *)
Lemma SFsqrt_correct (x : spec_float) (hi : R) :
  JS.sf_finite x = true -> 0 <= SF2R x ->
  representable hi -> sqrt (SF2R x) <= hi ->
  JS.sf_finite (SFsqrt prec emax x) = true /\
  rounds_to (sqrt (SF2R x)) (SF2R (SFsqrt prec emax x)).
Proof.
  intros Fx H0 Hhi Hle.
  destruct x as [s | s | | s m e]; try discriminate Fx.
  - cbn [SFsqrt SF2R]. split; [reflexivity | ].
    rewrite sqrt_0. apply rounds_to_exact, representable_0.
  - destruct s.
    + exfalso. cbn [SF2R cond_Zopp] in H0. pose proof (pow2_pos e).
      assert (0 < IZR (Zpos m)) by (apply IZR_lt; lia).
      rewrite opp_IZR in H0. nra.
    + cbn [SFsqrt]. cbn [SF2R cond_Zopp] in *.
      pose proof (SFsqrt_core_binary_spec m e) as H.
      destruct (SFsqrt_core_binary prec emax (Zpos m) e) as [[q e'] l].
      destruct H as (Hv & Hq & Hprec).
      destruct (binary_round_aux_correct false q e' l _ hi
                  Hq Hv Hprec Hhi Hle)
        as (A & _ & HF & HR & _ & Hround & _).
      split; [exact HF | ]. rewrite HR. exact Hround.
Qed.

Lemma sqrt_rounds (x : float) (hi : R) :
  JS.isFinite x = true -> 0 <= F2R x ->
  representable hi -> sqrt (F2R x) <= hi ->
  JS.isFinite (PrimFloat.sqrt x) = true /\
  rounds_to (sqrt (F2R x)) (F2R (PrimFloat.sqrt x)).
Proof.
  intros Fx H0 Hhi Hle. unfold JS.isFinite, F2R in *. rewrite sqrt_spec.
  apply (SFsqrt_correct _ hi); assumption.
Qed.

(** The square root of a number between two squares lies between their
    roots. *)
Lemma sqrt_between (x : float) (lo hi : R) :
  JS.isFinite x = true -> representable lo -> representable hi ->
  0 <= lo -> 0 <= hi -> lo * lo <= F2R x <= hi * hi ->
  JS.isFinite (PrimFloat.sqrt x) = true /\
  lo <= F2R (PrimFloat.sqrt x) <= hi.
Proof.
  intros Fx Hlo Hhi Hl0 Hh0 [H1 H2].
  assert (Hup : sqrt (F2R x) <= hi).
  { rewrite <- (sqrt_square hi Hh0). now apply sqrt_le_1_alt. }
  assert (Hdown : lo <= sqrt (F2R x)).
  { rewrite <- (sqrt_square lo Hl0) at 1. now apply sqrt_le_1_alt. }
  destruct (sqrt_rounds x hi Fx ltac:(nra) Hhi Hup) as [HF HR].
  split; [exact HF | split].
  - now apply (rounds_to_ge _ _ lo HR Hlo).
  - now apply (rounds_to_le _ _ hi HR Hhi).
Qed.
End SquareRoot.

(** ** The error estimate (binary64) *)

Section ErrorEstimate.
Local Open Scope float_scope.
Variable h : HostMath.

(** With the square as a product, the estimate is the root of the sum of
    three products. *)
Lemma estimateError_products (d g a e : float) :
  (forall x, host_pow h x 2 = x * x) ->
  estimateError (Binary64 h) d (Some g) (Some a) (Some e)
  = let cross := d * 1000 * host_sin h (a * DEG_TO_RAD (Binary64 h)) in
    PrimFloat.sqrt (g * g + cross * cross + e * e).
Proof.
  intros Hpow. unfold estimateError.
  cbn [Binary64 lit nadd nmul Math_sin Math_sqrt Math_pow].
  evaluate (JS.literal 2). evaluate (JS.literal 1000).
  rewrite !Hpow. reflexivity.
Qed.

Lemma estimateError_defaults (d : float) (g a e : option float) :
  estimateError (Binary64 h) d g a e
  = estimateError (Binary64 h) d
      (Some (match g with Some v => v | None => 10 end))
      (Some (match a with Some v => v | None => 0.5 end))
      (Some (match e with Some v => v | None => 0.5 end)).
Proof.
  unfold estimateError. cbn [Binary64 lit].
  evaluate (JS.literal 10). evaluate (JS.literal 0.5).
  destruct g, a, e; reflexivity.
Qed.

(** At 0.0001 km with the defaults: the cross-range term is at most 1/8 in
    magnitude, so the sum lies between 100.25 and 100.265625 and its root
    between 10 and 10.1. *)
Lemma estimateError_100_m :
  (forall x, host_pow h x 2 = x * x) ->
  (PrimFloat.abs (host_sin h (0.5 * DEG_TO_RAD (Binary64 h))) <=? 1) = true ->
  ((10 <=? estimateError (Binary64 h) 0.0001 None None None)
   && (estimateError (Binary64 h) 0.0001 None None None <=? 10.1)) = true.
Proof.
  intros Hpow Hsin.
  rewrite estimateError_defaults, estimateError_products by exact Hpow.
  cbv zeta.
  set (s := host_sin h (0.5 * DEG_TO_RAD (Binary64 h))) in *.
  assert (Fs : JS.isFinite s = true)
    by (apply (abs_leb_finite s 1); [reflexivity | exact Hsin]).
  assert (Hs : (Rabs (F2R s) <= 1)%R).
  { rewrite <- F2R_abs, <- F2R_1.
    apply leb_F2R; [now rewrite isFinite_abs | reflexivity | exact Hsin]. }
  evaluate (0.0001 * 1000). evaluate (10 * 10). evaluate (0.5 * 0.5).
  assert (R8 : representable (/ 8)%R).
  { replace (/ 8)%R with (IZR 1 * pow2 (-3))%R.
    - apply representable_dyadic; lia.
    - change (-3)%Z with (- (3))%Z. rewrite pow2_opp, (pow2_IZR 3) by lia.
      change (IZR (2 ^ 3)) with 8%R. lra. }
  assert (R64 : representable (/ 64)%R).
  { replace (/ 64)%R with (IZR 1 * pow2 (-6))%R.
    - apply representable_dyadic; lia.
    - change (-6)%Z with (- (6))%Z. rewrite pow2_opp, (pow2_IZR 6) by lia.
      change (IZR (2 ^ 6)) with 64%R. lra. }
  assert (Rlo : representable (IZR 6416 * pow2 (-6))%R)
    by (apply representable_dyadic; lia).
  assert (Rhi : representable (IZR 6417 * pow2 (-6))%R)
    by (apply representable_dyadic; lia).
  assert (Rm : representable (IZR 6401 * pow2 (-6))%R)
    by (apply representable_dyadic; lia).
  assert (E6 : pow2 (-6) = (/ 64)%R).
  { change (-6)%Z with (- (6))%Z. rewrite pow2_opp, (pow2_IZR 6) by lia.
    reflexivity. }
  rewrite E6 in Rlo, Rhi, Rm.
  assert (R100 : representable 100%R).
  { replace 100%R with (IZR 100) by reflexivity. apply representable_IZR.
    lia. }
  assert (R10 : representable 10%R).
  { replace 10%R with (IZR 10) by reflexivity. apply representable_IZR.
    lia. }
  set (k := 0.1) in *.
  assert (Fk : JS.isFinite k = true) by reflexivity.
  assert (Hk : (0 <= F2R k <= / 8)%R).
  { unfold k. literal_value (0.1)%float. lra. }
  destruct (mul_between k s (- / 8)%R (/ 8)%R Fk Fs
              (representable_opp _ R8) R8) as [Fc Hc].
  { unfold Rabs in Hs. destruct Rcase_abs; nra. }
  set (c := k * s) in *.
  destruct (mul_between c c 0%R (/ 64)%R Fc Fc representable_0 R64)
    as [Fcc Hcc]; [nra | ].
  destruct (F2R_integer 100 100) as [F100 E100]; [reflexivity | lia | ].
  destruct (add_between 100 (c * c) 100%R (IZR 6401 * / 64)%R F100 Fcc
              R100 Rm) as [Fa Ha]; [rewrite E100; lra | ].
  assert (F25 : JS.isFinite 0.25 = true) by reflexivity.
  assert (E25 : F2R 0.25 = (/ 4)%R).
  { literal_value (0.25)%float. lra. }
  destruct (add_between (100 + c * c) 0.25 (IZR 6416 * / 64)%R
              (IZR 6417 * / 64)%R Fa F25 Rlo Rhi) as [Fsum Hsum];
    [rewrite E25; lra | ].
  assert (F101 : JS.isFinite 10.1 = true) by reflexivity.
  assert (H101 : (0 <= F2R 10.1)%R /\ (IZR 6417 * / 64 <= F2R 10.1 * F2R 10.1)%R).
  { literal_value (10.1)%float. split; lra. }
  destruct (sqrt_between (100 + c * c + 0.25) 10%R (F2R 10.1) Fsum R10
              (representable_F2R _)) as [Fr Hr]; try lra.
  apply andb_true_iff. split.
  - apply leb_F2R; [reflexivity | exact Fr | ].
    destruct (F2R_integer 10 10) as [_ E10]; [reflexivity | lia | ].
    rewrite E10. lra.
  - apply leb_F2R; [exact Fr | reflexivity | ]. lra.
Qed.
(** C8.  On binary64, for a host whose [Math.pow(x, 2)] is the product
    [x * x]: [estimateError] is the square root of the sum of the squares of
    the GPS error, of [distanceKm * 1000 * sin(azimuthError in radians)] and
    of the distance error, each operation being the one of the format;
    omitted arguments stand for 10, 0.5 and 0.5; and for a distance of
    0.0001 km with the defaults the estimate lies in [10, 10.1], as soon as
    the host's sine of the default azimuth error is at most 1 in magnitude. *)
Theorem estimateError_root_sum_square :
  (forall x, host_pow h x 2 = x * x) ->
  (PrimFloat.abs (host_sin h (0.5 * DEG_TO_RAD (Binary64 h))) <=? 1) = true ->
  (forall d g a e,
     estimateError (Binary64 h) d (Some g) (Some a) (Some e)
     = let cross := d * 1000 * host_sin h (a * DEG_TO_RAD (Binary64 h)) in
       PrimFloat.sqrt (g * g + cross * cross + e * e)) /\
  (forall d g a e,
     estimateError (Binary64 h) d g a e
     = estimateError (Binary64 h) d
         (Some (match g with Some v => v | None => 10 end))
         (Some (match a with Some v => v | None => 0.5 end))
         (Some (match e with Some v => v | None => 0.5 end))) /\
  ((10 <=? estimateError (Binary64 h) 0.0001 None None None)
   && (estimateError (Binary64 h) 0.0001 None None None <=? 10.1)) = true.
Proof.
  intros Hpow Hsin. split; [ | split].
  - intros. now apply estimateError_products.
  - intros. apply estimateError_defaults.
  - now apply estimateError_100_m.
Qed.
End ErrorEstimate.

Section ErrorEstimateExample.
Local Open Scope float_scope.

Lemma estimateError_root_sum_square_witness :
  ((forall x, host_pow tabulatedHost x 2 = x * x) /\
   (PrimFloat.abs
      (host_sin tabulatedHost (0.5 * DEG_TO_RAD (Binary64 tabulatedHost)))
    <=? 1) = true) /\
  ((10 <=? estimateError (Binary64 tabulatedHost) 0.0001 None None None)
   && (estimateError (Binary64 tabulatedHost) 0.0001 None None None <=? 10.1))
  = true.
Proof.
  assert (Hpow : forall x, host_pow tabulatedHost x 2 = x * x)
    by reflexivity.
  assert (Hsin : (PrimFloat.abs
                    (host_sin tabulatedHost
                       (0.5 * DEG_TO_RAD (Binary64 tabulatedHost)))
                  <=? 1) = true) by (vm_compute; reflexivity).
  split; [split; assumption | ].
  exact (proj2 (proj2 (estimateError_root_sum_square tabulatedHost Hpow
                         Hsin))).
Defined.
End ErrorEstimateExample.

(** ** Symmetry of the distance (binary64) *)

Section Symmetry.
Local Open Scope float_scope.

(** Degrees to radians keeps a number finite. *)
Lemma radians_finite (x : float) :
  JS.isFinite x = true ->
  JS.isFinite (x * (JS.Math_PI / JS.literal 180)) = true.
Proof.
  intros Fx. evaluate (JS.Math_PI / JS.literal 180).
  set (k := 0.017453292519943295).
  assert (Hk : (0 <= F2R k <= 1)%R).
  { unfold k. literal_value (0.017453292519943295)%float. lra. }
  apply (mul_rounds x k (Rabs (F2R x)) Fx eq_refl).
  - apply representable_Rabs, representable_F2R.
  - rewrite Rabs_mult, (Rabs_pos_eq (F2R k)) by lra.
    pose proof (Rabs_pos (F2R x)). nra.
Qed.

(** On binary64 the distance of a point with finite coordinates to itself is
    exactly +0, for any host that returns sin(+0) = +0 and atan2(+0, 1) = +0,
    as ECMAScript prescribes, and whose cosine of a finite number is at most
    1 in magnitude. *)
Lemma calculateDistance_zero_binary64 (h : HostMath) (la lo : float) :
  host_sin h 0 = 0 ->
  host_atan2 h 0 1 = 0 ->
  (forall x, JS.isFinite x = true ->
             (PrimFloat.abs (host_cos h x) <=? 1) = true) ->
  JS.isFinite la = true -> JS.isFinite lo = true ->
  calculateDistance (Binary64 h) la lo la lo = 0.
Proof.
  intros Hsin Hatan2 Hcos Hla Hlo.
  unfold calculateDistance, DEG_TO_RAD, EARTH_RADIUS_KM.
  cbn [Binary64 lit Math_PI nadd nsub nmul ndiv Math_sin Math_cos Math_sqrt
       Math_atan2].
  rewrite !float_sub_diag by assumption.
  set (P := host_cos h _ * host_cos h _).
  assert (HP : JS.isFinite P = true).
  { apply mul_le_one_finite; apply Hcos, radians_finite, Hla. }
  evaluate (0 * (JS.Math_PI / JS.literal 180) / JS.literal 2).
  rewrite Hsin.
  destruct (float_mul_zero_r P HP) as [E | E]; rewrite E.
  - evaluate (0 * 0 + 0 * 0).
    evaluate (PrimFloat.sqrt 0). evaluate (PrimFloat.sqrt (JS.literal 1 - 0)).
    rewrite Hatan2. vm_compute. reflexivity.
  - evaluate (0 * 0 + -0 * 0).
    evaluate (PrimFloat.sqrt 0). evaluate (PrimFloat.sqrt (JS.literal 1 - 0)).
    rewrite Hatan2. vm_compute. reflexivity.
Qed.

(** A number that is not NaN equals itself under [==]. *)
Lemma eqb_same (x : float) : JS.isNaN x = false -> (x =? x) = true.
Proof.
  unfold JS.isNaN, is_nan. now destruct (x =? x).
Qed.

(** C9.  On binary64 [calculateDistance] is symmetric in its two points: the
    two calls return the same double for all inputs, so they are equal under
    [==] whenever that double is not NaN; and it returns exactly +0 when the
    two points are the same point with finite coordinates.  The host's
    [Math] enters through four properties: the sine is odd, sin(+0) = +0 and
    atan2(+0, 1) = +0 (both prescribed by ECMAScript), and the cosine of a
    finite number is at most 1 in magnitude. *)
Theorem calculateDistance_symmetric_zero (h : HostMath) :
  (forall x, host_sin h (- x) = - host_sin h x) ->
  host_sin h 0 = 0 ->
  host_atan2 h 0 1 = 0 ->
  (forall x, JS.isFinite x = true ->
             (PrimFloat.abs (host_cos h x) <=? 1) = true) ->
  (forall lat1 lon1 lat2 lon2,
     calculateDistance (Binary64 h) lat1 lon1 lat2 lon2
     = calculateDistance (Binary64 h) lat2 lon2 lat1 lon1) /\
  (forall lat1 lon1 lat2 lon2,
     JS.isNaN (calculateDistance (Binary64 h) lat1 lon1 lat2 lon2) = false ->
     (calculateDistance (Binary64 h) lat1 lon1 lat2 lon2
      =? calculateDistance (Binary64 h) lat2 lon2 lat1 lon1) = true) /\
  (forall la lo,
     JS.isFinite la = true -> JS.isFinite lo = true ->
     calculateDistance (Binary64 h) la lo la lo = 0).
Proof.
  intros Hodd Hsin Hatan2 Hcos. split; [ | split].
  - intros. now apply calculateDistance_symmetric_binary64.
  - intros lat1 lon1 lat2 lon2 N.
    rewrite <- (calculateDistance_symmetric_binary64 h lat1 lon1 lat2 lon2)
      by exact Hodd.
    now apply eqb_same.
  - intros. now apply calculateDistance_zero_binary64.
Qed.

Lemma calculateDistance_symmetric_zero_witness :
  ((forall x, host_sin sampleHost (- x) = - host_sin sampleHost x) /\
   host_sin sampleHost 0 = 0 /\
   host_atan2 sampleHost 0 1 = 0 /\
   (forall x, JS.isFinite x = true ->
              (PrimFloat.abs (host_cos sampleHost x) <=? 1) = true)) /\
  calculateDistance (Binary64 sampleHost) 10.762622 106.660172 10.778945
    106.677834
  = calculateDistance (Binary64 sampleHost) 10.778945 106.677834 10.762622
      106.660172 /\
  calculateDistance (Binary64 sampleHost) 10.762622 106.660172 10.762622
    106.660172
  = 0.
Proof.
  assert (Hodd : forall x, host_sin sampleHost (- x) = - host_sin sampleHost x)
    by reflexivity.
  assert (Hcos : forall x, JS.isFinite x = true ->
                   (PrimFloat.abs (host_cos sampleHost x) <=? 1) = true)
    by reflexivity.
  split; [repeat split; assumption || reflexivity | ].
  destruct (calculateDistance_symmetric_zero sampleHost Hodd eq_refl eq_refl
              Hcos) as (Hsym & _ & Hzero).
  split; [apply Hsym | apply Hzero; reflexivity].
Defined.
End Symmetry.

(** ** NaN through the geodesic functions *)

Section NotANumberResults.
Local Open Scope float_scope.
Variable h : HostMath.

(** There is one NaN. *)
Lemma isNaN_nan (x : float) : JS.isNaN x = true -> x = nan.
Proof.
  intros H. apply isNaN_spec in H. apply Prim2SF_inj. rewrite H. reflexivity.
Qed.

Lemma mul_nan_r (x y : float) : JS.isNaN y = true -> JS.isNaN (x * y) = true.
Proof.
  rewrite !isNaN_spec, mul_spec. intros ->. now destruct (Prim2SF x).
Qed.

Lemma div_nan_l (x y : float) : JS.isNaN x = true -> JS.isNaN (x / y) = true.
Proof.
  rewrite !isNaN_spec, div_spec. intros ->. reflexivity.
Qed.

Lemma sqrt_nan (x : float) :
  JS.isNaN x = true -> JS.isNaN (PrimFloat.sqrt x) = true.
Proof.
  rewrite !isNaN_spec, sqrt_spec. intros ->. reflexivity.
Qed.

Lemma sub_nan_r (x y : float) : JS.isNaN y = true -> JS.isNaN (x - y) = true.
Proof.
  rewrite !isNaN_spec, sub_spec. intros ->. now destruct (Prim2SF x).
Qed.

(** A target whose latitude is NaN is at a distance NaN: nothing in
    [calculateDistance] stops a NaN. *)
Lemma calculateDistance_nan (lat1 lon1 lat2 lon2 : float) :
  specialCases h -> JS.isNaN lat2 = true ->
  JS.isNaN (calculateDistance (Binary64 h) lat1 lon1 lat2 lon2) = true.
Proof.
  intros (_ & _ & _ & Hsin & _ & _ & Hatan2 & _) N.
  unfold calculateDistance.
  cbn [Binary64 nadd nsub nmul ndiv Math_sin Math_cos Math_sqrt Math_atan2].
  apply mul_nan_r, mul_nan_r, Hatan2. apply orb_true_iff. left.
  apply sqrt_nan, add_nan_l, mul_nan_l, Hsin, div_nan_l, mul_nan_l, sub_nan_l.
  exact N.
Qed.

(** Nor does anything in [calculateBearing]. *)
Lemma calculateBearing_nan (lat1 lon1 lat2 lon2 : float) :
  specialCases h -> JS.isNaN lat2 = true ->
  JS.isNaN (calculateBearing (Binary64 h) lat1 lon1 lat2 lon2) = true.
Proof.
  intros (_ & _ & _ & _ & Hcos & _ & Hatan2 & _) N.
  unfold calculateBearing.
  cbn [Binary64 nadd nsub nmul ndiv nrem Math_sin Math_cos Math_atan2].
  apply rem_nan_l, add_nan_l, mul_nan_l, Hatan2. apply orb_true_iff. left.
  apply mul_nan_r, Hcos, mul_nan_l. exact N.
Qed.

Lemma abs_nan (x : float) :
  JS.isNaN x = true -> JS.isNaN (PrimFloat.abs x) = true.
Proof. rewrite !isNaN_spec, abs_spec. intros ->. reflexivity. Qed.
End NotANumberResults.

(** ** The range of the distance (binary64) *)

Section DistanceRange.
Local Open Scope float_scope.

Lemma round_aux_not_negative_zero (m e : Z) (l : location) :
  binary_round_aux prec emax false m e l <> S754_zero true.
Proof.
  unfold binary_round_aux.
  destruct (shr_fexp prec emax m e l) as [mrs' e'].
  destruct (shr_fexp prec emax _ e' loc_Exact) as [mrs'' e''].
  destruct (shr_m mrs''); try discriminate.
  destruct (e'' <=? emax - prec)%Z; discriminate.
Qed.

(** Only the negative zero has the negative zero as its square root. *)
Lemma sqrt_negative_zero (z : float) : PrimFloat.sqrt z = -0 -> z = -0.
Proof.
  intros H. apply Prim2SF_inj. apply (f_equal Prim2SF) in H.
  rewrite sqrt_spec in H. change (Prim2SF (-0)) with (S754_zero true) in *.
  unfold SF64sqrt, SFsqrt in H.
  destruct (Prim2SF z) as [s | [ | ] | | [ | ] m e]; try discriminate H;
    try assumption.
  destruct (SFsqrt_core_binary prec emax (Zpos m) e) as [[mz ez] lz].
  now apply round_aux_not_negative_zero in H.
Qed.

(** A difference [1 - a] is never the negative zero: a difference that
    vanishes is [+0], and one that does not is at least the unit of its
    operands in magnitude. *)
Lemma one_minus_not_negative_zero (a : float) : 1 - a <> -0.
Proof.
  intros H. apply (f_equal Prim2SF) in H. rewrite sub_spec in H.
  change (Prim2SF (-0)) with (S754_zero true) in H.
  change (Prim2SF 1) with (S754_finite false 4503599627370496 (-52)) in H.
  pose proof (Prim2SF_valid a) as Va. unfold SF64sub in H.
  destruct (Prim2SF a) as [s | s | | s m e]; cbn [SFsub] in H;
    try discriminate H.
  change IntDef.Z.min with Z.min in H.
  destruct (valid_shape s m e Va) as (Hm & He & _).
  set (ez := Z.min (-52) e) in H.
  set (za := cond_Zopp false
               (Zpos (fst (shl_align 4503599627370496 (-52) ez)))) in H.
  set (zb := cond_Zopp s (Zpos (fst (shl_align m e ez)))) in H.
  assert (Ea : (IZR za * pow2 ez = 1)%R).
  { unfold za. rewrite aligned_value by (unfold ez; lia).
    cbn [SF2R cond_Zopp]. change 4503599627370496%Z with (2 ^ 52)%Z.
    rewrite <- (pow2_IZR 52), <- pow2_add by lia. apply pow2_0. }
  assert (Eb : (IZR zb * pow2 ez = SF2R (S754_finite s m e))%R)
    by (unfold zb; apply aligned_value; unfold ez; lia).
  destruct (za - zb)%Z as [ | p | p] eqn:D; cbn [binary_normalize] in H.
  - discriminate H.
  - unfold binary_round in H.
    destruct (shl_align p ez _) as [mz ez'] in H.
    now apply round_aux_not_negative_zero in H.
  - pose proof (pow2_pos ez) as HP.
    assert (Hv : (IZR (Zpos p) * pow2 ez = SF2R (S754_finite s m e) - 1)%R).
    { replace (Zpos p) with (zb - za)%Z by lia.
      rewrite minus_IZR, Rmult_minus_distr_r. lra. }
    assert (H1 : (1 <= IZR (Zpos p))%R) by (apply IZR_le; lia).
    destruct (binary_round_correct true p ez (SF2R (S754_finite s m e))
                (representable_SF2R _ Va) ltac:(lra))
      as (A & _ & _ & HR & _ & Hn).
    rewrite H in HR. cbn [SF2R] in HR.
    assert (Hg : representable (IZR 1 * pow2 ez))
      by (apply representable_dyadic; unfold ez; lia).
    specialize (Hn _ Hg). replace A with 0%R in Hn by lra.
    unfold Rabs in Hn; repeat destruct Rcase_abs; nra.
Qed.

(** A number between two finite numbers is finite. *)
Lemma between_finite (lo hi t : float) :
  JS.isFinite lo = true -> JS.isFinite hi = true ->
  (lo <=? t) = true -> (t <=? hi) = true -> JS.isFinite t = true.
Proof.
  unfold JS.isFinite. rewrite !leb_spec. unfold SFleb, SFcompare.
  destruct (Prim2SF t) as [s | [ | ] | | s m e]; try reflexivity;
    destruct (Prim2SF lo) as [sl | sl | | sl ml el]; try discriminate;
    destruct (Prim2SF hi) as [sh | sh | | sh mh eh]; try discriminate;
    try destruct sl; try destruct sh; discriminate.
Qed.

(** X20.  The distance is NaN or lies between 0 and 20015.086796020572 km,
    half the circumference of the sphere as the format has it
    (6371 * Math.PI), for every host whose [atan2] keeps to the first
    quadrant: both its arguments are square roots, never negative, and the
    second is never the negative zero. *)
Theorem calculateDistance_range_binary64 (h : HostMath) :
  firstQuadrant h ->
  forall lat1 lon1 lat2 lon2 : float,
    let d := calculateDistance (Binary64 h) lat1 lon1 lat2 lon2 in
    JS.isNaN d = true \/ ((0 <=? d) && (d <=? 20015.086796020572)) = true.
Proof.
  intros Hq lat1 lon1 lat2 lon2.
  unfold calculateDistance, EARTH_RADIUS_KM.
  cbn [Binary64 lit Math_PI nadd nsub nmul ndiv Math_sin Math_cos Math_sqrt
       Math_atan2].
  evaluate (JS.literal 1). evaluate (JS.literal 2).
  evaluate (JS.literal 6371.0).
  match goal with
  | |- context [host_atan2 h (PrimFloat.sqrt ?u) _] => set (a := u)
  end.
  pose proof (Hq (PrimFloat.sqrt a) (PrimFloat.sqrt (1 - a))
                (sqrt_not_negative _) (sqrt_not_negative _)
                (fun E => one_minus_not_negative_zero a
                            (sqrt_negative_zero _ E))) as Ht.
  set (t := host_atan2 h _ _) in *. cbv zeta.
  apply orb_true_iff in Ht. destruct Ht as [HN | Ht].
  - left. now apply mul_nan_r, mul_nan_r.
  - right. apply andb_true_iff in Ht. destruct Ht as [H0 H1].
    replace (JS.Math_PI / 2) with 1.5707963267948966 in H1
      by (vm_compute; reflexivity).
    assert (Ft : JS.isFinite t = true)
      by (apply (between_finite 0 1.5707963267948966 t); auto).
    apply leb_F2R in H0; [ | reflexivity | exact Ft].
    apply leb_F2R in H1; [ | exact Ft | reflexivity].
    rewrite F2R_0 in H0.
    literal_value (1.5707963267948966)%float.
    destruct (mul_between 2 t 0 (F2R 3.141592653589793) eq_refl Ft
                representable_0 (representable_F2R _)) as [F2 H2].
    { literal_value (3.141592653589793)%float. literal_value (2)%float.
      lra. }
    destruct (mul_between 6371 (2 * t) 0 (F2R 20015.086796020572) eq_refl F2
                representable_0 (representable_F2R _)) as [F3 H3].
    { literal_value (3.141592653589793)%float.
      literal_value (20015.086796020572)%float.
      literal_value (6371)%float. lra. }
    apply andb_true_iff. split.
    + apply leb_F2R; [reflexivity | exact F3 | ]. rewrite F2R_0. lra.
    + apply leb_F2R; [exact F3 | reflexivity | ]. lra.
Qed.

Lemma calculateDistance_range_binary64_witness :
  firstQuadrant flatHost /\
  let d :=
    calculateDistance (Binary64 flatHost) 10 106 11 107 in
  JS.isNaN d = true \/ ((0 <=? d) && (d <=? 20015.086796020572)) = true.
Proof.
  assert (H : firstQuadrant flatHost) by (intros y x _ _ _; reflexivity).
  split; [exact H | ].
  exact (calculateDistance_range_binary64 flatHost H 10 106 11 107).
Defined.
End DistanceRange.

(** ** Two requests, evaluated step by step *)

Section NearPole.
Local Open Scope float_scope.
Variable h : HostMath.

(** The request near the pole: the sum handed to [Math.asin] is
    1.0000000000000002, and NaN spreads from the latitude to the longitude. *)
Lemma target_near_pole :
  specialCases h -> nearPoleValues h ->
  calculateTargetCoordinate (Binary64 h) 89.9682 0 0 3.536
  = {| lat := nan; lon := nan |}.
Proof.
  intros (Hsin0 & Hcos0 & _ & Hsin & Hcos & Hasin & Hatan2 & _)
         (S1 & C1 & S2 & C2).
  unfold calculateTargetCoordinate, DEG_TO_RAD, RAD_TO_DEG, EARTH_RADIUS_KM.
  cbn [Binary64 lit Math_PI nadd nsub nmul ndiv nrem Math_sin Math_cos
       Math_asin Math_sqrt Math_atan2 Math_pow lat lon].
  evaluate (89.9682 * (JS.Math_PI / JS.literal 180)).
  evaluate (0 * (JS.Math_PI / JS.literal 180)).
  evaluate (3.536 / JS.literal 6371.0).
  rewrite S1, C1, S2, C2, Hcos0.
  evaluate (0x1.fffffad4f8ff0p-1 * 0x1.fffffad4f8bdap-1
            + 0x1.22fccefa068e5p-11 * 0x1.22fcd62a03c93p-11 * 1).
  rewrite (isNaN_nan _ (Hasin 0x1.0000000000001p+0 eq_refl)).
  rewrite (isNaN_nan _ (Hsin nan eq_refl)).
  evaluate (0x1.fffffad4f8bdap-1 - 0x1.fffffad4f8ff0p-1 * nan).
  rewrite (isNaN_nan _ (Hatan2 _ nan (orb_true_r _))).
  f_equal; vm_compute; reflexivity.
Qed.
End NearPole.

Section Sample.
Local Open Scope float_scope.
Variable h : HostMath.

(** The sample request: due north, the longitude should not move, but the
    way to radians and back loses 4e-14 degrees. *)
Lemma target_of_sample :
  specialCases h -> sampleValues h ->
  calculateTargetCoordinate (Binary64 h) 21.028511 105.804817 0 5
  = {| lat := 21.073477080295934; lon := 105.80481699999996 |}.
Proof.
  intros (Hsin0 & Hcos0 & _ & _ & _ & _ & _ & Hatan0)
         (S1 & C1 & S2 & C2 & A & S3 & C3 & S4 & C4 & T).
  unfold calculateTargetCoordinate, DEG_TO_RAD, RAD_TO_DEG, EARTH_RADIUS_KM.
  cbn [Binary64 lit Math_PI nadd nsub nmul ndiv nrem Math_sin Math_cos
       Math_asin Math_sqrt Math_atan2 Math_pow lat lon].
  repeat first
    [ host_argument h
    | progress rewrite ?S1, ?C1, ?S2, ?C2, ?A, ?S3, ?C3, ?Hsin0, ?Hcos0 ].
  match goal with
  | |- context [host_atan2 h 0 ?x] => rewrite (Hatan0 x eq_refl)
  end.
  f_equal; vm_compute; reflexivity.
Qed.

(** Back from that target the angle is -8.8e-13 radians, which the
    reduction into [0, 360) turns into 359.9999999999493 degrees. *)
Lemma bearing_of_sample :
  specialCases h -> sampleValues h ->
  calculateBearing (Binary64 h) 21.028511 105.804817
    21.073477080295934 105.80481699999996
  = 359.9999999999493.
Proof.
  intros _ (S1 & C1 & S2 & C2 & A & S3 & C3 & S4 & C4 & T).
  unfold calculateBearing, DEG_TO_RAD, RAD_TO_DEG.
  cbn [Binary64 lit Math_PI nadd nsub nmul ndiv nrem Math_sin Math_cos
       Math_asin Math_sqrt Math_atan2 Math_pow].
  repeat first
    [ host_argument h
    | progress rewrite ?S1, ?C1, ?S3, ?C3, ?S4, ?C4, ?T ].
  vm_compute. reflexivity.
Qed.
End Sample.

Section TabulatedHost.
Local Open Scope float_scope.

(** [tabulatedHost] is a host of the kind the examples ask for. *)
Lemma tabulatedHost_specialCases : specialCases tabulatedHost.
Proof.
  unfold specialCases, tabulatedHost.
  cbn [host_sin host_cos host_asin host_atan2].
  repeat split.
  - intros x N. now rewrite N.
  - intros x N. now rewrite N.
  - intros x H. rewrite H, orb_true_r. reflexivity.
  - intros y x N. now rewrite N.
  - intros x H. apply ltb_not_nan in H. destruct H as [_ N].
    rewrite N. reflexivity.
Qed.

Lemma tabulatedHost_nearPoleValues : nearPoleValues tabulatedHost.
Proof. repeat split. Qed.

Lemma tabulatedHost_sampleValues : sampleValues tabulatedHost.
Proof. repeat split. Qed.
End TabulatedHost.

(** ** Where the code leaves the ranges and the round trips *)

Section Failures.
Local Open Scope float_scope.

(** C6.  The target is not always in range.  For the request
    (89.9682, 0, 0, 3.536), which [validateInput] accepts, the sum handed to
    [Math.asin] is 1.0000000000000002; the source does not clamp it, so the
    latitude is NaN and the longitude after it, and [calculateTarget] reports
    success with this target.  This holds for every host that follows
    ECMAScript's special cases and returns the correctly rounded sine and
    cosine at the two angles of the request. *)
Theorem target_not_a_number (h : HostMath) :
  specialCases h -> nearPoleValues h ->
  let point := calculateTargetCoordinate (Binary64 h) 89.9682 0 0 3.536 in
  validateInput (validationData nearPole) = EmptyString /\
  point = {| lat := nan; lon := nan |} /\
  (-90 <=? lat point) && (lat point <=? 90) = false /\
  (-180 <=? lon point) && (lon point <=? 180) = false /\
  match calculateTarget h nearPole with
  | Success data => position (target data) = {| lat := nan; lon := nan |}
  | Failure _ => False
  end.
Proof.
  intros Hspecial Hvalues point.
  assert (E : point = {| lat := nan; lon := nan |})
    by now apply target_near_pole.
  split; [vm_compute; reflexivity | ].
  split; [exact E | ]. rewrite E. cbn [lat lon].
  split; [reflexivity | ]. split; [reflexivity | ].
  unfold calculateTarget.
  replace (validateInput (validationData nearPole)) with EmptyString
    by (vm_compute; reflexivity).
  cbn [JS.truthy String.eqb negb target position nearPole
       observerLat observerLon azimuth distance].
  exact E.
Qed.

Lemma target_not_a_number_witness :
  (specialCases tabulatedHost /\ nearPoleValues tabulatedHost) /\
  let point :=
    calculateTargetCoordinate (Binary64 tabulatedHost) 89.9682 0 0 3.536 in
  validateInput (validationData nearPole) = EmptyString /\
  point = {| lat := nan; lon := nan |} /\
  (-90 <=? lat point) && (lat point <=? 90) = false /\
  (-180 <=? lon point) && (lon point <=? 180) = false /\
  match calculateTarget tabulatedHost nearPole with
  | Success data => position (target data) = {| lat := nan; lon := nan |}
  | Failure _ => False
  end.
Proof.
  split; [split; [exact tabulatedHost_specialCases
                 | exact tabulatedHost_nearPoleValues] | ].
  exact (target_not_a_number tabulatedHost tabulatedHost_specialCases
           tabulatedHost_nearPoleValues).
Defined.

(** C10.  The longitude is not always below 180: for the request
    (89.9682, 0, 0, 3.536) it is NaN, and NaN < 180 is false (the same
    missing clamp as in C6).  The example of the claim does hold: from
    longitude 180, due north over the smallest positive distance, the target
    longitude is -180, not 180. *)
Theorem longitude_not_below_180 (h : HostMath) :
  specialCases h -> nearPoleValues h ->
  (lon (calculateTargetCoordinate (Binary64 h) 89.9682 0 0 3.536) <? 180)
  = false /\
  calculateTargetCoordinate (Binary64 h) 0 180 0 0x1p-1074
  = {| lat := 0; lon := -180 |}.
Proof.
  intros Hspecial Hvalues. split.
  - rewrite (target_near_pole h Hspecial Hvalues). reflexivity.
  - destruct Hspecial as (Hsin0 & Hcos0 & Hasin0 & _ & _ & _ & _ & Hatan0).
    apply antimeridian_binary64; try assumption. now apply Hatan0.
Qed.

Lemma longitude_not_below_180_witness :
  (specialCases tabulatedHost /\ nearPoleValues tabulatedHost) /\
  (lon (calculateTargetCoordinate (Binary64 tabulatedHost) 89.9682 0 0 3.536)
   <? 180) = false /\
  calculateTargetCoordinate (Binary64 tabulatedHost) 0 180 0 0x1p-1074
  = {| lat := 0; lon := -180 |}.
Proof.
  split; [split; [exact tabulatedHost_specialCases
                 | exact tabulatedHost_nearPoleValues] | ].
  exact (longitude_not_below_180 tabulatedHost tabulatedHost_specialCases
           tabulatedHost_nearPoleValues).
Defined.

(** C4.  The distance does not always come back.  For the request
    (89.9682, 0, 0, 3.536) the target is NaN (C6), so the distance computed
    back from the observer to the target is NaN: it is not within 1e-6 km of
    3.536, and the [distanceError] that [calculateTarget] reports for the
    request is NaN. *)
Theorem distance_round_trip_not_a_number (h : HostMath) :
  specialCases h -> nearPoleValues h ->
  let point := calculateTargetCoordinate (Binary64 h) 89.9682 0 0 3.536 in
  let back :=
    calculateDistance (Binary64 h) 89.9682 0 (lat point) (lon point) in
  validateInput (validationData nearPole) = EmptyString /\
  JS.isNaN back = true /\
  (PrimFloat.abs (back - 3.536) <=? 1e-6) = false /\
  match calculateTarget h nearPole with
  | Success data => JS.isNaN (distanceError (verification data)) = true
  | Failure _ => False
  end.
Proof.
  intros Hspecial Hvalues point back.
  assert (E : point = {| lat := nan; lon := nan |})
    by now apply target_near_pole.
  assert (N : JS.isNaN back = true).
  { unfold back. apply calculateDistance_nan; [exact Hspecial | ].
    rewrite E. reflexivity. }
  split; [vm_compute; reflexivity | ]. split; [exact N | ].
  split; [now apply leb_nan_l, abs_nan, sub_nan_l | ].
  unfold calculateTarget.
  replace (validateInput (validationData nearPole)) with EmptyString
    by (vm_compute; reflexivity).
  cbn [JS.truthy String.eqb negb verification distanceError nearPole
       observerLat observerLon azimuth distance].
  now apply abs_nan, sub_nan_l.
Qed.

Lemma distance_round_trip_not_a_number_witness :
  (specialCases tabulatedHost /\ nearPoleValues tabulatedHost) /\
  let point :=
    calculateTargetCoordinate (Binary64 tabulatedHost) 89.9682 0 0 3.536 in
  let back :=
    calculateDistance (Binary64 tabulatedHost) 89.9682 0 (lat point)
      (lon point) in
  validateInput (validationData nearPole) = EmptyString /\
  JS.isNaN back = true /\
  (PrimFloat.abs (back - 3.536) <=? 1e-6) = false /\
  match calculateTarget tabulatedHost nearPole with
  | Success data => JS.isNaN (distanceError (verification data)) = true
  | Failure _ => False
  end.
Proof.
  split; [split; [exact tabulatedHost_specialCases
                 | exact tabulatedHost_nearPoleValues] | ].
  exact (distance_round_trip_not_a_number tabulatedHost
           tabulatedHost_specialCases tabulatedHost_nearPoleValues).
Defined.

(** C3.  The bearing does not always come back.  For the request
    (89.9682, 0, 0, 3.536) the target is NaN (C6), and so are the bearing
    computed back and the [bearingError] that [calculateTarget] reports.  And
    for the sample request of the map viewer, (21.028511, 105.804817) with
    bearing 0 over 5 km, the target longitude comes out as
    105.80481699999996, a hair west of the observer's; [calculateBearing]
    folds the small negative angle up to 359.9999999999493, and the
    [bearingError] reported, the plain difference to the input bearing 0, is
    359.9999999999493 and not within 1e-6.  This holds for every host that
    follows ECMAScript's special cases and returns the correctly rounded
    values at the arguments of [nearPoleValues] and [sampleValues]. *)
Theorem bearing_round_trip_fails (h : HostMath) :
  specialCases h -> nearPoleValues h -> sampleValues h ->
  (let point := calculateTargetCoordinate (Binary64 h) 89.9682 0 0 3.536 in
   let back :=
     calculateBearing (Binary64 h) 89.9682 0 (lat point) (lon point) in
   validateInput (validationData nearPole) = EmptyString /\
   JS.isNaN back = true /\
   (PrimFloat.abs (back - 0) <=? 1e-6) = false /\
   match calculateTarget h nearPole with
   | Success data => JS.isNaN (bearingError (verification data)) = true
   | Failure _ => False
   end) /\
  (let point :=
     calculateTargetCoordinate (Binary64 h) 21.028511 105.804817 0 5 in
   let back :=
     calculateBearing (Binary64 h) 21.028511 105.804817 (lat point)
       (lon point) in
   validateInput (validationData sampleRequest) = EmptyString /\
   point = {| lat := 21.073477080295934; lon := 105.80481699999996 |} /\
   back = 359.9999999999493 /\
   (PrimFloat.abs (back - 0) <=? 1e-6) = false /\
   match calculateTarget h sampleRequest with
   | Success data => bearingError (verification data) = 359.9999999999493
   | Failure _ => False
   end).
Proof.
  intros Hspecial Hpole Hsample. split.
  - intros point back.
    assert (E : point = {| lat := nan; lon := nan |})
      by now apply target_near_pole.
    assert (N : JS.isNaN back = true).
    { unfold back. apply calculateBearing_nan; [exact Hspecial | ].
      rewrite E. reflexivity. }
    split; [vm_compute; reflexivity | ]. split; [exact N | ].
    split; [now apply leb_nan_l, abs_nan, sub_nan_l | ].
    unfold calculateTarget.
    replace (validateInput (validationData nearPole)) with EmptyString
      by (vm_compute; reflexivity).
    cbn [JS.truthy String.eqb negb verification bearingError nearPole
         observerLat observerLon azimuth distance].
    now apply abs_nan, sub_nan_l.
  - intros point back.
    assert (Ep : point
                 = {| lat := 21.073477080295934; lon := 105.80481699999996 |})
      by now apply target_of_sample.
    assert (E : back = 359.9999999999493).
    { unfold back. rewrite Ep. cbn [lat lon]. now apply bearing_of_sample. }
    split; [vm_compute; reflexivity | ]. split; [exact Ep | ].
    split; [exact E | ]. split; [rewrite E; reflexivity | ].
    unfold calculateTarget.
    replace (validateInput (validationData sampleRequest)) with EmptyString
      by (vm_compute; reflexivity).
    cbn [JS.truthy String.eqb negb verification bearingError sampleRequest
         observerLat observerLon azimuth distance].
    fold point. fold back. rewrite E. reflexivity.
Qed.

Lemma bearing_round_trip_fails_witness :
  (specialCases tabulatedHost /\ nearPoleValues tabulatedHost /\
   sampleValues tabulatedHost) /\
  (let point :=
     calculateTargetCoordinate (Binary64 tabulatedHost) 89.9682 0 0 3.536 in
   let back :=
     calculateBearing (Binary64 tabulatedHost) 89.9682 0 (lat point)
       (lon point) in
   validateInput (validationData nearPole) = EmptyString /\
   JS.isNaN back = true /\
   (PrimFloat.abs (back - 0) <=? 1e-6) = false /\
   match calculateTarget tabulatedHost nearPole with
   | Success data => JS.isNaN (bearingError (verification data)) = true
   | Failure _ => False
   end) /\
  (let point :=
     calculateTargetCoordinate (Binary64 tabulatedHost) 21.028511 105.804817
       0 5 in
   let back :=
     calculateBearing (Binary64 tabulatedHost) 21.028511 105.804817
       (lat point) (lon point) in
   validateInput (validationData sampleRequest) = EmptyString /\
   point = {| lat := 21.073477080295934; lon := 105.80481699999996 |} /\
   back = 359.9999999999493 /\
   (PrimFloat.abs (back - 0) <=? 1e-6) = false /\
   match calculateTarget tabulatedHost sampleRequest with
   | Success data => bearingError (verification data) = 359.9999999999493
   | Failure _ => False
   end).
Proof.
  split; [split; [exact tabulatedHost_specialCases
                 | split; [exact tabulatedHost_nearPoleValues
                          | exact tabulatedHost_sampleValues]] | ].
  exact (bearing_round_trip_fails tabulatedHost tabulatedHost_specialCases
           tabulatedHost_nearPoleValues tabulatedHost_sampleValues).
Defined.
End Failures.
